(** * OpenMC geometry locator and material cross-section engine

    A shallow embedding of [src/geometry.cpp] and [src/material.cpp]
    (with the declarations of [material.h] and [nuclide.h]) and the
    properties of the specification that are settled against it.

    Conventions of the embedding:
    - C++ [int] / [int32_t] values are integers of [Z]; a sum whose
      operands come from the model's data (the distribcell offset, a
      material index plus one) is written out as the two's-complement
      result, with [wrap32]; index arithmetic next to an access that
      bounds it is not;
    - C++ [double] is the IEEE-754 binary64 type [float] of the kernel in
      the geometry part; the material part is written over an arithmetic
      interface [Arith], whose instance [double_arith] is binary64, so
      that what is proved of it holds of the code's arithmetic;
    - [std::vector] is [list] with stdpp's lookup, [std::unordered_map]
      is [gmap];
    - methods of classes that live in other translation units (cell
      containment, lattice arithmetic, nuclide data) are members of
      interface classes or section variables. *)

From Stdlib Require Import ZArith Floats Lia String.
From stdpp Require Import base option list gmap strings sorting.

Set Warnings "-inexact-float".
#[local] Open Scope Z_scope.

(** ** Machine integers *)

(** Two's-complement value of an integer stored in a 32-bit [int]. *)
Definition wrap32 (z : Z) : Z := (z + 2^31) mod 2^32 - 2^31.

Definition in_int32 (z : Z) : Prop := - 2^31 <= z < 2^31.

(** The sum of a list of integers. *)
Definition sumZ (l : list Z) : Z := foldr Z.add 0 l.

(** [v[i]] for a vector indexed by a C++ [int]: no element outside
    [0 .. size-1]. *)
Definition lookupZ {A} (l : list A) (i : Z) : option A :=
  if i <? 0 then None else l !! Z.to_nat i.

(** [v[i] = x]; [None] when [i] is outside the vector, where the source
    has undefined behaviour. *)
Definition storeZ {A} (l : list A) (i : Z) (x : A) : option (list A) :=
  if (0 <=? i) && (i <? Z.of_nat (length l))
  then Some (<[Z.to_nat i := x]> l) else None.

(** [C_NONE]: the "no index" sentinel of [constants.h]; [material.h]
    documents the entries of [mat_nuclide_index_] filled with it as -1,
    and [nuclide.h] initialises [index_sab] with the literal. *)
Definition C_NONE : Z := -1.

(** ** Results of the C API *)

(** A call either returns, or runs into behaviour the C++ standard leaves
    undefined (an access outside a container).  [OutOfFuel] is produced
    only by the locator's recursion, which the embedding bounds by a
    counter the source does not have. *)
Inductive outcome (A : Type) : Type :=
| Returned (a : A)
| Undefined
| OutOfFuel.
Arguments Returned {A} a.
Arguments Undefined {A}.
Arguments OutOfFuel {A}.

(** Error codes of [capi.h], which is not among the sources: each is an
    [int] whose value the engine never inspects. *)
Record ErrorCodes := {
  OPENMC_E_ALLOCATE : Z;
  OPENMC_E_INVALID_ARGUMENT : Z;
  OPENMC_E_INVALID_ID : Z;
  OPENMC_E_OUT_OF_BOUNDS : Z
}.

(** ** Arithmetic interface for [double] *)

Class Arith (R : Type) := {
  zero : R;
  add : R -> R -> R;
  sub : R -> R -> R;
  mul : R -> R -> R;
  div : R -> R -> R;
  (** [a != b] *)
  neq : R -> R -> bool;
  (** [a > b] *)
  gt : R -> R -> bool
}.

Declare Scope arith_scope.
Delimit Scope arith_scope with ar.
Infix "+" := add : arith_scope.
Infix "-" := sub : arith_scope.
Infix "*" := mul : arith_scope.
Infix "/" := div : arith_scope.
Infix "!=" := neq (at level 70) : arith_scope.
Infix ">" := gt : arith_scope.

(** IEEE-754 binary64: [!=] is true on unordered operands (NaN). *)
#[export] Instance double_arith : Arith float := {
  zero := 0%float;
  add := PrimFloat.add;
  sub := PrimFloat.sub;
  mul := PrimFloat.mul;
  div := PrimFloat.div;
  neq a b := negb (PrimFloat.eqb a b);
  gt a b := PrimFloat.ltb b a
}.

(** [xt::sum(v)()]: the entries added from the left, starting at 0. *)
Definition xsum {R} `{Arith R} (v : list R) : R :=
  fold_left add v zero.

(** [v /= s] and [v *= s] on an [xtensor]. *)
Definition xdiv {R} `{Arith R} (v : list R) (s : R) : list R :=
  map (fun a => (a / s)%ar) v.
Definition xmul {R} `{Arith R} (v : list R) (s : R) : list R :=
  map (fun a => (a * s)%ar) v.

#[export] Instance outcome_ret : MRet outcome := @Returned.
#[export] Instance outcome_bind : MBind outcome := fun A B f o =>
  match o with
  | Returned a => f a
  | Undefined => Undefined
  | OutOfFuel => OutOfFuel
  end.

(** [for (int i = 0; i < n; ++i) body]: the body threads the state and
    may hit undefined behaviour. *)
Fixpoint for_from {St} (i : nat) (n : nat) (body : nat -> St -> outcome St)
    (s : St) : outcome St :=
  match n with
  | O => Returned s
  | S n' => s' ← body i s; for_from (S i) n' body s'
  end.

Definition for_loop {St} (n : nat) (body : nat -> St -> outcome St)
    (s : St) : outcome St :=
  for_from 0 n body s.

(** An element access [v[i]] / [v(i)] as a step of a computation. *)
Definition at_nat {A} (l : list A) (i : nat) : outcome A :=
  match l !! i with Some a => Returned a | None => Undefined end.

Definition at_Z {A} (l : list A) (i : Z) : outcome A :=
  match lookupZ l i with Some a => Returned a | None => Undefined end.

(** [v[i] = x] as a step of a computation. *)
Definition put_Z {A} (l : list A) (i : Z) (x : A) : outcome (list A) :=
  match storeZ l i x with Some l' => Returned l' | None => Undefined end.

(** * Material cross-section engine ([material.cpp]) *)

Module Material.

(** [Material::ThermalTable]. *)
Record ThermalTable {R : Type} := {
  index_table : Z;
  index_nuclide : Z;
  fraction : R
}.
Arguments ThermalTable : clear implicits.

(** [class Material] of [material.h] (the bremsstrahlung sub-object
    [ttb_] is left out: no modelled function reads it). *)
Record Material {R : Type} := {
  id_ : Z;
  name_ : string;
  nuclide_ : list Z;
  element_ : list Z;
  atom_density_ : list R;
  density_ : R;
  density_gpcc_ : R;
  volume_ : R;
  fissionable_ : bool;
  depletable_ : bool;
  p0_ : list bool;
  mat_nuclide_index_ : list Z;
  thermal_tables_ : list (ThermalTable R);
  temperature_ : R
}.
Arguments Material : clear implicits.

(** The data members of [class Nuclide] that the material engine reads. *)
Record Nuclide {R : Type} := {
  nuc_name_ : string;
  awr_ : R;
  nuc_fissionable_ : bool
}.
Arguments Nuclide : clear implicits.

(** [struct NuclideMicroXS] of [nuclide.h]. *)
Record NuclideMicroXS {R : Type} := {
  total : R;
  absorption : R;
  fission : R;
  nu_fission : R;
  elastic : R;
  thermal : R;
  thermal_elastic : R;
  photon_prod : R;
  reaction : list R;
  index_grid : Z;
  index_temp : Z;
  interp_factor : R;
  index_sab : Z;
  index_temp_sab : Z;
  sab_frac : R;
  use_ptable : bool;
  last_E : R;
  last_sqrtkT : R
}.
Arguments NuclideMicroXS : clear implicits.

(** The members of the photon cache entry ([photon.h]) that
    [calculate_photon_xs] reads. *)
Record ElementMicroXS {R : Type} := {
  e_total : R;
  e_coherent : R;
  e_incoherent : R;
  e_photoelectric : R;
  e_pair_production : R;
  e_last_E : R
}.
Arguments ElementMicroXS : clear implicits.

(** [struct MaterialMacroXS] of [nuclide.h]. *)
Record MaterialMacroXS {R : Type} := {
  m_total : R;
  m_absorption : R;
  m_fission : R;
  m_nu_fission : R;
  m_photon_prod : R;
  m_coherent : R;
  m_incoherent : R;
  m_photoelectric : R;
  m_pair_production : R
}.
Arguments MaterialMacroXS : clear implicits.

(** [enum class ParticleType]; [nuclide.h] orders [energy_min] by it. *)
Inductive ParticleType := neutron | photon | electron | positron.

(** The members of [Particle] read by [Material::calculate_xs]. *)
Record Particle {R : Type} := {
  type : ParticleType;
  E : R;
  sqrtkT : R
}.
Arguments Particle : clear implicits.

(** An invocation of an opaque data collaborator, recorded in the order
    the engine makes it. *)
Inductive Call {R : Type} :=
| NuclideRefresh (i_nuclide i_sab : Z) (E : R) (i_grid : Z)
    (sqrtkT sab_frac : R)
| ElementRefresh (i_element : Z) (E : R).
Arguments Call : clear implicits.

(** The thread-private caches [simulation::micro_xs],
    [simulation::micro_photon_xs] and [simulation::material_xs]; the
    caches are raw arrays, read here as functions of the global index.
    [calls] is a ghost trace of the refreshes made. *)
Record XsState {R : Type} := {
  micro_xs : Z -> NuclideMicroXS R;
  micro_photon_xs : Z -> ElementMicroXS R;
  material_xs : MaterialMacroXS R;
  calls : list (Call R)
}.
Arguments XsState : clear implicits.

(** [data::nuclides] and [data::nuclide_map]. *)
Record Data {R : Type} := {
  nuclides : list (Nuclide R);
  nuclide_map : gmap string Z
}.
Arguments Data : clear implicits.

(** [model::materials] and [model::material_map]. *)
Record Model {R : Type} := {
  materials : list (Material R);
  material_map : gmap Z Z
}.
Arguments Model : clear implicits.

(** Position of the thermal-table cursor inside the nuclide loop. *)
Record SabCursor := {
  j : nat;
  check_sab : bool
}.

Section Engine.

Context {R : Type} `{Arith R}.

(** *** Collaborators and constants declared outside the sources *)

(** [std::log] and the conversion of a [double] to [int]. *)
Variable log : R -> R.
Variable to_int : R -> Z.

(** [simulation::log_spacing], [data::energy_min], [settings::run_CE]
    and [data::nuclides_MG.size()]. *)
Variable log_spacing : R.
Variable energy_min : ParticleType -> R.
Variable run_CE : bool.
Variable n_nuclides_MG : nat.

(** [data::thermal_scatt] and [data::elements]: vectors of objects whose
    classes ([thermal.h], [photon.h]) are declared outside the sources. *)
Context {Sab Elem : Type}.
Variable thermal_scatt : list Sab.
Variable elements : list Elem.

(** [Nuclide::calculate_xs] of the nuclide with the given global index:
    it rewrites the thread's microscopic cache. *)
Variable Nuclide_calculate_xs :
  Z -> Z -> R -> Z -> R -> R -> (Z -> NuclideMicroXS R) -> Z -> NuclideMicroXS R.

(** [PhotonInteraction::calculate_xs] of the element with the given index. *)
Variable Element_calculate_xs :
  Z -> R -> (Z -> ElementMicroXS R) -> Z -> ElementMicroXS R.

(** [ThermalScattering::threshold]. *)
Variable threshold : Sab -> R.

(** Physical constants of [constants.h]. *)
Variable MASS_NEUTRON : R.
Variable N_AVOGADRO : R.

Variable codes : ErrorCodes.

(** [openmc_load_nuclide]: the error code and the data library after it. *)
Variable openmc_load_nuclide : string -> Data R -> Z * Data R.

(** *** Field updates *)

Definition set_atom_density_ (m : Material R) (v : list R) : Material R :=
  {| id_ := id_ m; name_ := name_ m; nuclide_ := nuclide_ m;
     element_ := element_ m; atom_density_ := v; density_ := density_ m;
     density_gpcc_ := density_gpcc_ m; volume_ := volume_ m;
     fissionable_ := fissionable_ m; depletable_ := depletable_ m;
     p0_ := p0_ m; mat_nuclide_index_ := mat_nuclide_index_ m;
     thermal_tables_ := thermal_tables_ m; temperature_ := temperature_ m |}.

Definition set_density_ (m : Material R) (d : R) : Material R :=
  {| id_ := id_ m; name_ := name_ m; nuclide_ := nuclide_ m;
     element_ := element_ m; atom_density_ := atom_density_ m; density_ := d;
     density_gpcc_ := density_gpcc_ m; volume_ := volume_ m;
     fissionable_ := fissionable_ m; depletable_ := depletable_ m;
     p0_ := p0_ m; mat_nuclide_index_ := mat_nuclide_index_ m;
     thermal_tables_ := thermal_tables_ m; temperature_ := temperature_ m |}.

Definition set_density_gpcc_ (m : Material R) (g : R) : Material R :=
  {| id_ := id_ m; name_ := name_ m; nuclide_ := nuclide_ m;
     element_ := element_ m; atom_density_ := atom_density_ m;
     density_ := density_ m; density_gpcc_ := g; volume_ := volume_ m;
     fissionable_ := fissionable_ m; depletable_ := depletable_ m;
     p0_ := p0_ m; mat_nuclide_index_ := mat_nuclide_index_ m;
     thermal_tables_ := thermal_tables_ m; temperature_ := temperature_ m |}.

Definition set_id_ (m : Material R) (i : Z) : Material R :=
  {| id_ := i; name_ := name_ m; nuclide_ := nuclide_ m;
     element_ := element_ m; atom_density_ := atom_density_ m;
     density_ := density_ m; density_gpcc_ := density_gpcc_ m;
     volume_ := volume_ m; fissionable_ := fissionable_ m;
     depletable_ := depletable_ m; p0_ := p0_ m;
     mat_nuclide_index_ := mat_nuclide_index_ m;
     thermal_tables_ := thermal_tables_ m; temperature_ := temperature_ m |}.

Definition set_mat_nuclide_index_ (m : Material R) (v : list Z) : Material R :=
  {| id_ := id_ m; name_ := name_ m; nuclide_ := nuclide_ m;
     element_ := element_ m; atom_density_ := atom_density_ m;
     density_ := density_ m; density_gpcc_ := density_gpcc_ m;
     volume_ := volume_ m; fissionable_ := fissionable_ m;
     depletable_ := depletable_ m; p0_ := p0_ m; mat_nuclide_index_ := v;
     thermal_tables_ := thermal_tables_ m; temperature_ := temperature_ m |}.

Definition set_material_xs (xs : XsState R) (mx : MaterialMacroXS R)
    : XsState R :=
  {| micro_xs := micro_xs xs; micro_photon_xs := micro_photon_xs xs;
     material_xs := mx; calls := calls xs |}.

(** *** [Material::init_nuclide_index] *)

(** The direct-address table after the [resize] and [std::fill]. *)
Definition blank_index (d : Data R) : list Z :=
  replicate (if run_CE then length (nuclides d) else n_nuclides_MG) C_NONE.

(** One pass of the loop: [mat_nuclide_index_[nuclide_[i]] = i]. *)
Definition index_slot (nuc : list Z) (i : nat) (table : list Z)
    : outcome (list Z) :=
  g ← at_nat nuc i;
  put_Z table g (Z.of_nat i).

Definition init_nuclide_index (d : Data R) (m : Material R)
    : outcome (Material R) :=
  table ← for_loop (length (nuclide_ m)) (index_slot (nuclide_ m))
            (blank_index d);
  mret (set_mat_nuclide_index_ m table).

(** *** [Material::calculate_xs] *)

(** The S(a,b) check at the head of the loop body for local nuclide [i]:
    the bound [(i_sab, sab_frac)] and the cursor after it.  The table of
    the matching entry is read from [data::thermal_scatt]: an index
    outside that vector is undefined behaviour. *)
Definition sab_binding (m : Material R) (p : Particle R) (i : nat)
    (cur : SabCursor) : outcome (Z * R * SabCursor) :=
  if check_sab cur then
    sab ← at_nat (thermal_tables_ m) (j cur);
    if Z.of_nat i =? index_nuclide sab then
      let i_sab := index_table sab in
      let sab_frac := fraction sab in
      table ← at_Z thermal_scatt i_sab;
      let i_sab' := if (E p > threshold table)%ar then C_NONE else i_sab in
      let j' := S (j cur) in
      mret (i_sab', sab_frac,
            {| j := j';
               check_sab :=
                 if Nat.eqb j' (length (thermal_tables_ m)) then false
                 else check_sab cur |})
    else mret (C_NONE, zero, cur)
  else mret (C_NONE, zero, cur).

(** The guard of the microscopic refresh. *)
Definition tuple_differs (p : Particle R) (i_sab : Z) (sab_frac' : R)
    (micro : NuclideMicroXS R) : bool :=
  (E p != last_E micro)%ar
  || (sqrtkT p != last_sqrtkT micro)%ar
  || negb (i_sab =? index_sab micro)
  || (sab_frac' != sab_frac micro)%ar.

(** [data::nuclides[i_nuclide]->calculate_xs(...)] on the thread's cache,
    recorded in the trace; the nuclide is an element of [data::nuclides]. *)
Definition refresh_nuclide (d : Data R) (i_nuclide i_sab : Z) (p : Particle R)
    (i_grid : Z) (sab_frac' : R) (xs : XsState R) : outcome (XsState R) :=
  _ ← at_Z (nuclides d) i_nuclide;
  mret {| micro_xs :=
            Nuclide_calculate_xs i_nuclide i_sab (E p) i_grid (sqrtkT p)
              sab_frac' (micro_xs xs);
          micro_photon_xs := micro_photon_xs xs;
          material_xs := material_xs xs;
          calls := calls xs ++
            [NuclideRefresh i_nuclide i_sab (E p) i_grid (sqrtkT p)
               sab_frac'] |}.

(** The four [+=] of the neutron loop. *)
Definition add_neutron (atom_density : R) (micro : NuclideMicroXS R)
    (mx : MaterialMacroXS R) : MaterialMacroXS R :=
  {| m_total := (m_total mx + atom_density * total micro)%ar;
     m_absorption := (m_absorption mx + atom_density * absorption micro)%ar;
     m_fission := (m_fission mx + atom_density * fission micro)%ar;
     m_nu_fission := (m_nu_fission mx + atom_density * nu_fission micro)%ar;
     m_photon_prod := m_photon_prod mx;
     m_coherent := m_coherent mx;
     m_incoherent := m_incoherent mx;
     m_photoelectric := m_photoelectric mx;
     m_pair_production := m_pair_production mx |}.

(** The body of the loop of [calculate_neutron_xs] for local nuclide [i]. *)
Definition neutron_nuclide (d : Data R) (m : Material R) (p : Particle R)
    (i_grid : Z) (i : nat) (st : XsState R * SabCursor)
    : outcome (XsState R * SabCursor) :=
  '(i_sab, sab_frac', cur') ← sab_binding m p i st.2;
  i_nuclide ← at_nat (nuclide_ m) i;
  let xs := st.1 in
  xs' ← (if tuple_differs p i_sab sab_frac' (micro_xs xs i_nuclide)
         then refresh_nuclide d i_nuclide i_sab p i_grid sab_frac' xs
         else mret xs);
  atom_density ← at_nat (atom_density_ m) i;
  mret (set_material_xs xs'
          (add_neutron atom_density (micro_xs xs' i_nuclide) (material_xs xs')),
        cur').

Definition calculate_neutron_xs (d : Data R) (m : Material R)
    (p : Particle R) (xs : XsState R) : outcome (XsState R) :=
  let i_grid := to_int (log (E p / energy_min neutron) / log_spacing)%ar in
  let cur := {| j := 0;
                check_sab := negb (Nat.eqb (length (thermal_tables_ m)) 0) |} in
  st ← for_loop (length (nuclide_ m)) (neutron_nuclide d m p i_grid) (xs, cur);
  mret st.1.

(** [data::elements[i_element].calculate_xs(p.E)], recorded in the trace;
    the element is an element of [data::elements]. *)
Definition refresh_element (i_element : Z) (p : Particle R) (xs : XsState R)
    : outcome (XsState R) :=
  _ ← at_Z elements i_element;
  mret {| micro_xs := micro_xs xs;
          micro_photon_xs :=
            Element_calculate_xs i_element (E p) (micro_photon_xs xs);
          material_xs := material_xs xs;
          calls := calls xs ++ [ElementRefresh i_element (E p)] |}.

(** The four assignments at the head of [calculate_photon_xs]. *)
Definition zero_photon (mx : MaterialMacroXS R) : MaterialMacroXS R :=
  {| m_total := m_total mx;
     m_absorption := m_absorption mx;
     m_fission := m_fission mx;
     m_nu_fission := m_nu_fission mx;
     m_photon_prod := m_photon_prod mx;
     m_coherent := zero;
     m_incoherent := zero;
     m_photoelectric := zero;
     m_pair_production := zero |}.

(** The five [+=] of the photon loop. *)
Definition add_photon (atom_density : R) (micro : ElementMicroXS R)
    (mx : MaterialMacroXS R) : MaterialMacroXS R :=
  {| m_total := (m_total mx + atom_density * e_total micro)%ar;
     m_absorption := m_absorption mx;
     m_fission := m_fission mx;
     m_nu_fission := m_nu_fission mx;
     m_photon_prod := m_photon_prod mx;
     m_coherent := (m_coherent mx + atom_density * e_coherent micro)%ar;
     m_incoherent := (m_incoherent mx + atom_density * e_incoherent micro)%ar;
     m_photoelectric :=
       (m_photoelectric mx + atom_density * e_photoelectric micro)%ar;
     m_pair_production :=
       (m_pair_production mx + atom_density * e_pair_production micro)%ar |}.

(** The body of the loop of [calculate_photon_xs] for local nuclide [i]. *)
Definition photon_nuclide (m : Material R) (p : Particle R) (i : nat)
    (xs : XsState R) : outcome (XsState R) :=
  i_element ← at_nat (element_ m) i;
  xs' ← (if (E p != e_last_E (micro_photon_xs xs i_element))%ar
         then refresh_element i_element p xs
         else mret xs);
  atom_density ← at_nat (atom_density_ m) i;
  mret (set_material_xs xs'
          (add_photon atom_density (micro_photon_xs xs' i_element)
             (material_xs xs'))).

Definition calculate_photon_xs (m : Material R) (p : Particle R)
    (xs : XsState R) : outcome (XsState R) :=
  for_loop (length (nuclide_ m)) (photon_nuclide m p)
    (set_material_xs xs (zero_photon (material_xs xs))).

(** The four assignments at the head of [calculate_xs]. *)
Definition zero_common (mx : MaterialMacroXS R) : MaterialMacroXS R :=
  {| m_total := zero;
     m_absorption := zero;
     m_fission := zero;
     m_nu_fission := zero;
     m_photon_prod := m_photon_prod mx;
     m_coherent := m_coherent mx;
     m_incoherent := m_incoherent mx;
     m_photoelectric := m_photoelectric mx;
     m_pair_production := m_pair_production mx |}.

Definition calculate_xs (d : Data R) (m : Material R) (p : Particle R)
    (xs : XsState R) : outcome (XsState R) :=
  let xs0 := set_material_xs xs (zero_common (material_xs xs)) in
  match type p with
  | neutron => calculate_neutron_xs d m p xs0
  | photon => calculate_photon_xs m p xs0
  | _ => mret xs0
  end.

(** *** [Material::set_density] *)

(** One pass of the loop that recomputes [density_gpcc_]. *)
Definition gpcc_term (d : Data R) (nuc : list Z) (ad : list R) (i : nat)
    (acc : R) : outcome R :=
  i_nuc ← at_nat nuc i;
  n ← at_Z (nuclides d) i_nuc;
  a ← at_nat ad i;
  mret (acc + a * awr_ n * MASS_NEUTRON / N_AVOGADRO)%ar.

(** The return value and the material after the call (the text handed to
    [set_errmsg] is not modelled). *)
Definition set_density (d : Data R) (m : Material R) (density : R)
    (units : string) : outcome (Z * Material R) :=
  match nuclide_ m with
  | [] => mret (OPENMC_E_ALLOCATE codes, m)
  | _ =>
    if String.eqb units "atom/b-cm" then
      let m1 := set_density_ m density in
      let sum_percent := xsum (atom_density_ m1) in
      let m2 := set_atom_density_ m1 (xdiv (atom_density_ m1) sum_percent) in
      let m3 := set_atom_density_ m2 (xmul (atom_density_ m2) density) in
      g ← for_loop (length (nuclide_ m3))
            (gpcc_term d (nuclide_ m3) (atom_density_ m3)) zero;
      mret (0, set_density_gpcc_ m3 g)
    else if String.eqb units "g/cm3" || String.eqb units "g/cc" then
      let previous_density_gpcc := density_gpcc_ m in
      let f := (density / previous_density_gpcc)%ar in
      let m1 := set_density_gpcc_ m density in
      let m2 := set_density_ m1 (density_ m1 * f)%ar in
      mret (0, set_atom_density_ m2 (xmul (atom_density_ m2) f))
    else mret (OPENMC_E_INVALID_ARGUMENT codes, m)
  end.

(** *** C API *)

(** [openmc_get_material_index]: the return value and, on success, the
    value written through [index]. *)
Definition openmc_get_material_index (mdl : Model R) (id : Z)
    : Z * option Z :=
  match material_map mdl !! id with
  | None => (OPENMC_E_INVALID_ID codes, None)
  | Some second => (0, Some (wrap32 (second + 1)))
  end.

(** The guard [index >= 1 && index <= model::materials.size()]. *)
Definition index_in_bounds (mdl : Model R) (index : Z) : bool :=
  (1 <=? index) && (index <=? Z.of_nat (length (materials mdl))).

(** [openmc_material_set_id]. *)
Definition openmc_material_set_id (mdl : Model R) (index id : Z)
    : Z * Model R :=
  if index_in_bounds mdl index then
    let k := Z.to_nat (index - 1) in
    (0, {| materials :=
             match materials mdl !! k with
             | Some m => <[k := set_id_ m id]> (materials mdl)
             | None => materials mdl
             end;
           material_map := <[id := index - 1]> (material_map mdl) |})
  else (OPENMC_E_OUT_OF_BOUNDS codes, mdl).

(** The search loop of [openmc_material_add_nuclide]: the first local
    slot, from [i] on, whose nuclide carries [name]. *)
Fixpoint find_named (d : Data R) (name : string) (nuc : list Z) (i : nat)
    : outcome (option (nat * Nuclide R)) :=
  match nuc with
  | [] => mret None
  | i_nuc :: rest =>
      n ← at_Z (nuclides d) i_nuc;
      if String.eqb (nuc_name_ n) name then mret (Some (i, n))
      else find_named d name rest (S i)
  end.

(** [name] is already in the material: [i] is the first local slot whose
    nuclide, [n], carries it. *)
Definition first_named (d : Data R) (name : string) (nuc : list Z) (i : nat)
    (n : Nuclide R) : Prop :=
  (exists g, nuc !! i = Some g /\ lookupZ (nuclides d) g = Some n)
  /\ nuc_name_ n = name
  /\ forall i', (i' < i)%nat ->
       exists g' n', nuc !! i' = Some g'
         /\ lookupZ (nuclides d) g' = Some n' /\ nuc_name_ n' <> name.

(** The in-place update made when the nuclide is already present. *)
Definition update_nuclide (m : Material R) (i : nat) (awr : R)
    (density : R) : outcome (Material R) :=
  a ← at_nat (atom_density_ m) i;
  let m1 := set_density_ m (density_ m + (density - a))%ar in
  let m2 := set_density_gpcc_ m1
    (density_gpcc_ m1 + (density - a) * awr * MASS_NEUTRON / N_AVOGADRO)%ar in
  mret (set_atom_density_ m2 (<[i := density]> (atom_density_ m2))).

(** [openmc_material_add_nuclide]: the return value, the materials and
    the data library after the call.  When the nuclide is new and loads,
    the source copies the densities into a tensor of [n] entries and then
    writes [atom_density(n)], one past its end: undefined behaviour. *)
Definition openmc_material_add_nuclide (mdl : Model R) (d : Data R)
    (index : Z) (name : string) (density : R)
    : outcome (Z * Model R * Data R) :=
  if index_in_bounds mdl index then
    let k := Z.to_nat (index - 1) in
    m ← at_nat (materials mdl) k;
    found ← find_named d name (nuclide_ m) 0;
    match found with
    | Some (i, n) =>
        m' ← update_nuclide m i (awr_ n) density;
        mret (0, {| materials := <[k := m']> (materials mdl);
                    material_map := material_map mdl |}, d)
    | None =>
        let '(err, d') := openmc_load_nuclide name d in
        if err =? 0 then Undefined
        else mret (err, mdl, d')
    end
  else mret (OPENMC_E_OUT_OF_BOUNDS codes, mdl, d).

End Engine.

End Material.

(** * Geometry locator ([geometry.cpp]) *)

Module Geometry.

(** ** Data model *)

(** [Position] and [Direction] ([position.h]): three doubles. *)
Record Position := {
  x : float;
  y : float;
  z : float
}.
Definition Direction := Position.

(** Modelled from the spec: [position.h] is not among the sources; the
    spec lists 3-vectors among the geometric primitives, and these are
    their component-wise sum, scaling and inner product. *)
Definition plus (a b : Position) : Position :=
  {| x := (x a + x b)%float; y := (y a + y b)%float; z := (z a + z b)%float |}.
Definition scale (s : float) (a : Position) : Position :=
  {| x := (s * x a)%float; y := (s * y a)%float; z := (s * z a)%float |}.
Definition dot (a b : Position) : float :=
  (x a * x b + y a * y b + z a * z b)%float.

(** Three lattice indices, [std::array<int, 3>]. *)
Definition Indices : Type := Z * Z * Z.

(** [class LocalCoord]: one coordinate frame of a particle. *)
Record LocalCoord := {
  cell : Z;
  universe : Z;
  lattice : Z;
  lattice_x : Z;
  lattice_y : Z;
  lattice_z : Z;
  xyz : Position;
  uvw : Direction;
  rotated : bool
}.

(** The members of [class Particle] the locator reads and writes. *)
Record Particle := {
  id : Z;
  n_coord : Z;
  coord : list LocalCoord;
  surface : Z;
  material : Z;
  last_material : Z;
  sqrtkT : float;
  last_sqrtkT : float;
  cell_instance : Z;
  alive : bool
}.

(** The three kinds of fill, [FILL_MATERIAL], [FILL_UNIVERSE] and
    [FILL_LATTICE]. *)
Inductive FillType := FILL_MATERIAL | FILL_UNIVERSE | FILL_LATTICE.

(** The members of [class Cell] the locator reads; [region_] stands for
    the CSG region that [Cell::contains] and [Cell::distance] evaluate. *)
Record Cell := {
  id_ : Z;
  universe_ : Z;
  type_ : FillType;
  fill_ : Z;
  material_ : list Z;
  sqrtkT_ : list float;
  distribcell_index_ : Z;
  offset_ : list Z;
  translation_ : Position;
  rotation_ : list float;
  simple_ : bool;
  region_ : list Z;
  neighbors_ : list Z
}.

(** [class Universe]. *)
Record Universe := {
  univ_id_ : Z;
  cells_ : list Z
}.

Inductive LatticeType := rect | hex.

(** The abstract base class [Lattice] with the virtual methods the
    locator calls; [lat_at] is [operator[]]. *)
Class LatticeClass (L : Type) := {
  lat_id_ : L -> Z;
  lat_type_ : L -> LatticeType;
  outer_ : L -> Z;
  are_valid_indices : L -> Indices -> bool;
  get_indices : L -> Position -> Indices;
  get_local_position : L -> Position -> Indices -> Position;
  lat_at : L -> Indices -> Z;
  lat_offset : L -> Z -> Indices -> Z;
  lat_distance : L -> Position -> Direction -> Indices -> float * Indices
}.

(** The abstract base class [Surface]. *)
Class SurfaceClass (Sf : Type) := {
  normal : Sf -> Position -> Direction
}.

(** The registries [model::cells], [model::universes], [model::lattices],
    [model::surfaces] and [model::root_universe]. *)
Record Model {L Sf : Type} := {
  cells : list Cell;
  universes : list Universe;
  lattices : list L;
  surfaces : list Sf;
  root_universe : Z
}.
Arguments Model : clear implicits.

(** What the locator hands to the messaging collaborators of [error.h]. *)
Inductive Message :=
| EnteringCell (cell_id : Z)
| OutsideLattice (particle_id lattice_id : Z)
| NegativeLatticeDistance (particle_id : Z).

Inductive Event :=
| write_message (msg : Message) (level : Z)
| warning (msg : Message)
| fatal_error (msg : Message)
| mark_as_lost (msg : Message).

(** ** Field updates *)

Definition set_cell (c : LocalCoord) (v : Z) : LocalCoord :=
  {| cell := v; universe := universe c; lattice := lattice c;
     lattice_x := lattice_x c; lattice_y := lattice_y c;
     lattice_z := lattice_z c; xyz := xyz c; uvw := uvw c;
     rotated := rotated c |}.

Definition set_universe (c : LocalCoord) (v : Z) : LocalCoord :=
  {| cell := cell c; universe := v; lattice := lattice c;
     lattice_x := lattice_x c; lattice_y := lattice_y c;
     lattice_z := lattice_z c; xyz := xyz c; uvw := uvw c;
     rotated := rotated c |}.

Definition set_xyz_uvw (c : LocalCoord) (r : Position) (u : Direction)
    : LocalCoord :=
  {| cell := cell c; universe := universe c; lattice := lattice c;
     lattice_x := lattice_x c; lattice_y := lattice_y c;
     lattice_z := lattice_z c; xyz := r; uvw := u; rotated := rotated c |}.

Definition set_rotated (c : LocalCoord) (b : bool) : LocalCoord :=
  {| cell := cell c; universe := universe c; lattice := lattice c;
     lattice_x := lattice_x c; lattice_y := lattice_y c;
     lattice_z := lattice_z c; xyz := xyz c; uvw := uvw c; rotated := b |}.

Definition set_lattice (c : LocalCoord) (l : Z) (i : Indices) : LocalCoord :=
  {| cell := cell c; universe := universe c; lattice := l;
     lattice_x := i.1.1; lattice_y := i.1.2; lattice_z := i.2;
     xyz := xyz c; uvw := uvw c; rotated := rotated c |}.

Definition set_coord (p : Particle) (v : list LocalCoord) : Particle :=
  {| id := id p; n_coord := n_coord p; coord := v; surface := surface p;
     material := material p; last_material := last_material p;
     sqrtkT := sqrtkT p; last_sqrtkT := last_sqrtkT p;
     cell_instance := cell_instance p; alive := alive p |}.

Definition set_n_coord (p : Particle) (n : Z) : Particle :=
  {| id := id p; n_coord := n; coord := coord p; surface := surface p;
     material := material p; last_material := last_material p;
     sqrtkT := sqrtkT p; last_sqrtkT := last_sqrtkT p;
     cell_instance := cell_instance p; alive := alive p |}.

Definition set_alive (p : Particle) (b : bool) : Particle :=
  {| id := id p; n_coord := n_coord p; coord := coord p; surface := surface p;
     material := material p; last_material := last_material p;
     sqrtkT := sqrtkT p; last_sqrtkT := last_sqrtkT p;
     cell_instance := cell_instance p; alive := b |}.

(** The assignments that close the MATERIAL branch of the locator. *)
Definition set_terminal (p : Particle) (instance mat : Z) (T : float)
    : Particle :=
  {| id := id p; n_coord := n_coord p; coord := coord p; surface := surface p;
     material := mat; last_material := material p;
     sqrtkT := T; last_sqrtkT := sqrtkT p;
     cell_instance := instance; alive := alive p |}.

(** [p->coord[i] = f(p->coord[i])]. *)
Definition update_coord (p : Particle) (i : Z) (f : LocalCoord -> LocalCoord)
    : outcome Particle :=
  c ← at_Z (coord p) i;
  v ← put_Z (coord p) i (f c);
  mret (set_coord p v).

(** The guard of the offset loop: the cell has more than one material or
    more than one temperature. *)
Definition distributed (c : Cell) : bool :=
  (1 <? length (material_ c))%nat || (1 <? length (sqrtkT_ c))%nat.

(** The smaller of a level's two distances; the lattice distance when
    neither is smaller. *)
Definition candidate (d_surf d_lat : float) : float :=
  if PrimFloat.ltb d_surf d_lat then d_surf else d_lat.

(** ** The locator *)

Section Locator.

Context {L Sf : Type} `{LatticeClass L} `{SurfaceClass Sf}.

(** [Cell::contains] and [Cell::distance], defined in [cell.cpp]. *)
Variable Cell_contains : Cell -> Position -> Direction -> Z -> bool.
Variable Cell_distance : Cell -> Position -> Direction -> Z -> float * Z.

(** Constants of [constants.h] and the settings the locator reads. *)
Variable MATERIAL_VOID : Z.
Variable F90_NONE : Z.
Variable NO_OUTER_UNIVERSE : Z.
Variable MAX_COORD : nat.
Variable TINY_BIT : float.
Variable FP_REL_PRECISION : float.
Variable verbosity : Z.
Variable trace : bool.

(** *** [find_cell_inner] *)

(** The cells the search visits: the neighbor list when one is given,
    else the cells of the deepest frame's universe. *)
Definition candidates (mdl : Model L Sf) (p : Particle)
    (neighbor_list : option (list Z)) : outcome (list Z) :=
  match neighbor_list with
  | Some nl => mret nl
  | None =>
      frame ← at_Z (coord p) (n_coord p - 1);
      univ ← at_Z (universes mdl) (universe frame);
      mret (cells_ univ)
  end.

(** The search loop: the first candidate of the frame's universe that
    contains the particle. *)
Fixpoint search_cells (mdl : Model L Sf) (p : Particle) (cands : list Z)
    : outcome (option Z) :=
  match cands with
  | [] => mret None
  | i_cell :: rest =>
      frame ← at_Z (coord p) (n_coord p - 1);
      c ← at_Z (cells mdl) i_cell;
      if negb (universe_ c =? universe frame) then search_cells mdl p rest
      else if Cell_contains c (xyz frame) (uvw frame) (surface p)
      then mret (Some i_cell)
      else search_cells mdl p rest
  end.

(** What frame [i] adds to the distribcell offset of the material cell
    [c]: the [offset_] entry of a UNIVERSE-filled cell, the lattice offset
    of a LATTICE-filled cell at valid indices, nothing otherwise. *)
Definition frame_offset (mdl : Model L Sf) (p : Particle) (c : Cell) (i : nat)
    : outcome Z :=
  frame ← at_nat (coord p) i;
  c_i ← at_Z (cells mdl) (cell frame);
  match type_ c_i with
  | FILL_UNIVERSE => at_Z (offset_ c_i) (distribcell_index_ c)
  | FILL_LATTICE =>
      next ← at_nat (coord p) (S i);
      lat ← at_Z (lattices mdl) (lattice next - 1);
      let i_xyz := (lattice_x next, lattice_y next, lattice_z next) in
      if are_valid_indices lat i_xyz
      then mret (lat_offset lat (distribcell_index_ c) i_xyz)
      else mret 0
  | FILL_MATERIAL => mret 0
  end.

(** One pass of the offset loop, [offset += ...] on an [int]. *)
Definition add_frame_offset (mdl : Model L Sf) (p : Particle) (c : Cell)
    (i : nat) (offset : Z) : outcome Z :=
  o ← frame_offset mdl p c i;
  mret (wrap32 (offset + o)).

(** The distribcell instance of the material cell [c]. *)
Definition find_instance (mdl : Model L Sf) (p : Particle) (c : Cell)
    : outcome Z :=
  if distributed c
  then for_loop (Z.to_nat (n_coord p)) (add_frame_offset mdl p c) 0
  else mret 0.

(** [inst] is 0 for a cell with one material and one temperature, and
    otherwise the sum, as an [int], of what the frames add. *)
Definition instance_is (mdl : Model L Sf) (p : Particle) (c : Cell)
    (inst : Z) : Prop :=
  (distributed c = false -> inst = 0)
  /\ (distributed c = true ->
       exists offsets,
         Forall2 (fun i o => frame_offset mdl p c i = Returned o)
           (seq 0 (Z.to_nat (n_coord p))) offsets
         /\ inst = wrap32 (sumZ offsets)).

(** The particle's material for the entry [mat] of [material_]. *)
Definition material_of (mat : Z) : Z :=
  if mat =? MATERIAL_VOID then MATERIAL_VOID else wrap32 (mat + 1).

(** The MATERIAL branch: the lowest coordinate level is reached. *)
Definition enter_material (mdl : Model L Sf) (p : Particle) (c : Cell)
    : outcome Particle :=
  instance ← find_instance mdl p c;
  mat ← (if (1 <? length (material_ c))%nat
         then at_Z (material_ c) instance
         else at_Z (material_ c) 0);
  T ← (if (1 <? length (sqrtkT_ c))%nat
       then at_Z (sqrtkT_ c) instance
       else at_Z (sqrtkT_ c) 0);
  mret (set_terminal p instance (material_of mat) T).

(** Rows 3..5, 6..8 and 9..11 of [rotation_] applied to a vector. *)
Definition rotate (rot : list float) (v : Position) : outcome Position :=
  r3 ← at_nat rot 3; r4 ← at_nat rot 4; r5 ← at_nat rot 5;
  r6 ← at_nat rot 6; r7 ← at_nat rot 7; r8 ← at_nat rot 8;
  r9 ← at_nat rot 9; r10 ← at_nat rot 10; r11 ← at_nat rot 11;
  mret {| x := (x v * r3 + y v * r4 + z v * r5)%float;
          y := (x v * r6 + y v * r7 + z v * r8)%float;
          z := (x v * r9 + y v * r10 + z v * r11)%float |}.

(** The position, the direction and the [rotated] flag of the frame
    below a UNIVERSE-filled cell: translation, then rotation when the
    cell has one. *)
Definition transformed (c : Cell) (frame : LocalCoord)
    : outcome (Position * Direction * bool) :=
  let r := {| x := (x (xyz frame) - x (translation_ c))%float;
              y := (y (xyz frame) - y (translation_ c))%float;
              z := (z (xyz frame) - z (translation_ c))%float |} in
  let u := uvw frame in
  match rotation_ c with
  | [] => mret (r, u, false)
  | _ => r' ← rotate (rotation_ c) r;
         u' ← rotate (rotation_ c) u;
         mret (r', u', true)
  end.

(** The writes to the frame below a UNIVERSE-filled cell. *)
Definition lower_frame (c : Cell) (t : Position * Direction * bool)
    (f : LocalCoord) : LocalCoord :=
  let f1 := set_xyz_uvw (set_universe f (fill_ c)) t.1.1 t.1.2 in
  if t.2 then set_rotated f1 true else f1.

(** The UNIVERSE branch, up to the recursive call. *)
Definition enter_universe (p : Particle) (c : Cell) : outcome Particle :=
  frame ← at_Z (coord p) (n_coord p - 1);
  t ← transformed c frame;
  p' ← update_coord p (n_coord p) (lower_frame c t);
  mret (set_n_coord p' (n_coord p + 1)).

(** The LATTICE branch, up to the recursive call: [false] when the
    particle is outside a lattice without outer universe. *)
Definition enter_lattice (mdl : Model L Sf) (p : Particle) (c : Cell)
    (log : list Event) : outcome (bool * Particle * list Event) :=
  lat ← at_Z (lattices mdl) (fill_ c);
  frame ← at_Z (coord p) (n_coord p - 1);
  let u := uvw frame in
  let r := plus (xyz frame) (scale TINY_BIT u) in
  let i_xyz := get_indices lat r in
  let r' := get_local_position lat (xyz frame) i_xyz in
  p1 ← update_coord p (n_coord p) (fun f =>
         set_lattice (set_xyz_uvw f r' u) (fill_ c + 1) i_xyz);
  if are_valid_indices lat i_xyz then
    p2 ← update_coord p1 (n_coord p) (fun f =>
           set_universe f (lat_at lat i_xyz));
    mret (true, set_n_coord p2 (n_coord p + 1), log)
  else if negb (outer_ lat =? NO_OUTER_UNIVERSE) then
    p2 ← update_coord p1 (n_coord p) (fun f => set_universe f (outer_ lat));
    mret (true, set_n_coord p2 (n_coord p + 1), log)
  else
    mret (false, p1, log ++ [warning (OutsideLattice (id p) (lat_id_ lat))]).

(** The announcement of the cell being entered. *)
Definition announce (c : Cell) (log : list Event) : list Event :=
  if (10 <=? verbosity) || trace
  then log ++ [write_message (EnteringCell (id_ c)) 1]
  else log.

(** [find_cell_inner]: the return value, the particle and the messages
    after the call.  [fuel] bounds the depth of the recursion. *)
Fixpoint find_cell_inner (fuel : nat) (mdl : Model L Sf) (p : Particle)
    (neighbor_list : option (list Z)) (log : list Event)
    : outcome (bool * Particle * list Event) :=
  match fuel with
  | O => OutOfFuel
  | S fuel' =>
      cands ← candidates mdl p neighbor_list;
      found ← search_cells mdl p cands;
      match found with
      | None => mret (false, p, log)
      | Some i_cell =>
          p1 ← update_coord p (n_coord p - 1) (fun f => set_cell f i_cell);
          c ← at_Z (cells mdl) i_cell;
          let log1 := announce c log in
          match type_ c with
          | FILL_MATERIAL =>
              p2 ← enter_material mdl p1 c;
              mret (true, p2, log1)
          | FILL_UNIVERSE =>
              p2 ← enter_universe p1 c;
              find_cell_inner fuel' mdl p2 None log1
          | FILL_LATTICE =>
              '(inside, p2, log2) ← enter_lattice mdl p1 c log1;
              if inside : bool then find_cell_inner fuel' mdl p2 None log2
              else mret (false, p2, log2)
          end
      end
  end.

(** The search at the deepest frame binds the cell [c], of index
    [i_cell], and leaves the particle [p1]. *)
Definition binds (mdl : Model L Sf) (p : Particle)
    (neighbor_list : option (list Z)) (i_cell : Z) (c : Cell)
    (p1 : Particle) : Prop :=
  exists cands,
    candidates mdl p neighbor_list = Returned cands
    /\ search_cells mdl p cands = Returned (Some i_cell)
    /\ update_coord p (n_coord p - 1) (fun f => set_cell f i_cell)
       = Returned p1
    /\ lookupZ (cells mdl) i_cell = Some c.

(** The particle [p1] is in the LATTICE-filled cell [c], at tile indices
    that are invalid for its lattice [lat], which has no outer universe;
    the frame below the deepest one exists. *)
Definition outside_lattice (mdl : Model L Sf) (p1 : Particle) (c : Cell)
    (lat : L) : Prop :=
  type_ c = FILL_LATTICE
  /\ lookupZ (lattices mdl) (fill_ c) = Some lat
  /\ (exists frame,
        lookupZ (coord p1) (n_coord p1 - 1) = Some frame
        /\ are_valid_indices lat
             (get_indices lat (plus (xyz frame) (scale TINY_BIT (uvw frame))))
           = false)
  /\ outer_ lat = NO_OUTER_UNIVERSE
  /\ is_Some (lookupZ (coord p1) (n_coord p1)).

(** The levels above the one a search fails or ends at:
    [descends mdl k p nl log q nlq logq] when the search started from [p]
    (over the neighbor list [nl], with the messages [log]) goes [k] levels
    down, each through a UNIVERSE-filled cell or a LATTICE-filled cell
    whose tile or outer universe is entered, and goes on from [q] (over
    [nlq], with the messages [logq]). *)
Inductive descends (mdl : Model L Sf)
    : nat -> Particle -> option (list Z) -> list Event
      -> Particle -> option (list Z) -> list Event -> Prop :=
| descends_here (p : Particle) (nl : option (list Z)) (log : list Event) :
    descends mdl 0 p nl log p nl log
| descends_universe (k : nat) (p p1 p2 q : Particle)
    (nl nlq : option (list Z)) (log logq : list Event) (i_cell : Z)
    (c : Cell) :
    binds mdl p nl i_cell c p1 ->
    type_ c = FILL_UNIVERSE ->
    enter_universe p1 c = Returned p2 ->
    descends mdl k p2 None (announce c log) q nlq logq ->
    descends mdl (S k) p nl log q nlq logq
| descends_lattice (k : nat) (p p1 p2 q : Particle)
    (nl nlq : option (list Z)) (log log2 logq : list Event) (i_cell : Z)
    (c : Cell) :
    binds mdl p nl i_cell c p1 ->
    type_ c = FILL_LATTICE ->
    enter_lattice mdl p1 c (announce c log) = Returned (true, p2, log2) ->
    descends mdl k p2 None log2 q nlq logq ->
    descends mdl (S k) p nl log q nlq logq.

(** *** [find_cell] *)

(** Modelled from the spec: [LocalCoord::reset] is defined outside the
    sources; the spec has the deeper frames "reset (cleared of cell id,
    lattice id, rotation flag)". *)
Definition reset (c : LocalCoord) : LocalCoord :=
  {| cell := C_NONE; universe := universe c; lattice := F90_NONE;
     lattice_x := lattice_x c; lattice_y := lattice_y c;
     lattice_z := lattice_z c; xyz := xyz c; uvw := uvw c;
     rotated := false |}.

(** [c.neighbors_.push_back(v)] on the cell with index [i_cell]. *)
Definition push_neighbor (mdl : Model L Sf) (i_cell v : Z)
    : outcome (Model L Sf) :=
  c ← at_Z (cells mdl) i_cell;
  cells' ← put_Z (cells mdl) i_cell
    {| id_ := id_ c; universe_ := universe_ c; type_ := type_ c;
       fill_ := fill_ c; material_ := material_ c; sqrtkT_ := sqrtkT_ c;
       distribcell_index_ := distribcell_index_ c; offset_ := offset_ c;
       translation_ := translation_ c; rotation_ := rotation_ c;
       simple_ := simple_ c; region_ := region_ c;
       neighbors_ := neighbors_ c ++ [v] |};
  mret {| cells := cells'; universes := universes mdl;
          lattices := lattices mdl; surfaces := surfaces mdl;
          root_universe := root_universe mdl |}.

(** The head of [find_cell]: the root universe is seeded when the deepest
    frame has none, and the frames from [n_coord] on are reset. *)
Definition prepare (mdl : Model L Sf) (p : Particle) : outcome Particle :=
  frame ← at_Z (coord p) (n_coord p - 1);
  p1 ← (if universe frame =? C_NONE
        then p' ← update_coord p 0 (fun f => set_universe f (root_universe mdl));
             mret (set_n_coord p' 1)
        else mret p);
  for_from (Z.to_nat (n_coord p1)) (MAX_COORD - Z.to_nat (n_coord p1))
    (fun i q => update_coord q (Z.of_nat i) reset) p1.

(** [find_cell]: the return value, the particle, the registries (a
    neighbor list may have grown) and the messages after the call. *)
Definition find_cell (fuel : nat) (mdl : Model L Sf) (p : Particle)
    (use_neighbor_lists : bool) (log : list Event)
    : outcome (bool * Particle * Model L Sf * list Event) :=
  p0 ← prepare mdl p;
  if use_neighbor_lists then
    let coord_lvl := n_coord p0 - 1 in
    frame ← at_Z (coord p0) coord_lvl;
    let i_cell := cell frame in
    c ← at_Z (cells mdl) i_cell;
    '(found, p1, log1) ← find_cell_inner fuel mdl p0 (Some (neighbors_ c)) log;
    if found : bool then mret (found, p1, mdl, log1)
    else
      '(found', p2, log2) ← find_cell_inner fuel mdl p1 None log1;
      if found' : bool then
        frame' ← at_Z (coord p2) coord_lvl;
        mdl' ← push_neighbor mdl i_cell (cell frame');
        mret (found', p2, mdl', log2)
      else mret (found', p2, mdl, log2)
  else
    '(found, p1, log1) ← find_cell_inner fuel mdl p0 None log;
    mret (found, p1, mdl, log1).

(** *** [distance_to_boundary] *)

(** The four values the call hands back through its pointer arguments. *)
Record Boundary := {
  dist : float;
  surface_crossed : Z;
  lattice_translation : Indices;
  next_level : Z
}.

(** The variables that live across the iterations of the level loop:
    the outputs, [d_lat] and [level_lat_trans] (declared before the loop
    and assigned only on frames inside a lattice), the particle and the
    messages. *)
Record Levels := {
  out : Boundary;
  d_lat : float;
  level_lat_trans : Indices;
  particle : Particle;
  events : list Event
}.

(** Modelled from the spec: [Particle::mark_as_lost] is defined outside
    the sources; per the spec a per-particle failure "marks the particle
    lost" and hands the message to the messaging collaborator. *)
Definition lose (p : Particle) (msg : Message) (log : list Event)
    : Particle * list Event :=
  (set_alive p false, log ++ [mark_as_lost msg]).

(** The test under which a level's candidate takes the place of the
    distance found on the levels above. *)
Definition replaces (incumbent candidate : float) : bool :=
  PrimFloat.eqb incumbent infinity
  || PrimFloat.leb FP_REL_PRECISION ((incumbent - candidate) / incumbent)%float.

(** The position handed to [Lattice::distance] at level [i]: the
    frame's own for a rectangular lattice, [r_hex] for a hexagonal one. *)
Definition lattice_position (p : Particle) (i : nat) (frame : LocalCoord)
    (t : LatticeType) : outcome Position :=
  match t with
  | rect => mret (xyz frame)
  | hex =>
      above ← at_Z (coord p) (Z.of_nat i - 1);
      mret {| x := x (xyz above); y := y (xyz above); z := z (xyz frame) |}
  end.

(** The lattice part of a level: [d_lat] and [level_lat_trans] are
    assigned only when the frame is inside a lattice. *)
Definition lattice_level (mdl : Model L Sf) (i : nat) (frame : LocalCoord)
    (st : Levels) : outcome Levels :=
  if negb (lattice frame =? F90_NONE) then
    lat ← at_Z (lattices mdl) (lattice frame - 1);
    let i_xyz := (lattice_x frame, lattice_y frame, lattice_z frame) in
    r ← lattice_position (particle st) i frame (lat_type_ lat);
    let lattice_distance := lat_distance lat r (uvw frame) i_xyz in
    let '(p', log') :=
      if PrimFloat.ltb lattice_distance.1 0
      then lose (particle st) (NegativeLatticeDistance (id (particle st)))
             (events st)
      else (particle st, events st) in
    mret {| out := out st; d_lat := lattice_distance.1;
            level_lat_trans := lattice_distance.2;
            particle := p'; events := log' |}
  else mret st.

(** The signed surface handed back when a cell surface wins. *)
Definition crossed (mdl : Model L Sf) (c : Cell) (r : Position)
    (u : Direction) (d_surf : float) (level_surf_cross : Z) : outcome Z :=
  if simple_ c then mret level_surf_cross
  else
    surf ← at_Z (surfaces mdl) (Z.abs level_surf_cross - 1);
    let r_hit := plus r (scale d_surf u) in
    let norm := normal surf r_hit in
    if PrimFloat.ltb 0 (dot u norm) then mret (Z.abs level_surf_cross)
    else mret (- Z.abs level_surf_cross).

Definition set_out (st : Levels) (b : Boundary) : Levels :=
  {| out := b; d_lat := d_lat st; level_lat_trans := level_lat_trans st;
     particle := particle st; events := events st |}.

(** The body of the loop over the coordinate levels, for level [i]. *)
Definition level (mdl : Model L Sf) (i : nat) (st : Levels) : outcome Levels :=
  frame ← at_nat (coord (particle st)) i;
  c ← at_Z (cells mdl) (cell frame);
  let r := xyz frame in
  let u := uvw frame in
  let surface_distance := Cell_distance c r u (surface (particle st)) in
  let d_surf := surface_distance.1 in
  let level_surf_cross := surface_distance.2 in
  st1 ← lattice_level mdl i frame st;
  if PrimFloat.ltb d_surf (d_lat st1) then
    if replaces (dist (out st1)) d_surf then
      sc ← crossed mdl c r u d_surf level_surf_cross;
      mret (set_out st1
              {| dist := d_surf; surface_crossed := sc;
                 lattice_translation := (0, 0, 0);
                 next_level := Z.of_nat i + 1 |})
    else mret st1
  else
    if replaces (dist (out st1)) (d_lat st1) then
      mret (set_out st1
              {| dist := d_lat st1; surface_crossed := F90_NONE;
                 lattice_translation := level_lat_trans st1;
                 next_level := Z.of_nat i + 1 |})
    else mret st1.

(** [distance_to_boundary].  [surface_crossed0] and [next_level0] are
    what the caller's variables hold before the call, and
    [indeterminate] what the uninitialised [level_lat_trans] holds. *)
Definition distance_to_boundary (mdl : Model L Sf) (p : Particle)
    (surface_crossed0 next_level0 : Z) (indeterminate : Indices)
    (log : list Event) : outcome (Boundary * Particle * list Event) :=
  st ← for_loop (Z.to_nat (n_coord p)) (level mdl)
         {| out := {| dist := infinity; surface_crossed := surface_crossed0;
                      lattice_translation := (0, 0, 0);
                      next_level := next_level0 |};
            d_lat := infinity;
            level_lat_trans := indeterminate;
            particle := p;
            events := log |};
  mret (out st, particle st, events st).

End Locator.

End Geometry.

(** * The rest of the material code ([material.cpp]) *)

(** The operations on [double] that [Arith] does not list: [-a], the
    literal [1.0] and [a >= b]. *)
Class ArithExt (R : Type) := {
  opp : R -> R;
  one : R;
  ge : R -> R -> bool
}.

#[export] Instance double_arith_ext : ArithExt float := {
  opp := PrimFloat.opp;
  one := 1%float;
  ge a b := PrimFloat.leb b a
}.

(** What [fatal_error] is called with. *)
Inductive FatalMessage :=
| TableMatchesNoNuclide (table_name : string) (material_id : Z)
| NuclideInSeveralTables (nuclide_name : string) (material_id : Z)
| DuplicateMaterialId (mid : Z)
| OverlappingCells (cell_id other_cell_id universe_id : Z).

(** A step that either goes on or ends the process in [fatal_error]. *)
Inductive checked (A : Type) : Type :=
| Pass (a : A)
| Fatal (msg : FatalMessage).
Arguments Pass {A} a.
Arguments Fatal {A} msg.

Module MaterialApi.

Import Material.

(** The members of [ThermalScattering] ([thermal.h]) that [init_thermal]
    reads. *)
Record ThermalScattering := {
  th_name_ : string;
  th_nuclides_ : list string
}.

(** [contains(v, x)] of [container_util.h] on a vector of strings. *)
Definition contains (v : list string) (x : string) : bool :=
  existsb (String.eqb x) v.

(** The calls [to_hdf5] makes on the interface of [hdf5_interface.h];
    the group "material <id>" is named by the id. *)
Inductive Hdf5Call {R : Type} :=
| create_group (material_id : Z)
| write_attribute_int (name : string) (v : Z)
| write_attribute_double (name : string) (v : R)
| write_dataset_string (name : string) (v : string)
| write_dataset_double (name : string) (v : R)
| write_dataset_strings (name : string) (v : list string)
| write_dataset_doubles (name : string) (v : list R)
| close_group.
Arguments Hdf5Call : clear implicits.

(** The order [std::sort] is called with in [init_thermal]. *)
Definition by_slot {R} (a b : ThermalTable R) : Prop :=
  index_nuclide a <= index_nuclide b.

#[export] Instance by_slot_dec {R} (a b : ThermalTable R) :
  Decision (by_slot a b) := Z_le_dec (index_nuclide a) (index_nuclide b).

(** The comparison handed to [std::sort]:
    [a.index_nuclide < b.index_nuclide]. *)
Definition before_slot {R} (a b : ThermalTable R) : Prop :=
  index_nuclide a < index_nuclide b.

Section Engine.

Context {R : Type} `{Arith R} `{ArithExt R}.

Variable run_CE : bool.
Variable photon_transport : bool.
Variable electron_treatment_is_TTB : bool.
Variable MASS_NEUTRON : R.
Variable N_AVOGADRO : R.
Variable MACROSCOPIC_AWR : R.
Variable codes : ErrorCodes.
Variable OPENMC_E_UNASSIGNED : Z.

(** [data::nuclides_MG] (name and [awr] of each entry) and
    [data::thermal_scatt]. *)
Variable nuclides_MG : list (Nuclide R).
Variable thermal_scatt : list ThermalScattering.

(** [Material::init_bremsstrahlung]: it writes the sub-object [ttb_]
    only, which the embedded record leaves out. *)
Variable init_bremsstrahlung : Material R -> Material R.

(** [openmc_load_nuclide]. *)
Variable openmc_load_nuclide : string -> Data R -> Z * Data R.

(** *** Field updates *)

Definition set_thermal_tables_ (m : Material R) (v : list (ThermalTable R))
    : Material R :=
  {| id_ := id_ m; name_ := name_ m; nuclide_ := nuclide_ m;
     element_ := element_ m; atom_density_ := atom_density_ m;
     density_ := density_ m; density_gpcc_ := density_gpcc_ m;
     volume_ := volume_ m; fissionable_ := fissionable_ m;
     depletable_ := depletable_ m; p0_ := p0_ m;
     mat_nuclide_index_ := mat_nuclide_index_ m;
     thermal_tables_ := v; temperature_ := temperature_ m |}.

Definition set_fissionable_ (m : Material R) (b : bool) : Material R :=
  {| id_ := id_ m; name_ := name_ m; nuclide_ := nuclide_ m;
     element_ := element_ m; atom_density_ := atom_density_ m;
     density_ := density_ m; density_gpcc_ := density_gpcc_ m;
     volume_ := volume_ m; fissionable_ := b;
     depletable_ := depletable_ m; p0_ := p0_ m;
     mat_nuclide_index_ := mat_nuclide_index_ m;
     thermal_tables_ := thermal_tables_ m; temperature_ := temperature_ m |}.

Definition set_volume_ (m : Material R) (v : R) : Material R :=
  {| id_ := id_ m; name_ := name_ m; nuclide_ := nuclide_ m;
     element_ := element_ m; atom_density_ := atom_density_ m;
     density_ := density_ m; density_gpcc_ := density_gpcc_ m;
     volume_ := v; fissionable_ := fissionable_ m;
     depletable_ := depletable_ m; p0_ := p0_ m;
     mat_nuclide_index_ := mat_nuclide_index_ m;
     thermal_tables_ := thermal_tables_ m; temperature_ := temperature_ m |}.

(** *** [Material::init_thermal] *)

(** The body of the inner loop for local nuclide [j]: the table is
    recorded for the nuclide when it accepts the nuclide's name. *)
Definition match_nuclide (d : Data R) (m : Material R)
    (table : ThermalTable R) (j : nat) (st : list (ThermalTable R) * bool)
    : outcome (list (ThermalTable R) * bool) :=
  i_nuc ← at_nat (nuclide_ m) j;
  n ← at_Z (nuclides d) i_nuc;
  th ← at_Z thermal_scatt (index_table table);
  if contains (th_nuclides_ th) (nuc_name_ n)
  then mret (st.1 ++ [{| index_table := index_table table;
                         index_nuclide := Z.of_nat j;
                         fraction := fraction table |}], true)
  else mret st.

(** The loop over [thermal_tables_]: [tables] collects the assignments. *)
Fixpoint assign_tables (d : Data R) (m : Material R)
    (todo tables : list (ThermalTable R))
    : outcome (checked (list (ThermalTable R))) :=
  match todo with
  | [] => mret (Pass tables)
  | table :: rest =>
      st ← for_loop (length (nuclide_ m)) (match_nuclide d m table)
             (tables, false);
      if st.2 : bool then assign_tables d m rest st.1
      else
        th ← at_Z thermal_scatt (index_table table);
        mret (Fatal (TableMatchesNoNuclide (th_name_ th) (id_ m)))
  end.

(** The double loop that looks for a nuclide in two tables: the slot of
    the first entry, in order, that a later entry repeats. *)
Fixpoint repeated_slot (tables : list (ThermalTable R)) : option Z :=
  match tables with
  | [] => None
  | t :: rest =>
      if existsb (fun t' => index_nuclide t =? index_nuclide t') rest
      then Some (index_nuclide t)
      else repeated_slot rest
  end.

(** [Material::init_thermal].  [std::sort] is [merge_sort]: when the call
    is reached no two entries have the same slot, so every sorting
    algorithm gives the same vector. *)
Definition init_thermal (d : Data R) (m : Material R)
    : outcome (checked (Material R)) :=
  assigned ← assign_tables d m (thermal_tables_ m) [];
  match assigned with
  | Fatal msg => mret (Fatal msg)
  | Pass tables =>
      match repeated_slot tables with
      | Some slot =>
          index ← at_Z (nuclide_ m) slot;
          n ← at_Z (nuclides d) index;
          mret (Fatal (NuclideInSeveralTables (nuc_name_ n) (id_ m)))
      | None =>
          mret (Pass (set_thermal_tables_ m (merge_sort by_slot tables)))
      end
  end.

(** *** [Material::normalize_density] *)

(** [awr] of a nuclide: from [data::nuclides] in continuous-energy mode,
    from [data::nuclides_MG] otherwise. *)
Definition awr_of (d : Data R) (i_nuc : Z) : outcome R :=
  n ← at_Z (if run_CE then nuclides d else nuclides_MG) i_nuc;
  mret (awr_ n).

(** The first loop: weight percents are divided by [awr]. *)
Definition to_atom_percent (d : Data R) (nuc : list Z)
    (percent_in_atom : bool) (i : nat) (ad : list R) : outcome (list R) :=
  i_nuc ← at_nat nuc i;
  awr ← awr_of d i_nuc;
  if percent_in_atom then mret ad
  else a ← at_nat ad i; mret (<[i := (opp a / awr)%ar]> ad).

(** The loop that sums [x * awr]. *)
Definition weight_term (d : Data R) (nuc : list Z) (ad : list R) (i : nat)
    (acc : R) : outcome R :=
  i_nuc ← at_nat nuc i;
  awr ← awr_of d i_nuc;
  a ← at_nat ad i;
  mret (acc + a * awr)%ar.

(** The last loop: [awr] is 1.0 outside continuous-energy mode. *)
Definition gpcc_term_normalize (d : Data R) (nuc : list Z) (ad : list R)
    (i : nat) (acc : R) : outcome R :=
  i_nuc ← at_nat nuc i;
  awr ← (if run_CE then n ← at_Z (nuclides d) i_nuc; mret (awr_ n)
         else mret one);
  a ← at_nat ad i;
  mret (acc + a * awr * MASS_NEUTRON / N_AVOGADRO)%ar.

Definition normalize_density (d : Data R) (m : Material R)
    : outcome (Material R) :=
  a0 ← at_nat (atom_density_ m) 0;
  let percent_in_atom := (a0 > zero)%ar in
  let density_in_atom := (density_ m > zero)%ar in
  ad1 ← for_loop (length (nuclide_ m))
          (to_atom_percent d (nuclide_ m) percent_in_atom) (atom_density_ m);
  let ad2 := xdiv ad1 (xsum ad1) in
  density ← (if density_in_atom then mret (density_ m)
             else
               sum_percent ← for_loop (length (nuclide_ m))
                                (weight_term d (nuclide_ m) ad2) zero;
               let sum_percent' := (one / sum_percent)%ar in
               mret (opp (density_ m) * N_AVOGADRO / MASS_NEUTRON
                     * sum_percent')%ar);
  let ad3 := xmul ad2 density in
  gpcc ← for_loop (length (nuclide_ m))
           (gpcc_term_normalize d (nuclide_ m) ad3) zero;
  mret (set_density_gpcc_ (set_atom_density_ (set_density_ m density) ad3)
          gpcc).

(** *** [Material::finalize] *)

(** The loop that looks for a fissionable nuclide; it stops at the
    first one. *)
Fixpoint any_fissionable (d : Data R) (nuc : list Z) : outcome bool :=
  match nuc with
  | [] => mret false
  | i_nuc :: rest =>
      n ← at_Z (nuclides d) i_nuc;
      if nuc_fissionable_ n then mret true else any_fissionable d rest
  end.

Definition finalize (d : Data R) (m : Material R)
    : outcome (checked (Material R)) :=
  fis ← any_fissionable d (nuclide_ m);
  let m1 := if fis : bool then set_fissionable_ m true else m in
  let m2 := if photon_transport && electron_treatment_is_TTB
            then init_bremsstrahlung m1 else m1 in
  r ← init_thermal d m2;
  match r with
  | Fatal msg => mret (Fatal msg)
  | Pass m3 => m4 ← normalize_density d m3; mret (Pass m4)
  end.

(** *** [read_materials] *)

(** One pass of the loop that populates [model::material_map]. *)
Definition register_material (mats : list (Material R)) (i : nat)
    (st : checked (gmap Z Z)) : outcome (checked (gmap Z Z)) :=
  match st with
  | Fatal msg => mret (Fatal msg)
  | Pass map =>
      m ← at_nat mats i;
      match map !! id_ m with
      | None => mret (Pass (<[id_ m := Z.of_nat i]> map))
      | Some _ => mret (Fatal (DuplicateMaterialId (id_ m)))
      end
  end.

(** [read_materials], from the materials the constructor built out of
    the XML nodes (the constructor itself is outside the embedding): they
    are appended and every material of the vector is registered. *)
Definition read_materials (parsed : list (Material R)) (mdl : Model R)
    : outcome (checked (Model R)) :=
  let mats := materials mdl ++ parsed in
  r ← for_loop (length mats) (register_material mats)
        (Pass (material_map mdl));
  match r with
  | Fatal msg => mret (Fatal msg)
  | Pass map => mret (Pass {| materials := mats; material_map := map |})
  end.

(** *** The rest of the C API *)

(** [openmc_material_get_densities]: the return value and, on success,
    the nuclides, the densities and their number. *)
Definition openmc_material_get_densities (mdl : Model R) (index : Z)
    : Z * option (list Z * list R * Z) :=
  if index_in_bounds mdl index then
    match materials mdl !! Z.to_nat (index - 1) with
    | Some mat =>
        match nuclide_ mat with
        | [] => (OPENMC_E_ALLOCATE codes, None)
        | _ => (0, Some (nuclide_ mat, atom_density_ mat,
                         Z.of_nat (length (nuclide_ mat))))
        end
    | None => (OPENMC_E_OUT_OF_BOUNDS codes, None)
    end
  else (OPENMC_E_OUT_OF_BOUNDS codes, None).

Definition openmc_material_get_fissionable (mdl : Model R) (index : Z)
    : Z * option bool :=
  if index_in_bounds mdl index then
    match materials mdl !! Z.to_nat (index - 1) with
    | Some mat => (0, Some (fissionable_ mat))
    | None => (OPENMC_E_OUT_OF_BOUNDS codes, None)
    end
  else (OPENMC_E_OUT_OF_BOUNDS codes, None).

Definition openmc_material_get_id (mdl : Model R) (index : Z)
    : Z * option Z :=
  if index_in_bounds mdl index then
    match materials mdl !! Z.to_nat (index - 1) with
    | Some mat => (0, Some (id_ mat))
    | None => (OPENMC_E_OUT_OF_BOUNDS codes, None)
    end
  else (OPENMC_E_OUT_OF_BOUNDS codes, None).

Definition openmc_material_get_volume (mdl : Model R) (index : Z)
    : Z * option R :=
  if index_in_bounds mdl index then
    match materials mdl !! Z.to_nat (index - 1) with
    | Some m =>
        if ge (volume_ m) zero then (0, Some (volume_ m))
        else (OPENMC_E_UNASSIGNED, None)
    | None => (OPENMC_E_OUT_OF_BOUNDS codes, None)
    end
  else (OPENMC_E_OUT_OF_BOUNDS codes, None).

Definition openmc_material_set_volume (mdl : Model R) (index : Z) (volume : R)
    : Z * Model R :=
  if index_in_bounds mdl index then
    match materials mdl !! Z.to_nat (index - 1) with
    | Some m =>
        if ge volume zero then
          (0, {| materials :=
                   <[Z.to_nat (index - 1) := set_volume_ m volume]>
                     (materials mdl);
                 material_map := material_map mdl |})
        else (OPENMC_E_INVALID_ARGUMENT codes, mdl)
    | None => (OPENMC_E_OUT_OF_BOUNDS codes, mdl)
    end
  else (OPENMC_E_OUT_OF_BOUNDS codes, mdl).

Definition openmc_material_set_density (mdl : Model R) (d : Data R)
    (index : Z) (density : R) (units : string) : outcome (Z * Model R) :=
  if index_in_bounds mdl index then
    m ← at_nat (materials mdl) (Z.to_nat (index - 1));
    r ← set_density MASS_NEUTRON N_AVOGADRO codes d m density units;
    mret (r.1, {| materials := <[Z.to_nat (index - 1) := r.2]> (materials mdl);
                  material_map := material_map mdl |})
  else mret (OPENMC_E_OUT_OF_BOUNDS codes, mdl).

(** What [new Material()] holds: the members with a default initialiser,
    empty vectors, and whatever the storage held in [id_], [density_] and
    [density_gpcc_], which the default constructor does not write. *)
Definition new_Material (indeterminate : Z * R * R) : Material R :=
  {| id_ := indeterminate.1.1; name_ := ""; nuclide_ := []; element_ := [];
     atom_density_ := []; density_ := indeterminate.1.2;
     density_gpcc_ := indeterminate.2; volume_ := opp one;
     fissionable_ := false; depletable_ := false; p0_ := [];
     mat_nuclide_index_ := []; thermal_tables_ := [];
     temperature_ := opp one |}.

(** [openmc_extend_materials]: the return value, [*index_start],
    [*index_end] and the registries after the call; [storage k] is what
    the uninitialised members of the [k]-th new material hold. *)
Definition openmc_extend_materials (storage : nat -> Z * R * R)
    (mdl : Model R) (n : Z) : Z * Z * Z * Model R :=
  (0,
   wrap32 (Z.of_nat (length (materials mdl)) + 1),
   wrap32 (Z.of_nat (length (materials mdl)) + n),
   {| materials :=
        materials mdl ++ map (fun k => new_Material (storage k))
                           (seq 0 (Z.to_nat n));
      material_map := material_map mdl |}).

(** [free_memory_material]. *)
Definition free_memory_material (mdl : Model R) : Model R :=
  {| materials := []; material_map := ∅ |}.

(** *** [openmc_material_set_densities] *)

Definition set_nuclide_ (m : Material R) (v : list Z) : Material R :=
  {| id_ := id_ m; name_ := name_ m; nuclide_ := v;
     element_ := element_ m; atom_density_ := atom_density_ m;
     density_ := density_ m; density_gpcc_ := density_gpcc_ m;
     volume_ := volume_ m; fissionable_ := fissionable_ m;
     depletable_ := depletable_ m; p0_ := p0_ m;
     mat_nuclide_index_ := mat_nuclide_index_ m;
     thermal_tables_ := thermal_tables_ m; temperature_ := temperature_ m |}.

(** [nuclide_.resize(n)]: the first [n] entries, filled up with 0. *)
Definition resize (nuc : list Z) (n : nat) : list Z :=
  take n nuc ++ replicate (n - length nuc) 0.

(** [data::nuclide_map[nuc]]: [operator[]] of [std::unordered_map] adds
    the key, with the value 0, when it is missing. *)
Definition nuclide_map_at (d : Data R) (nuc : string) : Z * Data R :=
  match nuclide_map d !! nuc with
  | Some v => (v, d)
  | None => (0, {| nuclides := nuclides d;
                   nuclide_map := <[nuc := 0]> (nuclide_map d) |})
  end.

(** The body of the loop over the [n] names for entry [i].  The state is
    [inl] once the function has returned from inside the loop (with the
    error code of [openmc_load_nuclide]), and otherwise the data library,
    the material and [sum_density]. *)
Definition set_densities_entry (name : list string) (density : list R)
    (i : nat) (st : Z * Data R * Material R + Data R * Material R * R)
    : outcome (Z * Data R * Material R + Data R * Material R * R) :=
  match st with
  | inl r => mret (inl r)
  | inr (d, mat, sum_density) =>
      nuc ← at_nat name i;
      let '(err, d1) :=
        match nuclide_map d !! nuc with
        | None => openmc_load_nuclide nuc d
        | Some _ => (0, d)
        end in
      if err <? 0 then mret (inl (err, d1, mat))
      else
        let '(i_nuc, d2) := nuclide_map_at d1 nuc in
        nuclide' ← put_Z (nuclide_ mat) (Z.of_nat i) i_nuc;
        x ← at_nat density i;
        atom_density' ← put_Z (atom_density_ mat) (Z.of_nat i) x;
        mret (inr (d2, set_atom_density_ (set_nuclide_ mat nuclide')
                         atom_density',
                   (sum_density + x)%ar))
  end.

(** [openmc_material_set_densities]: the return value, the materials and
    the data library after the call, or the fatal error of
    [init_thermal].  [name] and [density] are the arrays behind the two
    pointers.  A negative [n] differs from every size, and [resize] then
    throws: the embedding has no value for that call. *)
Definition openmc_material_set_densities (mdl : Model R) (d : Data R)
    (index n : Z) (name : list string) (density : list R)
    : outcome (checked (Z * Model R * Data R)) :=
  if index_in_bounds mdl index then
    let k := Z.to_nat (index - 1) in
    mat ← at_nat (materials mdl) k;
    if n <? 0 then Undefined
    else
      let mat1 :=
        if negb (n =? Z.of_nat (length (nuclide_ mat)))
        then set_atom_density_
               (set_nuclide_ mat (resize (nuclide_ mat) (Z.to_nat n)))
               (replicate (Z.to_nat n) zero)
        else mat in
      st ← for_loop (Z.to_nat n) (set_densities_entry name density)
             (inr (d, mat1, zero));
      match st with
      | inl (err, d', mat') =>
          mret (Pass (err, {| materials := <[k := mat']> (materials mdl);
                              material_map := material_map mdl |}, d'))
      | inr (d', mat2, sum_density) =>
          r ← set_density MASS_NEUTRON N_AVOGADRO codes d' mat2 sum_density
                "atom/b-cm";
          t ← init_thermal d' r.2;
          match t with
          | Fatal msg => mret (Fatal msg)
          | Pass mat3 =>
              mret (Pass (0, {| materials := <[k := mat3]> (materials mdl);
                                material_map := material_map mdl |}, d'))
          end
      end
  else mret (Pass (OPENMC_E_OUT_OF_BOUNDS codes, mdl, d)).

(** *** [Material::to_hdf5] *)

(** One pass of the loop that collects the names and the densities:
    [nuc_names], [macro_names] and [nuc_densities]. *)
Definition hdf5_entry (d : Data R) (m : Material R) (i : nat)
    (st : list string * list string * list R)
    : outcome (list string * list string * list R) :=
  i_nuc ← at_nat (nuclide_ m) i;
  if run_CE then
    n ← at_Z (nuclides d) i_nuc;
    a ← at_nat (atom_density_ m) i;
    mret (st.1.1 ++ [nuc_name_ n], st.1.2, st.2 ++ [a])
  else
    n ← at_Z nuclides_MG i_nuc;
    if (awr_ n != MACROSCOPIC_AWR)%ar then
      a ← at_nat (atom_density_ m) i;
      mret (st.1.1 ++ [nuc_name_ n], st.1.2, st.2 ++ [a])
    else mret (st.1.1, st.1.2 ++ [nuc_name_ n], st.2).

(** The loop that collects the names of the thermal tables. *)
Fixpoint sab_names (tables : list (ThermalTable R)) : outcome (list string) :=
  match tables with
  | [] => mret []
  | table :: rest =>
      th ← at_Z thermal_scatt (index_table table);
      names ← sab_names rest;
      mret (th_name_ th :: names)
  end.

(** [Material::to_hdf5]: the calls made on the HDF5 interface, in
    order. *)
Definition to_hdf5 (d : Data R) (m : Material R)
    : outcome (list (Hdf5Call R)) :=
  let w0 := [create_group (id_ m);
             write_attribute_int "depletable"
               (if depletable_ m then 1 else 0)] in
  let w1 := if (volume_ m > zero)%ar
            then w0 ++ [write_attribute_double "volume" (volume_ m)]
            else w0 in
  let w2 := w1 ++ [write_dataset_string "name" (name_ m);
                   write_dataset_double "atom_density" (density_ m)] in
  st ← for_loop (length (nuclide_ m)) (hdf5_entry d m) ([], [], []);
  let w3 := match st.1.1 with
            | [] => w2
            | _ => w2 ++ [write_dataset_strings "nuclides" st.1.1;
                          write_dataset_doubles "nuclide_densities" st.2]
            end in
  let w4 := match st.1.2 with
            | [] => w3
            | _ => w3 ++ [write_dataset_strings "macroscopics" st.1.2]
            end in
  w5 ← match thermal_tables_ m with
        | [] => mret w4
        | _ => names ← sab_names (thermal_tables_ m);
               mret (w4 ++ [write_dataset_strings "sab_names" names])
        end;
  mret (w5 ++ [close_group]).

End Engine.

End MaterialApi.

(** * The rest of the locator ([geometry.cpp]) *)

(** Two's-complement value of an integer stored in an [int64_t]. *)
Definition wrap64 (z : Z) : Z := (z + 2^63) mod 2^64 - 2^63.

Module Overlap.

Import Geometry.

Section Check.

Context {L Sf : Type}.

Variable Cell_contains : Cell -> Position -> Direction -> Z -> bool.

(** The body of the inner loop of [check_cell_overlap] for the cell
    [index_cell] of the universe of frame [frame]; [counts] is
    [model::overlap_check_count]. *)
Definition check_cell (mdl : Model L Sf) (p : Particle) (frame : LocalCoord)
    (univ : Universe) (index_cell : Z) (counts : list Z)
    : outcome (checked (list Z)) :=
  c ← at_Z (cells mdl) index_cell;
  if Cell_contains c (xyz frame) (uvw frame) (surface p) then
    if negb (index_cell =? cell frame) then
      own ← at_Z (cells mdl) (cell frame);
      mret (Fatal (OverlappingCells (id_ c) (id_ own) (univ_id_ univ)))
    else
      n ← at_Z counts index_cell;
      counts' ← put_Z counts index_cell (wrap64 (n + 1));
      mret (Pass counts')
  else mret (Pass counts).

(** The inner loop, over the cells of the universe. *)
Fixpoint check_cells (mdl : Model L Sf) (p : Particle) (frame : LocalCoord)
    (univ : Universe) (todo : list Z) (counts : list Z)
    : outcome (checked (list Z)) :=
  match todo with
  | [] => mret (Pass counts)
  | index_cell :: rest =>
      r ← check_cell mdl p frame univ index_cell counts;
      match r with
      | Fatal msg => mret (Fatal msg)
      | Pass counts' => check_cells mdl p frame univ rest counts'
      end
  end.

(** The body of the outer loop, for coordinate level [j]. *)
Definition check_level (mdl : Model L Sf) (p : Particle) (j : nat)
    (st : checked (list Z)) : outcome (checked (list Z)) :=
  match st with
  | Fatal msg => mret (Fatal msg)
  | Pass counts =>
      frame ← at_nat (coord p) j;
      univ ← at_Z (universes mdl) (universe frame);
      check_cells mdl p frame univ (cells_ univ) counts
  end.

(** [check_cell_overlap]: the return value and the counters after the
    call, or the fatal error. *)
Definition check_cell_overlap (mdl : Model L Sf) (p : Particle)
    (counts : list Z) : outcome (checked (bool * list Z)) :=
  r ← for_loop (Z.to_nat (n_coord p)) (check_level mdl p) (Pass counts);
  match r with
  | Fatal msg => mret (Fatal msg)
  | Pass counts' => mret (Pass (false, counts'))
  end.

End Check.

End Overlap.

Module Crossing.

Import Geometry.

(** What [cross_lattice] hands to the messaging collaborators, beside
    the events of the searches it starts. *)
Inductive CrossEvent :=
| from_search (e : Event)
| crossing_lattice (lattice_id ix iy iz : Z)
| lost_after_crossing (particle_id : Z).

Section Cross.

Context {L Sf : Type} `{LatticeClass L} `{SurfaceClass Sf}.

Variable Cell_contains : Cell -> Position -> Direction -> Z -> bool.
Variable MATERIAL_VOID : Z.
Variable F90_NONE : Z.
Variable NO_OUTER_UNIVERSE : Z.
Variable MAX_COORD : nat.
Variable TINY_BIT : float.
Variable verbosity : Z.
Variable trace : bool.

(** [p->coord[..].lattice_x += lattice_translation[0]] and the two other
    axes, on [int]s. *)
Definition translate (f : LocalCoord) (t : Indices) : LocalCoord :=
  set_lattice f (lattice f)
    (wrap32 (lattice_x f + t.1.1), wrap32 (lattice_y f + t.1.2),
     wrap32 (lattice_z f + t.2)).

Definition set_xyz (f : LocalCoord) (r : Position) : LocalCoord :=
  set_xyz_uvw f r (uvw f).

(** [find_cell(p, 0)] as [cross_lattice] calls it. *)
Definition search (fuel : nat) (mdl : Model L Sf) (p : Particle)
    (log : list CrossEvent)
    : outcome (bool * Particle * Model L Sf * list CrossEvent) :=
  '(found, p', mdl', ev) ←
    find_cell Cell_contains MATERIAL_VOID F90_NONE NO_OUTER_UNIVERSE
      MAX_COORD TINY_BIT verbosity trace fuel mdl p false [];
  mret (found, p', mdl', log ++ (from_search <$> ev)).

(** Modelled from the spec: [Particle::mark_as_lost] is defined outside
    the sources; as in [lose], the particle is marked lost and the
    message is handed to the messaging collaborator. *)
Definition lose_after_crossing (p : Particle) (log : list CrossEvent)
    : Particle * list CrossEvent :=
  (set_alive p false, log ++ [lost_after_crossing (id p)]).

(** The search from the base coordinates, and the loss of a particle
    that is still alive and was not found. *)
Definition search_from_base (fuel : nat) (mdl : Model L Sf) (p : Particle)
    (log : list CrossEvent)
    : outcome (Particle * Model L Sf * list CrossEvent) :=
  '(found, p', mdl', log') ← search fuel mdl (set_n_coord p 1) log;
  if negb found && alive p'
  then let lost := lose_after_crossing p' log' in mret (lost.1, mdl', lost.2)
  else mret (p', mdl', log').

(** [cross_lattice]: the particle, the registries and the messages after
    the call. *)
Definition cross_lattice (fuel : nat) (mdl : Model L Sf) (p : Particle)
    (lattice_translation : Indices) (log : list CrossEvent)
    : outcome (Particle * Model L Sf * list CrossEvent) :=
  frame ← at_Z (coord p) (n_coord p - 1);
  lat ← at_Z (lattices mdl) (lattice frame - 1);
  let log1 :=
    if (10 <=? verbosity) || trace
    then log ++ [crossing_lattice (lat_id_ lat) (lattice_x frame)
                   (lattice_y frame) (lattice_z frame)]
    else log in
  p1 ← update_coord p (n_coord p - 1)
         (fun f => translate f lattice_translation);
  frame1 ← at_Z (coord p1) (n_coord p - 1);
  let i_xyz := (lattice_x frame1, lattice_y frame1, lattice_z frame1) in
  above ← at_Z (coord p1) (n_coord p - 2);
  let r := get_local_position lat (xyz above) i_xyz in
  p2 ← update_coord p1 (n_coord p - 1) (fun f => set_xyz f r);
  if negb (are_valid_indices lat i_xyz) then
    search_from_base fuel mdl p2 log1
  else
    p3 ← update_coord p2 (n_coord p - 1)
           (fun f => set_universe f (lat_at lat i_xyz));
    '(found, p4, mdl', log2) ← search fuel mdl p3 log1;
    if found : bool then mret (p4, mdl', log2)
    else search_from_base fuel mdl' p4 log2.

End Cross.

End Crossing.

(** * Concrete data used to evaluate the embedding *)

Module Examples.

Import Material.

Definition codes : ErrorCodes :=
  {| OPENMC_E_ALLOCATE := -3; OPENMC_E_INVALID_ARGUMENT := -4;
     OPENMC_E_INVALID_ID := -7; OPENMC_E_OUT_OF_BOUNDS := -5 |}.

(** A two-nuclide library. *)
Definition library {R} (awr_H awr_O : R) : Data R :=
  {| nuclides :=
       [ {| nuc_name_ := "H1"; awr_ := awr_H; nuc_fissionable_ := false |};
         {| nuc_name_ := "O16"; awr_ := awr_O; nuc_fissionable_ := false |} ];
     nuclide_map := {[ "H1"%string := 0; "O16"%string := 1 ]} |}.

(** A material with the given nuclides and densities. *)
Definition mixture {R} `{Arith R} (id : Z) (nuc : list Z) (ad : list R)
    (total : R) : Material.Material R :=
  {| id_ := id; name_ := "mix"; nuclide_ := nuc; element_ := nuc;
     atom_density_ := ad; density_ := total; density_gpcc_ := zero;
     volume_ := zero; fissionable_ := false; depletable_ := false;
     p0_ := []; mat_nuclide_index_ := []; thermal_tables_ := [];
     temperature_ := zero |}.

(** The water of the first end-to-end scenario of the specification:
    nuclides [H1, H1, O16]. *)
Definition water : Material.Material float :=
  mixture 1 [0; 0; 1] [2; 2; 1]%float 5%float.

(** [set_density(x, "atom/b-cm")] and then
    [set_density(old, "atom/b-cm")]: the per-nuclide densities after the
    two calls. *)
Definition set_and_restore {R} `{Arith R} (MASS_NEUTRON N_AVOGADRO : R)
    (d : Data R) (m : Material.Material R) (x old : R) : outcome (list R) :=
  r1 ← set_density MASS_NEUTRON N_AVOGADRO codes d m x "atom/b-cm";
  r2 ← set_density MASS_NEUTRON N_AVOGADRO codes d r1.2 old "atom/b-cm";
  mret (atom_density_ r2.2).

(** A material without nuclides. *)
Definition nothing : Material.Material float := mixture 3 [] [] 0%float.

(** A cache entry computed at energy [E] and temperature [T], without
    S(a,b) table. *)
Definition micro (E T : float) : NuclideMicroXS float :=
  {| total := 4; absorption := 1; fission := 0; nu_fission := 0;
     elastic := 3; thermal := 0; thermal_elastic := 0; photon_prod := 0;
     reaction := []; index_grid := 0; index_temp := 0; interp_factor := 0;
     index_sab := C_NONE; index_temp_sab := 0; sab_frac := 0;
     use_ptable := false; last_E := E; last_sqrtkT := T |}%float.

Definition element_micro (E : float) : ElementMicroXS float :=
  {| e_total := 4; e_coherent := 1; e_incoherent := 1; e_photoelectric := 1;
     e_pair_production := 1; e_last_E := E |}%float.

(** An accumulator with [v] in every field. *)
Definition macro (v : float) : MaterialMacroXS float :=
  {| m_total := v; m_absorption := v; m_fission := v; m_nu_fission := v;
     m_photon_prod := v; m_coherent := v; m_incoherent := v;
     m_photoelectric := v; m_pair_production := v |}.

(** Caches computed at energy [E] and temperature [T], and an accumulator
    holding [v]. *)
Definition caches (E T v : float) : XsState float :=
  {| micro_xs := fun _ => micro E T;
     micro_photon_xs := fun _ => element_micro E;
     material_xs := macro v;
     calls := [] |}.

(** A nuclide collaborator that stores the energy and the temperature it
    is called with in the entry of its nuclide. *)
Definition store_nuclide (i_nuclide i_sab : Z) (E : float) (i_grid : Z)
    (T frac : float) (cache : Z -> NuclideMicroXS float) (k : Z)
    : NuclideMicroXS float :=
  if k =? i_nuclide then micro E T else cache k.

Definition store_element (i_element : Z) (E : float)
    (cache : Z -> ElementMicroXS float) (k : Z) : ElementMicroXS float :=
  if k =? i_element then element_micro E else cache k.

(** [calculate_xs] with these collaborators, the two-nuclide library,
    two elements and no thermal scattering table. *)
Definition evaluate (m : Material.Material float) (p : Particle float)
    (xs : XsState float) : outcome (XsState float) :=
  calculate_xs (fun e => e) (fun _ => 0) 1%float (fun _ => 1%float)
    (@nil unit) [tt; tt] store_nuclide store_element (fun _ => 0%float)
    (library 1 16)%float m p xs.

Definition a_neutron (E T : float) : Particle float :=
  {| type := neutron; E := E; sqrtkT := T |}.

Definition a_photon (E : float) : Particle float :=
  {| type := photon; E := E; sqrtkT := 0%float |}.

(** Two registered materials, with ids 1 and 2. *)
Definition two_materials : Model float :=
  {| materials := [water; mixture 2 [1] [1]%float 1%float];
     material_map := {[ 1 := 0; 2 := 1 ]} |}.

(** The collaborator that loads no nuclide. *)
Definition no_load {R} (name : string) (d : Data R) : Z * Data R := (-1, d).

End Examples.

Module Scene.

Import Geometry.

(** A lattice that answers from a table: indices are valid inside
    [0 .. shape-1] on each axis, [get_indices] answers [canned_at], every
    tile holds [canned_universe] and the crossing is [canned_distance]. *)
Record Canned := {
  canned_id : Z;
  canned_type : LatticeType;
  canned_outer : Z;
  canned_shape : Z;
  canned_at : Indices;
  canned_universe : Z;
  canned_offset : Z;
  canned_distance : float * Indices
}.

Definition inside (shape i : Z) : bool := (0 <=? i) && (i <? shape).

#[global] Instance canned_lattice : LatticeClass Canned := {
  lat_id_ := canned_id;
  lat_type_ := canned_type;
  outer_ := canned_outer;
  are_valid_indices l i :=
    inside (canned_shape l) i.1.1 && inside (canned_shape l) i.1.2
    && inside (canned_shape l) i.2;
  get_indices l r := canned_at l;
  get_local_position l r i := r;
  lat_at l i := canned_universe l;
  lat_offset l map i := canned_offset l;
  lat_distance l r u i := canned_distance l
}.

#[global] Instance flat_surface : SurfaceClass unit := {
  normal _ _ := {| x := 1; y := 0; z := 0 |}
}.

Definition MATERIAL_VOID : Z := -1.
Definition F90_NONE : Z := 0.
Definition NO_OUTER_UNIVERSE : Z := -1.
Definition MAX_COORD : nat := 4.
Definition TINY_BIT : float := 1e-8.
Definition FP_REL_PRECISION : float := 1e-14.

Definition origin : Position := {| x := 0; y := 0; z := 0 |}.
Definition along_x : Direction := {| x := 1; y := 0; z := 0 |}.

Definition a_cell (id univ : Z) (type : FillType) (fill : Z)
    (mats : list Z) (temps : list float) (offsets : list Z) : Cell :=
  {| id_ := id; universe_ := univ; type_ := type; fill_ := fill;
     material_ := mats; sqrtkT_ := temps; distribcell_index_ := 0;
     offset_ := offsets; translation_ := origin; rotation_ := [];
     simple_ := true; region_ := []; neighbors_ := [] |}.

(** A 2x2x2 lattice of universe 1 without outer universe; [at_] is what
    [get_indices] answers and [d] the distance to the next tile face. *)
Definition tiles (at_ : Indices) (d : float) : Canned :=
  {| canned_id := 20; canned_type := rect;
     canned_outer := NO_OUTER_UNIVERSE; canned_shape := 2;
     canned_at := at_; canned_universe := 1; canned_offset := 2;
     canned_distance := (d, (1, 0, 0)) |}.

(** The cell of the root universe, filled with lattice 0; the cell of
    a tile, filled with universe 2; the pin, with one material and one
    temperature per instance. *)
Definition lattice_cell : Cell := a_cell 10 0 FILL_LATTICE 0 [] [] [].
Definition tile_cell : Cell := a_cell 11 1 FILL_UNIVERSE 2 [] [] [1].
Definition pin : Cell :=
  a_cell 12 2 FILL_MATERIAL C_NONE [7] [1; 2; 3; 4]%float [].

(** Root universe 0 holds cell 0; each tile of the lattice is universe 1,
    which holds cell 1; universe 2 holds the pin, cell 2. *)
Definition scene (lat : Canned) : Model Canned unit :=
  {| cells := [lattice_cell; tile_cell; pin];
     universes := [ {| univ_id_ := 0; cells_ := [0] |};
                    {| univ_id_ := 1; cells_ := [1] |};
                    {| univ_id_ := 2; cells_ := [2] |} ];
     lattices := [lat];
     surfaces := [tt];
     root_universe := 0 |}.

(** A second geometry: the hall, cell 0 of the root universe, is filled
    with universe 1, whose one cell, the room, is filled with lattice 0. *)
Definition hall : Cell := a_cell 13 0 FILL_UNIVERSE 1 [] [] [0].
Definition room : Cell := a_cell 14 1 FILL_LATTICE 0 [] [] [].

Definition nested (lat : Canned) : Model Canned unit :=
  {| cells := [hall; room];
     universes := [ {| univ_id_ := 0; cells_ := [0] |};
                    {| univ_id_ := 1; cells_ := [1] |} ];
     lattices := [lat];
     surfaces := [tt];
     root_universe := 0 |}.

Definition a_frame (c univ lat : Z) : LocalCoord :=
  {| cell := c; universe := univ; lattice := lat; lattice_x := 0;
     lattice_y := 0; lattice_z := 0; xyz := origin; uvw := along_x;
     rotated := false |}.

Definition a_particle (n : Z) (frames : list LocalCoord) : Particle :=
  {| id := 1; n_coord := n; coord := frames; surface := 0; material := 0;
     last_material := 0; sqrtkT := 0; last_sqrtkT := 0; cell_instance := 0;
     alive := true |}.

(** A particle in the root universe, not yet located. *)
Definition unlocated : Particle :=
  a_particle 1 [a_frame C_NONE 0 F90_NONE; a_frame C_NONE C_NONE F90_NONE;
                a_frame C_NONE C_NONE F90_NONE; a_frame C_NONE C_NONE F90_NONE].

(** The same particle located in the pin of tile (0, 0, 0). *)
Definition located : Particle :=
  a_particle 3 [a_frame 0 0 F90_NONE; a_frame 1 1 1; a_frame 2 2 F90_NONE;
                a_frame C_NONE C_NONE F90_NONE].

(** The particle two frames down, in universe 2, its cell not yet found. *)
Definition at_pin : Particle :=
  a_particle 3 [a_frame 0 0 F90_NONE; a_frame 1 1 1;
                a_frame C_NONE 2 F90_NONE; a_frame C_NONE C_NONE F90_NONE].

(** The unlocated particle with the lattice cell bound at frame 0. *)
Definition in_lattice_cell : Particle :=
  a_particle 1 [a_frame 0 0 F90_NONE; a_frame C_NONE C_NONE F90_NONE;
                a_frame C_NONE C_NONE F90_NONE; a_frame C_NONE C_NONE F90_NONE].

(** Every cell contains the particle. *)
Definition everywhere (c : Cell) (r : Position) (u : Direction) (s : Z)
    : bool := true.

(** The lattice cell has a surface, number 3, at distance [d0]; the cell
    of the tile has none ahead; the pin has surface 4 at distance [d2]. *)
Definition surfaces_at (d0 d2 : float) (c : Cell) (r : Position)
    (u : Direction) (s : Z) : float * Z :=
  if id_ c =? 10 then (d0, 3)
  else if id_ c =? 12 then (d2, 4)
  else (infinity, 0).

Definition locate (fuel : nat) (lat : Canned) (p : Particle)
    : outcome (bool * Particle * list Event) :=
  find_cell_inner everywhere MATERIAL_VOID NO_OUTER_UNIVERSE TINY_BIT 7 false
    fuel (scene lat) p None [].

Definition boundary (d0 d2 : float) (lat : Canned) (p : Particle)
    : outcome (Boundary * Particle * list Event) :=
  distance_to_boundary (surfaces_at d0 d2) F90_NONE FP_REL_PRECISION
    (scene lat) p 0 0 (0, 0, 0) [].

End Scene.

(** Data for the rest of the material code and of the locator. *)
Module Cases.

Import Material MaterialApi.

Definition OPENMC_E_UNASSIGNED : Z := -2.

(** What the storage of a new material holds. *)
Definition storage (k : nat) : Z * float * float := (0, 0%float, 0%float).

(** The two materials and two more made by [openmc_extend_materials]. *)
Definition extended : Model float :=
  (openmc_extend_materials storage Examples.two_materials 2).2.

Definition no_materials : Model float :=
  {| materials := []; material_map := ∅ |}.

(** Two materials as the constructor hands them over, with the ids 5
    and 6; and two that share the id 5. *)
Definition parsed : list (Material.Material float) :=
  [Examples.mixture 5 [0] [1]%float 1%float;
   Examples.mixture 6 [1] [1]%float 1%float].
Definition parsed_twice : list (Material.Material float) :=
  [Examples.mixture 5 [0] [1]%float 1%float;
   Examples.mixture 5 [1] [1]%float 1%float].

(** Two thermal scattering tables: one for hydrogen, one for oxygen. *)
Definition thermal_scatt : list ThermalScattering :=
  [ {| th_name_ := "c_H_in_H2O"; th_nuclides_ := ["H1"%string] |};
    {| th_name_ := "c_O_in_BeO"; th_nuclides_ := ["O16"%string] |} ].

Definition a_table (table slot : Z) : ThermalTable float :=
  {| index_table := table; index_nuclide := slot; fraction := 1%float |}.

(** The water [H1, H1, O16] as the constructor leaves it: the table
    of oxygen first, then the table of hydrogen, no slot assigned yet. *)
Definition moderated_water : Material.Material float :=
  set_thermal_tables_ Examples.water [a_table 1 0; a_table 0 0].

(** The same water after [init_thermal]. *)
Definition assigned_water : Material.Material float :=
  set_thermal_tables_ Examples.water [a_table 0 0; a_table 0 1; a_table 1 2].

(** The threshold of a table. *)
Definition threshold (table : ThermalScattering) : float := 2%float.

Definition cursor0 (m : Material.Material float) : SabCursor :=
  {| j := 0; check_sab := negb (Nat.eqb (length (thermal_tables_ m)) 0) |}.

(** The state of the neutron loop of the assigned water after its first
    two nuclides. *)
Definition two_done : XsState float * SabCursor :=
  Eval vm_compute in
  match for_loop 2
          (neutron_nuclide thermal_scatt Examples.store_nuclide threshold
             (Examples.library 1 16)%float assigned_water
             (Examples.a_neutron 1 1) 0)
          (Examples.caches 1 1 0, cursor0 assigned_water) with
  | Returned st => st
  | _ => (Examples.caches 1 1 0, cursor0 assigned_water)
  end.

(** The water after [normalize_density]. *)
Definition normalized_water : Material.Material float :=
  Eval vm_compute in
  match normalize_density true 1%float 2%float []
          (Examples.library 1 16)%float Examples.water with
  | Returned m' => m'
  | _ => Examples.water
  end.

(** A library with a fissionable nuclide, and a fuel made of it. *)
Definition fuel_library : Data float :=
  {| nuclides :=
       [ {| nuc_name_ := "U235"; awr_ := 235%float;
            nuc_fissionable_ := true |};
         {| nuc_name_ := "O16"; awr_ := 16%float;
            nuc_fissionable_ := false |} ];
     nuclide_map := {[ "U235"%string := 0; "O16"%string := 1 ]} |}.

Definition fuel : Material.Material float :=
  Examples.mixture 4 [0; 1] [1; 2]%float 3%float.

Definition finalize (m : Material.Material float)
    : outcome (checked (Material.Material float)) :=
  MaterialApi.finalize true false false 1%float 2%float [] thermal_scatt
    (fun m => m) fuel_library m.

Definition finalized_fuel : Material.Material float :=
  Eval vm_compute in
  match finalize fuel with
  | Returned (Pass m') => m'
  | _ => fuel
  end.

(** The summary of the water. *)
Definition summary : list (Hdf5Call float) :=
  Eval vm_compute in
  match to_hdf5 true 0%float [] thermal_scatt (Examples.library 1 16)%float
          Examples.water with
  | Returned calls => calls
  | _ => []
  end.

(** One registered water. *)
Definition one_material : Model float :=
  {| materials := [Examples.water]; material_map := {[ 1 := 0 ]} |}.

(** The locator's data. *)

Import Geometry.

(** The particle of the scene after [find_cell_inner]. *)
Definition pinned : Particle :=
  Eval vm_compute in
  match Scene.locate 3 (Scene.tiles (0, 0, 0) 0.5) Scene.unlocated with
  | Returned (_, p', _) => p'
  | _ => Scene.unlocated
  end.

Definition find_cell (p : Particle) (use_neighbor_lists : bool)
    : outcome (bool * Particle * Model Scene.Canned unit * list Event) :=
  Geometry.find_cell Scene.everywhere Scene.MATERIAL_VOID Scene.F90_NONE
    Scene.NO_OUTER_UNIVERSE Scene.MAX_COORD Scene.TINY_BIT 7 false 4
    (Scene.scene (Scene.tiles (0, 0, 0) 0.5)) p use_neighbor_lists [].

(** The particle and the registries after a search with neighbor lists
    from the root universe. *)
Definition swept_particle : Particle :=
  Eval vm_compute in
  match find_cell Scene.in_lattice_cell true with
  | Returned (_, p', _, _) => p'
  | _ => Scene.in_lattice_cell
  end.

Definition swept_scene : Model Scene.Canned unit :=
  Eval vm_compute in
  match find_cell Scene.in_lattice_cell true with
  | Returned (_, _, mdl', _) => mdl'
  | _ => Scene.scene (Scene.tiles (0, 0, 0) 0.5)
  end.

(** The scene with a second cell, the cell of the tiles, in the root
    universe. *)
Definition crowded : Model Scene.Canned unit :=
  {| cells := cells (Scene.scene (Scene.tiles (0, 0, 0) 0.5));
     universes := [ {| univ_id_ := 0; cells_ := [0; 1] |};
                    {| univ_id_ := 1; cells_ := [1] |};
                    {| univ_id_ := 2; cells_ := [2] |} ];
     lattices := lattices (Scene.scene (Scene.tiles (0, 0, 0) 0.5));
     surfaces := [tt];
     root_universe := 0 |}.

(** The located particle handed to [cross_lattice]: [n_coord] is the
    level of the lattice frame. *)
Definition at_tile_face : Particle :=
  Scene.a_particle 2 (coord Scene.located).

Definition cross_lattice (p : Particle) (t : Indices)
    : outcome (Particle * Model Scene.Canned unit * list Crossing.CrossEvent) :=
  Crossing.cross_lattice Scene.everywhere Scene.MATERIAL_VOID Scene.F90_NONE
    Scene.NO_OUTER_UNIVERSE Scene.MAX_COORD Scene.TINY_BIT 7 false 4
    (Scene.scene (Scene.tiles (0, 0, 0) 0.5)) p t [].

Definition crossed_particle : Particle :=
  Eval vm_compute in
  match cross_lattice at_tile_face (1, 0, 0) with
  | Returned (p', _, _) => p'
  | _ => at_tile_face
  end.

(** In the second geometry: the particle one level down, in universe 1
    below the hall; the same with the room bound; and the particle that
    the search from the root universe leaves when the lattice of the room
    answers the tile indices (5, 0, 0). *)
Definition below_hall : Particle :=
  Eval vm_compute in
  match enter_universe Scene.in_lattice_cell Scene.hall with
  | Returned p' => p'
  | _ => Scene.in_lattice_cell
  end.

Definition in_room : Particle :=
  Eval vm_compute in
  match update_coord below_hall 1 (fun f => set_cell f 1) with
  | Returned p' => p'
  | _ => below_hall
  end.

Definition outside_room : Particle :=
  Eval vm_compute in
  match find_cell_inner Scene.everywhere Scene.MATERIAL_VOID
          Scene.NO_OUTER_UNIVERSE Scene.TINY_BIT 7 false 2
          (Scene.nested (Scene.tiles (5, 0, 0) 0.5)) Scene.unlocated None []
  with
  | Returned (_, p', _) => p'
  | _ => Scene.unlocated
  end.

(** What [distance_to_boundary] hands back for the located particle
    when the lattice reports the distance -0.5. *)
Definition negative_crossing : Boundary * Particle * list Event :=
  Eval vm_compute in
  match Scene.boundary 0.9 0.7 (Scene.tiles (0, 0, 0) (-0.5))
          Scene.located with
  | Returned r => r
  | _ => ({| dist := 0; surface_crossed := 0; lattice_translation := (0, 0, 0);
             next_level := 0 |}, Scene.located, [])
  end.

(** The caches after a neutron of energy 2 was evaluated in the water
    from caches computed at energy 1. *)
Definition evaluated : XsState float :=
  Eval vm_compute in
  match Examples.evaluate Examples.water (Examples.a_neutron 2 1)
          (Examples.caches 1 1 1) with
  | Returned r => r
  | _ => Examples.caches 1 1 1
  end.

End Cases.

(** * Equations of the computation steps *)

Lemma bind_Returned {A B} (a : A) (f : A -> outcome B) :
  Returned a ≫= f = f a.
Proof. reflexivity. Qed.

Lemma bind_inv {A B} (o : outcome A) (f : A -> outcome B) (b : B) :
  o ≫= f = Returned b -> exists a, o = Returned a /\ f a = Returned b.
Proof. destruct o as [a | |]; simpl; [eauto | discriminate..]. Qed.

Lemma for_from_S {St} (i n : nat) (body : nat -> St -> outcome St) (s : St) :
  for_from i (S n) body s = body i s ≫= for_from (S i) n body.
Proof. reflexivity. Qed.

Lemma for_from_0 {St} (i : nat) (body : nat -> St -> outcome St) (s : St) :
  for_from i 0 body s = Returned s.
Proof. reflexivity. Qed.

Lemma at_nat_Some {A} (l : list A) (i : nat) (a : A) :
  l !! i = Some a -> at_nat l i = Returned a.
Proof. unfold at_nat. by intros ->. Qed.

Lemma at_Z_Some {A} (l : list A) (i : Z) (a : A) :
  lookupZ l i = Some a -> at_Z l i = Returned a.
Proof. unfold at_Z. by intros ->. Qed.

Lemma at_nat_inv {A} (l : list A) (i : nat) (a : A) :
  at_nat l i = Returned a -> l !! i = Some a.
Proof. unfold at_nat. destruct (l !! i); [congruence | discriminate]. Qed.

Lemma at_Z_inv {A} (l : list A) (i : Z) (a : A) :
  at_Z l i = Returned a -> lookupZ l i = Some a.
Proof. unfold at_Z. destruct (lookupZ l i); [congruence | discriminate]. Qed.

Lemma for_from_invariant {St} (P : St -> Prop)
    (body : nat -> St -> outcome St) :
  (forall i s s', body i s = Returned s' -> P s -> P s') ->
  forall n i s s', for_from i n body s = Returned s' -> P s -> P s'.
Proof.
  intros Hbody. induction n as [| n IH]; intros i s s' Hrun Hs.
  - rewrite for_from_0 in Hrun. congruence.
  - rewrite for_from_S in Hrun.
    apply bind_inv in Hrun as (s1 & H1 & Hrest).
    eapply IH; [exact Hrest |]. eapply Hbody; eauto.
Qed.

Lemma for_from_last {St} (body : nat -> St -> outcome St) :
  forall n i s,
    for_from i (S n) body s = for_from i n body s ≫= body (i + n)%nat.
Proof.
  induction n as [| n IH]; intros i s.
  - rewrite for_from_S, for_from_0, bind_Returned, Nat.add_0_r.
    destruct (body i s); reflexivity.
  - rewrite for_from_S, (for_from_S i n).
    destruct (body i s) as [s1 | |]; [| reflexivity..].
    rewrite !bind_Returned, IH. by rewrite Nat.add_succ_r.
Qed.

(** The states a loop goes through: [f k] is the state before pass
    [k], which is what the first [k] passes return, and the loop returns
    the state after the last pass. *)
Lemma for_from_states {St} (body : nat -> St -> outcome St) :
  forall n i s s',
    for_from i n body s = Returned s' ->
    exists f : nat -> St,
      f 0%nat = s /\ f n = s'
      /\ (forall k, (k < n)%nat ->
            body (i + k)%nat (f k) = Returned (f (S k)))
      /\ (forall k, (k <= n)%nat -> for_from i k body s = Returned (f k)).
Proof.
  induction n as [| n IH]; intros i s s' Hrun.
  - rewrite for_from_0 in Hrun. injection Hrun as <-.
    exists (fun _ => s). split; [reflexivity |]. split; [reflexivity |].
    split; [lia |]. intros k Hk. by assert (k = 0%nat) as -> by lia.
  - rewrite for_from_S in Hrun.
    apply bind_inv in Hrun as (s1 & H1 & Hrest).
    destruct (IH _ _ _ Hrest) as (f & H0 & Hn & Hstep & Hprefix).
    exists (fun k => match k with O => s | S k' => f k' end).
    split; [reflexivity |]. split; [exact Hn |]. split.
    + intros [| k] Hk.
      * by rewrite Nat.add_0_r, H0.
      * rewrite Nat.add_succ_r. apply (Hstep k). lia.
    + intros [| k] Hk; [reflexivity |].
      rewrite for_from_S, H1, bind_Returned. apply Hprefix. lia.
Qed.

Lemma lookupZ_elem_of {A} (l : list A) (i : Z) (a : A) :
  lookupZ l i = Some a -> a ∈ l.
Proof.
  unfold lookupZ. destruct (i <? 0); [discriminate |].
  intros Hi. apply list_elem_of_lookup. eauto.
Qed.

(** * Arithmetic on [int] *)

Lemma wrap32_add_l (a b : Z) : wrap32 (wrap32 a + b) = wrap32 (a + b).
Proof.
  unfold wrap32.
  replace ((a + 2 ^ 31) mod 2 ^ 32 - 2 ^ 31 + b + 2 ^ 31)
    with ((a + 2 ^ 31) mod 2 ^ 32 + b) by lia.
  rewrite Zplus_mod_idemp_l. f_equal. f_equal. lia.
Qed.

Lemma wrap32_small (z : Z) : in_int32 z -> wrap32 z = z.
Proof.
  unfold in_int32, wrap32. intros Hz. rewrite Z.mod_small; lia.
Qed.

(** * Properties of the material engine *)

Section MaterialFacts.

Import Material.

Set Default Proof Using "Type".

Context {R : Type} `{Arith R}.

Variable log : R -> R.
Variable to_int : R -> Z.
Variable log_spacing : R.
Variable energy_min : ParticleType -> R.
Variable run_CE : bool.
Variable n_nuclides_MG : nat.
Context {Sab Elem : Type}.
Variable thermal_scatt : list Sab.
Variable elements : list Elem.
Variable Nuclide_calculate_xs :
  Z -> Z -> R -> Z -> R -> R -> (Z -> NuclideMicroXS R) -> Z -> NuclideMicroXS R.
Variable Element_calculate_xs :
  Z -> R -> (Z -> ElementMicroXS R) -> Z -> ElementMicroXS R.
Variable threshold : Sab -> R.
Variable MASS_NEUTRON : R.
Variable N_AVOGADRO : R.
Variable codes : ErrorCodes.
Variable openmc_load_nuclide : string -> Data R -> Z * Data R.

(** ** The reverse index *)

Lemma lookupZ_put_eq {A} (l l' : list A) (g : Z) (v : A) :
  put_Z l g v = Returned l' -> lookupZ l' g = Some v /\ length l' = length l.
Proof.
  unfold put_Z, storeZ, lookupZ.
  destruct (0 <=? g) eqn:H0; simpl; [| discriminate].
  destruct (g <? Z.of_nat (length l)) eqn:H1; simpl; [| discriminate].
  intros [= <-]. apply Z.leb_le in H0. apply Z.ltb_lt in H1.
  destruct (g <? 0) eqn:H2; [apply Z.ltb_lt in H2; lia |].
  split; [| apply length_insert].
  apply list_lookup_insert_eq. lia.
Qed.

Lemma lookupZ_put_ne {A} (l l' : list A) (g g' : Z) (v : A) :
  put_Z l g v = Returned l' -> g <> g' -> lookupZ l' g' = lookupZ l g'.
Proof.
  unfold put_Z, storeZ, lookupZ.
  destruct (0 <=? g) eqn:H0; simpl; [| discriminate].
  destruct (g <? Z.of_nat (length l)) eqn:H1; simpl; [| discriminate].
  intros [= <-] Hne. apply Z.leb_le in H0.
  destruct (g' <? 0) eqn:H2; [reflexivity |]. apply Z.ltb_ge in H2.
  apply list_lookup_insert_ne. lia.
Qed.

Lemma put_Z_in_range {A} (l : list A) (g : Z) (v : A) :
  0 <= g < Z.of_nat (length l) -> exists l', put_Z l g v = Returned l'.
Proof.
  intros Hg. unfold put_Z, storeZ.
  replace (0 <=? g) with true by (symmetry; apply Z.leb_le; lia).
  replace (g <? Z.of_nat (length l)) with true
    by (symmetry; apply Z.ltb_lt; lia).
  simpl. eauto.
Qed.

Lemma index_slot_run (nuc : list Z) (i : nat) (g : Z) (table : list Z) :
  nuc !! i = Some g -> index_slot nuc i table = put_Z table g (Z.of_nat i).
Proof.
  intros Hi. unfold index_slot. by rewrite (at_nat_Some _ _ _ Hi).
Qed.

(** The table after the slots [i .. i+n-1] have been written: a global id
    holds its last slot, every other entry is as before. *)
Lemma index_loop (nuc : list Z) (n : nat) : forall (i : nat) (table : list Z),
  (i + n)%nat = length nuc ->
  (forall k g, nuc !! k = Some g -> 0 <= g < Z.of_nat (length table)) ->
  exists table',
    for_from i n (index_slot nuc) table = Returned table'
    /\ length table' = length table
    /\ (forall k g, (i <= k)%nat -> nuc !! k = Some g ->
          (forall k', (k < k')%nat -> nuc !! k' <> Some g) ->
          lookupZ table' g = Some (Z.of_nat k))
    /\ (forall g, (forall k, (i <= k)%nat -> nuc !! k <> Some g) ->
          lookupZ table' g = lookupZ table g).
Proof.
  induction n as [| n IH]; intros i table Hlen Hrange.
  - exists table. simpl. split; [reflexivity |]. split; [reflexivity |].
    split; [| done].
    intros k g Hk Hg _. apply lookup_lt_Some in Hg. lia.
  - destruct (nuc !! i) as [gi |] eqn:Hi;
      [| apply lookup_ge_None in Hi; lia].
    destruct (put_Z_in_range table gi (Z.of_nat i) (Hrange _ _ Hi))
      as [t1 Ht1].
    rewrite for_from_S, (index_slot_run _ _ _ _ Hi), Ht1, bind_Returned.
    destruct (lookupZ_put_eq _ _ _ _ Ht1) as [Hget Hlen1].
    destruct (IH (S i) t1) as (t' & Hrun & Hlen' & Hlast & Hother);
      [lia | by rewrite Hlen1 |].
    exists t'. split; [exact Hrun |]. split; [congruence |]. split.
    + intros k g Hk Hg Hlater.
      destruct (decide (k = i)) as [-> | Hne].
      * assert (g = gi) as -> by congruence.
        rewrite Hother; [exact Hget |].
        intros k' Hk'. apply Hlater. lia.
      * apply Hlast; [lia | done | done].
    + intros g Hnone.
      rewrite Hother by (intros k Hk; apply Hnone; lia).
      eapply lookupZ_put_ne; [exact Ht1 |].
      intros ->. by apply (Hnone i).
Qed.

Lemma blank_index_lookup (d : Data R) (g : Z) :
  0 <= g < Z.of_nat (length (blank_index run_CE n_nuclides_MG d)) ->
  lookupZ (blank_index run_CE n_nuclides_MG d) g = Some C_NONE.
Proof.
  unfold blank_index, lookupZ. rewrite length_replicate. intros Hg.
  destruct (g <? 0) eqn:Hneg; [apply Z.ltb_lt in Hneg; lia |].
  apply lookup_replicate_2. lia.
Qed.

(** C6, as the code has it: after [init_nuclide_index], provided every
    global id of [nuclide_] is inside the table, the entry of a global id
    that occurs in [nuclide_] is its last local slot (so it is [k] for
    every slot [k] whose nuclide does not occur again further on), and the
    entry of every global id that does not occur in [nuclide_] is -1. *)
Theorem init_nuclide_index_last_slot (d : Data R) (m : Material R) :
  (forall k g, nuclide_ m !! k = Some g ->
     0 <= g < Z.of_nat (length (blank_index run_CE n_nuclides_MG d))) ->
  exists m',
    init_nuclide_index run_CE n_nuclides_MG d m = Returned m'
    /\ nuclide_ m' = nuclide_ m
    /\ length (mat_nuclide_index_ m')
       = length (blank_index run_CE n_nuclides_MG d)
    /\ (forall k g, nuclide_ m !! k = Some g ->
          (forall k', (k < k')%nat -> nuclide_ m !! k' <> Some g) ->
          lookupZ (mat_nuclide_index_ m') g = Some (Z.of_nat k))
    /\ (forall g,
          0 <= g < Z.of_nat (length (blank_index run_CE n_nuclides_MG d)) ->
          g ∉ nuclide_ m ->
          lookupZ (mat_nuclide_index_ m') g = Some (-1)).
Proof.
  intros Hrange.
  destruct (index_loop (nuclide_ m) (length (nuclide_ m)) 0
              (blank_index run_CE n_nuclides_MG d))
    as (table & Hrun & Hlen & Hlast & Hother); [lia | exact Hrange |].
  exists (set_mat_nuclide_index_ m table).
  unfold init_nuclide_index, for_loop. rewrite Hrun, bind_Returned.
  split; [reflexivity |]. split; [reflexivity |]. split; [exact Hlen |].
  split.
  - intros k g Hk Hlater. apply Hlast; [lia | done | done].
  - intros g Hg Hnot. simpl. rewrite Hother.
    + by apply blank_index_lookup.
    + intros k _ Hk. apply Hnot. apply list_elem_of_lookup. eauto.
Qed.

(** ** The C API *)

(** C10, as the code has it: [openmc_material_set_id] with an index in
    bounds returns 0, stores the new id in the material, maps the new id
    to the material and leaves the entry of every other key as it was
    (the entry of the new id itself is overwritten when there was one);
    so an id that was mapped to the material still resolves, to the same
    index. *)
Theorem set_id_keeps_other_ids (mdl : Model R) (index new_id : Z) :
  index_in_bounds mdl index = true ->
  (openmc_material_set_id codes mdl index new_id).1 = 0
  /\ (exists m, materials mdl !! Z.to_nat (index - 1) = Some m
        /\ materials (openmc_material_set_id codes mdl index new_id).2
             !! Z.to_nat (index - 1) = Some (set_id_ m new_id))
  /\ material_map (openmc_material_set_id codes mdl index new_id).2 !! new_id
     = Some (index - 1)
  /\ (forall k, k <> new_id ->
        material_map (openmc_material_set_id codes mdl index new_id).2 !! k
        = material_map mdl !! k)
  /\ (forall old_id, material_map mdl !! old_id = Some (index - 1) ->
        openmc_get_material_index codes
          (openmc_material_set_id codes mdl index new_id).2 old_id
        = openmc_get_material_index codes mdl old_id
        /\ openmc_get_material_index codes mdl old_id
          = (0, Some (wrap32 (index - 1 + 1)))).
Proof.
  intros Hin. unfold openmc_material_set_id. rewrite Hin. simpl.
  unfold index_in_bounds in Hin. apply andb_prop in Hin as [H1 Hn].
  apply Z.leb_le in H1, Hn.
  split; [reflexivity |]. split.
  - destruct (materials mdl !! Z.to_nat (index - 1)) as [m |] eqn:Hm.
    + exists m. split; [reflexivity |].
      apply list_lookup_insert_eq. apply lookup_lt_Some in Hm. exact Hm.
    + apply lookup_ge_None in Hm. lia.
  - split; [apply lookup_insert_eq |]. split.
    + intros k Hk. by apply lookup_insert_ne.
    + intros old_id Hold. unfold openmc_get_material_index. simpl.
      rewrite Hold. split; [| reflexivity].
      destruct (decide (new_id = old_id)) as [-> | Hne].
      * by rewrite lookup_insert_eq.
      * by rewrite lookup_insert_ne, Hold.
Qed.

Lemma find_named_first (d : Data R) (name : string) (n : Nuclide R) :
  forall (nuc : list Z) (i k : nat),
    first_named d name nuc i n ->
    find_named d name nuc k = Returned (Some ((k + i)%nat, n)).
Proof.
  induction nuc as [| g0 nuc IH]; intros i k ((g & Hg & Hn) & Hname & Hbefore).
  - by rewrite lookup_nil in Hg.
  - simpl. destruct i as [| i].
    + simpl in Hg. injection Hg as ->.
      rewrite (at_Z_Some _ _ _ Hn), bind_Returned.
      rewrite (proj2 (String.eqb_eq _ _) Hname).
      by rewrite Nat.add_0_r.
    + destruct (Hbefore 0%nat) as (g' & n' & Hg' & Hn' & Hne); [lia |].
      simpl in Hg'. injection Hg' as ->.
      rewrite (at_Z_Some _ _ _ Hn'), bind_Returned.
      rewrite (proj2 (String.eqb_neq _ _) Hne).
      rewrite (IH i (S k)); [by rewrite Nat.add_succ_r |].
      split; [exists g; done |]. split; [done |].
      intros i' Hi'. apply (Hbefore (S i')). lia.
Qed.


(** ** The microscopic cache *)

Local Abbreviation sab_binding :=
  (Material.sab_binding thermal_scatt threshold).
Local Abbreviation neutron_nuclide :=
  (Material.neutron_nuclide thermal_scatt Nuclide_calculate_xs threshold).
Local Abbreviation photon_nuclide :=
  (Material.photon_nuclide elements Element_calculate_xs).
Local Abbreviation calculate_neutron_xs :=
  (Material.calculate_neutron_xs log to_int log_spacing energy_min
     thermal_scatt Nuclide_calculate_xs threshold).
Local Abbreviation calculate_photon_xs :=
  (Material.calculate_photon_xs elements Element_calculate_xs).
Local Abbreviation calculate_xs :=
  (Material.calculate_xs log to_int log_spacing energy_min thermal_scatt
     elements Nuclide_calculate_xs Element_calculate_xs threshold).

(** The cursor and the accumulator at the head of the neutron loop. *)
Local Abbreviation first_visit m xs :=
  (set_material_xs xs (zero_common (material_xs xs)),
   {| j := 0; check_sab := negb (Nat.eqb (length (thermal_tables_ m)) 0) |}).

(** One pass of the neutron loop, read backwards. *)
Lemma neutron_nuclide_inv (d : Data R) (m : Material R) (p : Particle R)
    (i_grid : Z) (i : nat) (st st' : XsState R * SabCursor) :
  neutron_nuclide d m p i_grid i st = Returned st' ->
  exists i_sab frac g N,
    sab_binding m p i st.2 = Returned (i_sab, frac, st'.2)
    /\ nuclide_ m !! i = Some g
    /\ atom_density_ m !! i = Some N
    /\ (tuple_differs p i_sab frac (micro_xs st.1 g) = true ->
          is_Some (lookupZ (nuclides d) g)
          /\ calls st'.1
             = calls st.1
               ++ [NuclideRefresh g i_sab (E p) i_grid (sqrtkT p) frac]
          /\ micro_xs st'.1
             = Nuclide_calculate_xs g i_sab (E p) i_grid (sqrtkT p) frac
                 (micro_xs st.1))
    /\ (tuple_differs p i_sab frac (micro_xs st.1 g) = false ->
          calls st'.1 = calls st.1 /\ micro_xs st'.1 = micro_xs st.1)
    /\ micro_photon_xs st'.1 = micro_photon_xs st.1
    /\ material_xs st'.1 = add_neutron N (micro_xs st'.1 g) (material_xs st.1).
Proof.
  unfold Material.neutron_nuclide. intros Hrun.
  apply bind_inv in Hrun as ([[i_sab frac] cur'] & Hbind & Hrun).
  apply bind_inv in Hrun as (g & Hg & Hrun). apply at_nat_inv in Hg.
  apply bind_inv in Hrun as (xs' & Hxs' & Hrun).
  apply bind_inv in Hrun as (N & HN & Hrun). apply at_nat_inv in HN.
  injection Hrun as <-. exists i_sab, frac, g, N. simpl.
  split; [exact Hbind |]. split; [exact Hg |]. split; [exact HN |].
  destruct (tuple_differs p i_sab frac (micro_xs st.1 g)).
  - unfold refresh_nuclide in Hxs'.
    apply bind_inv in Hxs' as (nd & Hnd & Hxs'). apply at_Z_inv in Hnd.
    injection Hxs' as <-. simpl.
    split; [intros _; by eauto |]. split; [discriminate |]. by split.
  - injection Hxs' as <-.
    split; [discriminate |]. split; [by intros _ |]. by split.
Qed.

(** C3: in the neutron branch of [calculate_xs] the loop visits the local
    nuclides in order, from the caches it is handed and the cursor at the
    first thermal table, and what it returns is the state after the last
    one.  At local nuclide [i], of global id [g], with [(i_sab, sab_frac)]
    what the S(a,b) check binds there, the nuclide's refresh is invoked --
    once, with the particle's energy and temperature -- exactly when one of
    [(E, sqrtkT, i_sab, sab_frac)] differs ([!=]) from the tuple stored in
    [micro_xs[g]], and then [g] is an element of [data::nuclides]; when the
    four are equal nothing is invoked and the cache is left as it is.
    Either way the entry of [g] in the cache after the guard is what is
    accumulated. *)
Theorem refresh_iff_tuple_differs (d : Data R) (m : Material R)
    (p : Particle R) (xs r : XsState R) :
  type p = neutron ->
  calculate_xs d m p xs = Returned r ->
  exists (visit : nat -> XsState R * SabCursor) (bound : nat -> Z * R),
    visit 0%nat = first_visit m xs
    /\ (visit (length (nuclide_ m))).1 = r
    /\ forall (i : nat) (g : Z), nuclide_ m !! i = Some g ->
         let before := (visit i).1 in
         let after := (visit (S i)).1 in
         let i_sab := (bound i).1 in
         let frac := (bound i).2 in
         let i_grid :=
           to_int (log (E p / energy_min neutron) / log_spacing)%ar in
         sab_binding m p i (visit i).2
         = Returned (i_sab, frac, (visit (S i)).2)
         /\ (tuple_differs p i_sab frac (micro_xs before g) = false <->
               (E p != last_E (micro_xs before g))%ar = false
               /\ (sqrtkT p != last_sqrtkT (micro_xs before g))%ar = false
               /\ i_sab = index_sab (micro_xs before g)
               /\ (frac != sab_frac (micro_xs before g))%ar = false)
         /\ (tuple_differs p i_sab frac (micro_xs before g) = true ->
               is_Some (lookupZ (nuclides d) g)
               /\ calls after
                  = calls before
                    ++ [NuclideRefresh g i_sab (E p) i_grid (sqrtkT p) frac]
               /\ micro_xs after
                  = Nuclide_calculate_xs g i_sab (E p) i_grid (sqrtkT p) frac
                      (micro_xs before))
         /\ (tuple_differs p i_sab frac (micro_xs before g) = false ->
               calls after = calls before /\ micro_xs after = micro_xs before)
         /\ exists N,
              atom_density_ m !! i = Some N
              /\ material_xs after
                 = add_neutron N (micro_xs after g) (material_xs before).
Proof.
  intros Hp. unfold Material.calculate_xs. rewrite Hp.
  unfold Material.calculate_neutron_xs, for_loop. intros Hrun.
  apply bind_inv in Hrun as (st & Hloop & Hret). injection Hret as <-.
  apply for_from_states in Hloop as (visit & H0 & Hn & Hstep & _).
  pose (bound := fun i =>
          match sab_binding m p i (visit i).2 with
          | Returned (i_sab, frac, _) => (i_sab, frac)
          | _ => (0, zero)
          end).
  exists visit, bound. split; [exact H0 |]. split; [by rewrite Hn |].
  intros i g Hg. pose proof (lookup_lt_Some _ _ _ Hg) as Hi.
  apply Hstep, neutron_nuclide_inv in Hi
    as (i_sab & frac & g' & N & Hbind & Hg' & HN & Hdiff & Hsame & _ & Hacc).
  change (0 + i)%nat with i in *.
  assert (g' = g) as -> by congruence.
  assert (Hb : bound i = (i_sab, frac)) by (unfold bound; by rewrite Hbind).
  cbv zeta. rewrite Hb. cbn [fst snd].
  split; [exact Hbind |]. split.
  { unfold tuple_differs. rewrite !orb_false_iff, negb_false_iff, Z.eqb_eq.
    split; [intros [[[? ?] ?] ?] | intros (? & ? & ? & ?)]; auto. }
  split; [exact Hdiff |]. split; [exact Hsame |]. by exists N.
Qed.

(** ** The macroscopic accumulator *)

(** One pass of the photon loop, read backwards. *)
Lemma photon_nuclide_inv (m : Material R) (p : Particle R) (i : nat)
    (xs xs' : XsState R) :
  photon_nuclide m p i xs = Returned xs' ->
  exists e N,
    element_ m !! i = Some e
    /\ atom_density_ m !! i = Some N
    /\ material_xs xs' = add_photon N (micro_photon_xs xs' e) (material_xs xs).
Proof.
  unfold Material.photon_nuclide. intros Hrun.
  apply bind_inv in Hrun as (e & He & Hrun). apply at_nat_inv in He.
  apply bind_inv in Hrun as (xs1 & Hxs1 & Hrun).
  apply bind_inv in Hrun as (N & HN & Hrun). apply at_nat_inv in HN.
  injection Hrun as <-. exists e, N. simpl.
  split; [exact He |]. split; [exact HN |].
  destruct (E p != e_last_E (micro_photon_xs xs e))%ar.
  - unfold refresh_element in Hxs1.
    apply bind_inv in Hxs1 as (el & _ & Hxs1). by injection Hxs1 as <-.
  - by injection Hxs1 as <-.
Qed.

(** The fields a pass of the loops does not write. *)
Local Abbreviation photon_fields mx :=
  (m_photon_prod mx, m_coherent mx, m_incoherent mx, m_photoelectric mx,
   m_pair_production mx).


(** ** Densities *)

Lemma gpcc_term_run (d : Data R) (nuc : list Z) (ad : list R) (i : nat)
    (acc : R) (g : Z) (nd : Nuclide R) (a : R) :
  nuc !! i = Some g -> lookupZ (nuclides d) g = Some nd -> ad !! i = Some a ->
  gpcc_term MASS_NEUTRON N_AVOGADRO d nuc ad i acc
  = Returned (acc + a * awr_ nd * MASS_NEUTRON / N_AVOGADRO)%ar.
Proof.
  intros Hg Hnd Ha. unfold gpcc_term.
  rewrite (at_nat_Some _ _ _ Hg), bind_Returned.
  rewrite (at_Z_Some _ _ _ Hnd), bind_Returned.
  by rewrite (at_nat_Some _ _ _ Ha), bind_Returned.
Qed.

(** The loop that recomputes [density_gpcc_] returns when the densities
    are parallel to the nuclides and the nuclides are in the library. *)
Lemma gpcc_loop_returns (d : Data R) (nuc : list Z) (ad : list R) (n : nat) :
  length ad = length nuc ->
  (forall k g, nuc !! k = Some g -> is_Some (lookupZ (nuclides d) g)) ->
  forall i acc, (i + n)%nat = length nuc ->
    exists g, for_from i n (gpcc_term MASS_NEUTRON N_AVOGADRO d nuc ad) acc
              = Returned g.
Proof.
  intros Hlen Hlib. induction n as [| n IH]; intros i acc Hi.
  - eexists. reflexivity.
  - destruct (nuc !! i) as [g |] eqn:Hg;
      [| apply lookup_ge_None in Hg; lia].
    destruct (Hlib _ _ Hg) as [nd Hnd].
    destruct (ad !! i) as [a |] eqn:Ha;
      [| apply lookup_ge_None in Ha; lia].
    rewrite for_from_S, (gpcc_term_run _ _ _ _ _ _ _ _ Hg Hnd Ha), bind_Returned.
    apply IH. lia.
Qed.

(** What [set_density] with "atom/b-cm" leaves in the material. *)
Lemma set_density_atom (d : Data R) (m : Material R) (density : R) :
  nuclide_ m <> [] ->
  length (atom_density_ m) = length (nuclide_ m) ->
  (forall k g, nuclide_ m !! k = Some g -> is_Some (lookupZ (nuclides d) g)) ->
  exists m',
    set_density MASS_NEUTRON N_AVOGADRO codes d m density "atom/b-cm"
    = Returned (0, m')
    /\ nuclide_ m' = nuclide_ m
    /\ density_ m' = density
    /\ atom_density_ m'
       = xmul (xdiv (atom_density_ m) (xsum (atom_density_ m))) density.
Proof.
  intros Hne Hlen Hlib. unfold set_density.
  destruct (nuclide_ m) as [| g0 rest] eqn:Hnuc; [done |].
  change (String.eqb "atom/b-cm" "atom/b-cm") with true. cbv iota.
  destruct (gpcc_loop_returns d (g0 :: rest)
              (xmul (xdiv (atom_density_ m) (xsum (atom_density_ m))) density)
              (length (g0 :: rest))) with (i := 0%nat) (acc := zero)
    as [g Hg].
  - unfold xmul, xdiv. by rewrite !length_map.
  - exact Hlib.
  - reflexivity.
  - simpl nuclide_. simpl atom_density_. rewrite Hnuc. unfold for_loop.
    rewrite Hg, bind_Returned. eexists. split; [reflexivity |].
    simpl. by rewrite Hnuc.
Qed.

Local Abbreviation set_density :=
  (Material.set_density MASS_NEUTRON N_AVOGADRO codes).

(** C7, as the code has it: for a material with nuclides whose densities
    are parallel to them and whose nuclides are in the library,
    [set_density(x, "atom/b-cm")] followed by
    [set_density(old, "atom/b-cm")], with [old] the total density before
    the first call, returns 0 twice and restores the total density and the
    nuclides; every per-nuclide density [a] comes out as
    [((a / s) * x / s1) * old], each operation the one of the code's
    arithmetic, where [s] and [s1] are the sums, from the left, of the
    densities before the first and before the second call. *)
Theorem set_density_twice_rescales (d : Data R) (m : Material R) (x : R) :
  nuclide_ m <> [] ->
  length (atom_density_ m) = length (nuclide_ m) ->
  (forall k g, nuclide_ m !! k = Some g -> is_Some (lookupZ (nuclides d) g)) ->
  exists m1 m2,
    set_density d m x "atom/b-cm" = Returned (0, m1)
    /\ set_density d m1 (density_ m) "atom/b-cm" = Returned (0, m2)
    /\ nuclide_ m2 = nuclide_ m
    /\ density_ m2 = density_ m
    /\ length (atom_density_ m2) = length (atom_density_ m)
    /\ atom_density_ m1
       = xmul (xdiv (atom_density_ m) (xsum (atom_density_ m))) x
    /\ forall i a, atom_density_ m !! i = Some a ->
         atom_density_ m2 !! i
         = Some (a / xsum (atom_density_ m) * x / xsum (atom_density_ m1)
                 * density_ m)%ar.
Proof.
  intros Hne Hlen Hlib.
  destruct (set_density_atom d m x Hne Hlen Hlib)
    as (m1 & Hrun1 & Hnuc1 & Hd1 & Had1).
  destruct (set_density_atom d m1 (density_ m))
    as (m2 & Hrun2 & Hnuc2 & Hd2 & Had2).
  - by rewrite Hnuc1.
  - rewrite Hnuc1, Had1. unfold xmul, xdiv. by rewrite !length_map.
  - by rewrite Hnuc1.
  - exists m1, m2. split; [exact Hrun1 |]. split; [exact Hrun2 |].
    split; [congruence |]. split; [exact Hd2 |].
    split; [rewrite Had2, Had1; unfold xmul, xdiv; by rewrite !length_map |].
    split; [exact Had1 |].
    intros i a Ha. rewrite Had2. rewrite Had1 at 1.
    unfold xmul, xdiv. rewrite !list_lookup_fmap, Ha. reflexivity.
Qed.

End MaterialFacts.

(** * Properties of binary64 comparisons *)

(** A finite or NaN distance compared with itself is below any positive
    relative precision: [(x - x) / x] is a zero or NaN. *)
Lemma relative_gap_of_equal (eps x : float) :
  PrimFloat.ltb 0 eps = true ->
  PrimFloat.eqb x infinity = false ->
  PrimFloat.leb eps ((x - x) / x)%float = false.
Proof.
  intros Heps Hx.
  rewrite FloatAxioms.ltb_spec in Heps. rewrite FloatAxioms.eqb_spec in Hx.
  rewrite FloatAxioms.leb_spec, FloatAxioms.div_spec, FloatAxioms.sub_spec.
  change (Prim2SF 0) with (S754_zero false) in Heps.
  change (Prim2SF infinity) with (S754_infinity false) in Hx.
  destruct (Prim2SF x) as [s | s | | s m e].
  - destruct (Prim2SF eps) as [? | [] | | [] ? ?], s;
      try discriminate; reflexivity.
  - destruct s; [| discriminate].
    destruct (Prim2SF eps) as [? | [] | | [] ? ?];
      try discriminate; reflexivity.
  - destruct (Prim2SF eps) as [? | [] | | [] ? ?];
      try discriminate; reflexivity.
  - unfold SF64sub, SFsub. rewrite Z.sub_diag.
    destruct (Prim2SF eps) as [? | [] | | [] ? ?], s;
      try discriminate; reflexivity.
Qed.

Lemma nonnegative_not_negative (d : float) :
  PrimFloat.leb 0 d = true -> PrimFloat.ltb d 0 = false.
Proof.
  rewrite FloatAxioms.leb_spec, FloatAxioms.ltb_spec.
  change (Prim2SF 0) with (S754_zero false).
  destruct (Prim2SF d) as [s | [] | | [] m e]; try discriminate; reflexivity.
Qed.

(** * Properties of the locator *)

Section GeometryFacts.

Import Geometry.

Set Default Proof Using "Type".

Context {L Sf : Type} `{LatticeClass L} `{SurfaceClass Sf}.

Variable Cell_contains : Cell -> Position -> Direction -> Z -> bool.
Variable Cell_distance : Cell -> Position -> Direction -> Z -> float * Z.
Variable MATERIAL_VOID : Z.
Variable F90_NONE : Z.
Variable NO_OUTER_UNIVERSE : Z.
Variable MAX_COORD : nat.
Variable TINY_BIT : float.
Variable FP_REL_PRECISION : float.
Variable verbosity : Z.
Variable trace : bool.

Local Abbreviation lattice_level := (Geometry.lattice_level F90_NONE).
Local Abbreviation replaces := (Geometry.replaces FP_REL_PRECISION).
Local Abbreviation level :=
  (Geometry.level Cell_distance F90_NONE FP_REL_PRECISION).
Local Abbreviation distance_to_boundary :=
  (Geometry.distance_to_boundary Cell_distance F90_NONE FP_REL_PRECISION).

(** ** Distance to the next boundary *)

(** What the lattice part of a level leaves: nothing changes outside a
    lattice; inside one, [d_lat] is the distance the lattice reports, and
    the particle is marked lost exactly when that distance is negative. *)
Lemma lattice_level_inv (mdl : Model L Sf) (i : nat) (frame : LocalCoord)
    (st st1 : Levels) :
  lattice_level mdl i frame st = Returned st1 ->
  out st1 = out st
  /\ ((lattice frame =? F90_NONE) = true -> st1 = st)
  /\ ((lattice frame =? F90_NONE) = false ->
       exists lat r,
         lookupZ (lattices mdl) (lattice frame - 1) = Some lat
         /\ d_lat st1
            = (lat_distance lat r (uvw frame)
                 (lattice_x frame, lattice_y frame, lattice_z frame)).1
         /\ (PrimFloat.ltb (d_lat st1) 0 = false ->
               particle st1 = particle st /\ events st1 = events st)
         /\ (PrimFloat.ltb (d_lat st1) 0 = true ->
               alive (particle st1) = false
               /\ events st1
                  = events st
                    ++ [mark_as_lost
                          (NegativeLatticeDistance (id (particle st)))])
         /\ lattice_position (particle st) i frame (lat_type_ lat)
            = Returned r).
Proof.
  unfold Geometry.lattice_level.
  destruct (lattice frame =? F90_NONE) eqn:Hlat; simpl.
  - intros [= <-]. by repeat split.
  - intros Hrun.
    apply bind_inv in Hrun as (lat & Hlat' & Hrun). apply at_Z_inv in Hlat'.
    apply bind_inv in Hrun as (r & Hr & Hrun).
    destruct (PrimFloat.ltb _ 0) eqn:Hneg in Hrun; simpl in Hrun;
      injection Hrun as <-; simpl;
      (split; [reflexivity |]); (split; [discriminate |]); intros _;
      exists lat, r; (split; [exact Hlat' |]); (split; [reflexivity |]);
      rewrite Hneg; (split; [discriminate || by intros _ |]);
      (split; [discriminate || by intros _ | exact Hr]).
Qed.

(** The shape of a level: the state after the lattice part, with the
    outputs either kept or rewritten with the level's candidate. *)
Lemma level_inv (mdl : Model L Sf) (i : nat) (st st' : Levels)
    (frame : LocalCoord) (c : Cell) :
  coord (particle st) !! i = Some frame ->
  lookupZ (cells mdl) (cell frame) = Some c ->
  level mdl i st = Returned st' ->
  exists st1,
    lattice_level mdl i frame st = Returned st1
    /\ d_lat st' = d_lat st1
    /\ particle st' = particle st1
    /\ events st' = events st1
    /\ (replaces (dist (out st1))
          (candidate
             (Cell_distance c (xyz frame) (uvw frame)
                (surface (particle st))).1 (d_lat st1)) = false ->
          st' = st1)
    /\ (replaces (dist (out st1))
          (candidate
             (Cell_distance c (xyz frame) (uvw frame)
                (surface (particle st))).1 (d_lat st1)) = true ->
          dist (out st')
          = candidate
              (Cell_distance c (xyz frame) (uvw frame)
                 (surface (particle st))).1 (d_lat st1)
          /\ next_level (out st') = Z.of_nat i + 1).
Proof.
  intros Hframe Hc. unfold Geometry.level, candidate.
  rewrite (at_nat_Some _ _ _ Hframe), bind_Returned.
  rewrite (at_Z_Some _ _ _ Hc), bind_Returned.
  intros Hrun. apply bind_inv in Hrun as (st1 & Hst1 & Hrun).
  exists st1. split; [exact Hst1 |]. cbv zeta in Hrun.
  destruct (PrimFloat.ltb _ (d_lat st1)).
  - destruct (Geometry.replaces _ _ _).
    + apply bind_inv in Hrun as (sc & _ & Hrun). injection Hrun as <-.
      simpl. by repeat split.
    + injection Hrun as <-. by repeat split.
  - destruct (Geometry.replaces _ _ _); injection Hrun as <-;
      simpl; by repeat split.
Qed.

Lemma level_frame (mdl : Model L Sf) (i : nat) (st st' : Levels) :
  level mdl i st = Returned st' ->
  exists frame c,
    coord (particle st) !! i = Some frame
    /\ lookupZ (cells mdl) (cell frame) = Some c.
Proof.
  unfold Geometry.level. intros Hrun.
  apply bind_inv in Hrun as (frame & Hframe & Hrun).
  apply bind_inv in Hrun as (c & Hc & _).
  exists frame, c. split; [by apply at_nat_inv | by apply at_Z_inv].
Qed.

Lemma candidate_cases (a b : float) :
  candidate a b = a \/ candidate a b = b.
Proof. unfold candidate. destruct (PrimFloat.ltb a b); auto. Qed.

(** ** Descent to a cell *)

Local Abbreviation find_cell_inner :=
  (Geometry.find_cell_inner Cell_contains MATERIAL_VOID NO_OUTER_UNIVERSE
     TINY_BIT verbosity trace).
Local Abbreviation find_cell :=
  (Geometry.find_cell Cell_contains MATERIAL_VOID F90_NONE NO_OUTER_UNIVERSE
     MAX_COORD TINY_BIT verbosity trace).
Local Abbreviation binds := (Geometry.binds Cell_contains).
Local Abbreviation outside_lattice :=
  (Geometry.outside_lattice NO_OUTER_UNIVERSE TINY_BIT).
Local Abbreviation material_of := (Geometry.material_of MATERIAL_VOID).
Local Abbreviation announce := (Geometry.announce verbosity trace).

Lemma update_coord_inv (p p' : Particle) (i : Z)
    (f : LocalCoord -> LocalCoord) :
  update_coord p i f = Returned p' ->
  exists c, lookupZ (coord p) i = Some c
    /\ p' = set_coord p (<[Z.to_nat i := f c]> (coord p)).
Proof.
  unfold update_coord. intros Hrun.
  apply bind_inv in Hrun as (c & Hc & Hrun). apply at_Z_inv in Hc.
  apply bind_inv in Hrun as (v & Hv & Hrun). injection Hrun as <-.
  exists c. split; [exact Hc |]. f_equal.
  unfold put_Z, storeZ in Hv.
  destruct ((0 <=? i) && (i <? Z.of_nat (length (coord p))));
    [by injection Hv | discriminate].
Qed.

Lemma update_coord_returns (p : Particle) (i : Z)
    (f : LocalCoord -> LocalCoord) (c : LocalCoord) :
  lookupZ (coord p) i = Some c ->
  update_coord p i f
  = Returned (set_coord p (<[Z.to_nat i := f c]> (coord p))).
Proof.
  intros Hc. unfold update_coord.
  rewrite (at_Z_Some _ _ _ Hc), bind_Returned.
  unfold put_Z, storeZ. unfold lookupZ in Hc.
  destruct (i <? 0) eqn:Hneg; [discriminate |]. apply Z.ltb_ge in Hneg.
  apply lookup_lt_Some in Hc.
  replace (0 <=? i) with true by (symmetry; apply Z.leb_le; lia).
  replace (i <? Z.of_nat (length (coord p))) with true
    by (symmetry; apply Z.ltb_lt; lia).
  reflexivity.
Qed.

Lemma add_frame_offset_run (mdl : Model L Sf) (p : Particle) (c : Cell)
    (i : nat) (acc o : Z) :
  frame_offset mdl p c i = Returned o ->
  add_frame_offset mdl p c i acc = Returned (wrap32 (acc + o)).
Proof. intros Ho. unfold add_frame_offset. by rewrite Ho. Qed.

(** The offset loop adds up, as an [int], what the frames add. *)
Lemma offset_loop (mdl : Model L Sf) (p : Particle) (c : Cell) :
  forall (n i : nat) (acc : Z) (offsets : list Z),
    Forall2 (fun k o => frame_offset mdl p c k = Returned o)
      (seq i n) offsets ->
    for_from i n (add_frame_offset mdl p c) (wrap32 acc)
    = Returned (wrap32 (acc + sumZ offsets)).
Proof.
  induction n as [| n IH]; intros i acc offsets Hall.
  - apply Forall2_nil_inv_l in Hall as ->. simpl. by rewrite Z.add_0_r.
  - simpl seq in Hall.
    apply Forall2_cons_inv_l in Hall as (o & rest & Ho & Hrest & ->).
    rewrite for_from_S, (add_frame_offset_run _ _ _ _ _ _ Ho), bind_Returned.
    rewrite wrap32_add_l, (IH _ _ _ Hrest).
    simpl. by rewrite Z.add_assoc.
Qed.

Lemma find_instance_is (mdl : Model L Sf) (p : Particle) (c : Cell)
    (inst : Z) :
  instance_is mdl p c inst -> find_instance mdl p c = Returned inst.
Proof.
  intros [Hone Hmany]. unfold find_instance.
  destruct (distributed c).
  - destruct (Hmany eq_refl) as (offsets & Hall & ->).
    unfold for_loop. change 0 with (wrap32 0) at 1.
    by rewrite (offset_loop _ _ _ _ _ _ _ Hall).
  - by rewrite (Hone eq_refl).
Qed.

(** C2, as the code has it: when [find_cell_inner] binds a cell with
    MATERIAL fill the call returns success at that frame.
    [cell_instance] is 0 if the cell has one material and one sqrtkT, and
    otherwise the sum over the frames of the UNIVERSE-fill offsets and
    the valid-index lattice offsets.  The material is taken from
    [material_[cell_instance]] when the cell has more than one material
    and from [material_[0]] when it has one (the void sentinel is kept,
    any other index is stored plus one); sqrtkT is taken from
    [sqrtkT_[cell_instance]] when the cell has more than one sqrtkT and
    from [sqrtkT_[0]] when it has one. *)
Theorem material_cell_ends_descent (fuel : nat) (mdl : Model L Sf)
    (p p1 : Particle) (neighbor_list : option (list Z)) (log : list Event)
    (i_cell : Z) (c : Cell) (inst mat : Z) (T : float) :
  binds mdl p neighbor_list i_cell c p1 ->
  type_ c = FILL_MATERIAL ->
  instance_is mdl p1 c inst ->
  lookupZ (material_ c)
    (if (1 <? length (material_ c))%nat then inst else 0) = Some mat ->
  lookupZ (sqrtkT_ c)
    (if (1 <? length (sqrtkT_ c))%nat then inst else 0) = Some T ->
  exists p',
    find_cell_inner (S fuel) mdl p neighbor_list log
    = Returned (true, p', announce c log)
    /\ cell_instance p' = inst
    /\ (distributed c = false -> cell_instance p' = 0)
    /\ (distributed c = true ->
        exists offsets,
          Forall2 (fun i o => frame_offset mdl p1 c i = Returned o)
            (seq 0 (Z.to_nat (n_coord p1))) offsets
          /\ cell_instance p' = wrap32 (sumZ offsets)
          /\ (in_int32 (sumZ offsets) -> cell_instance p' = sumZ offsets))
    /\ material p' = material_of mat
    /\ (mat = MATERIAL_VOID -> material p' = MATERIAL_VOID)
    /\ (mat <> MATERIAL_VOID -> material p' = wrap32 (mat + 1))
    /\ sqrtkT p' = T
    /\ last_material p' = material p
    /\ last_sqrtkT p' = sqrtkT p
    /\ n_coord p' = n_coord p
    /\ coord p' = coord p1.
Proof.
  intros (cands & Hcands & Hsearch & Hp1 & Hc) Htype Hinst Hmat HT.
  exists (set_terminal p1 inst (material_of mat) T).
  destruct (update_coord_inv _ _ _ _ Hp1) as (f0 & _ & Hp1eq).
  split.
  - simpl. rewrite Hcands, bind_Returned, Hsearch, bind_Returned.
    rewrite Hp1, bind_Returned, (at_Z_Some _ _ _ Hc), bind_Returned, Htype.
    unfold enter_material.
    rewrite (find_instance_is _ _ _ _ Hinst), bind_Returned.
    destruct (1 <? length (material_ c))%nat;
      rewrite (at_Z_Some _ _ _ Hmat), bind_Returned;
      destruct (1 <? length (sqrtkT_ c))%nat;
      rewrite (at_Z_Some _ _ _ HT), bind_Returned; reflexivity.
  - simpl. split; [reflexivity |].
    split; [exact (proj1 Hinst) |].
    split.
    { intros Hd. destruct (proj2 Hinst Hd) as (offsets & Hall & ->).
      exists offsets. split; [exact Hall |]. split; [reflexivity |].
      apply wrap32_small. }
    split; [reflexivity |].
    unfold Geometry.material_of.
    split; [intros ->; by rewrite Z.eqb_refl |].
    split; [intros Hne; apply Z.eqb_neq in Hne; by rewrite Hne |].
    rewrite Hp1eq. by repeat split.
Qed.

(** The LATTICE branch outside a lattice without outer universe: the
    frame below is written, the warning is issued and the branch answers
    [false] with [n_coord] as it was. *)
Lemma enter_lattice_outside (mdl : Model L Sf) (p1 : Particle) (c : Cell)
    (lat : L) (log : list Event) :
  outside_lattice mdl p1 c lat ->
  exists p',
    enter_lattice NO_OUTER_UNIVERSE TINY_BIT mdl p1 c log
    = Returned (false, p',
                log ++ [warning (OutsideLattice (id p1) (lat_id_ lat))])
    /\ n_coord p' = n_coord p1.
Proof.
  intros (_ & Hlat & (frame & Hframe & Hinvalid) & Houter & [below Hbelow]).
  unfold enter_lattice.
  rewrite (at_Z_Some _ _ _ Hlat), bind_Returned.
  rewrite (at_Z_Some _ _ _ Hframe), bind_Returned. cbv zeta.
  rewrite (update_coord_returns _ _ _ _ Hbelow), bind_Returned.
  rewrite Hinvalid, Houter, Z.eqb_refl. simpl.
  eexists. split; reflexivity.
Qed.

(** The call of [find_cell_inner] that meets the lattice. *)
Lemma find_cell_inner_outside (fuel : nat) (mdl : Model L Sf)
    (p p1 : Particle) (neighbor_list : option (list Z)) (log : list Event)
    (i_cell : Z) (c : Cell) (lat : L) :
  binds mdl p neighbor_list i_cell c p1 ->
  outside_lattice mdl p1 c lat ->
  exists p',
    find_cell_inner (S fuel) mdl p neighbor_list log
    = Returned (false, p',
                announce c log
                ++ [warning (OutsideLattice (id p) (lat_id_ lat))])
    /\ n_coord p' = n_coord p.
Proof.
  intros (cands & Hcands & Hsearch & Hp1 & Hc) Hout.
  destruct (update_coord_inv _ _ _ _ Hp1) as (f0 & _ & Hp1eq).
  destruct (enter_lattice_outside mdl p1 c lat (announce c log) Hout)
    as (p' & Henter & Hn).
  assert (Hid : id p1 = id p) by (by rewrite Hp1eq).
  assert (Hn1 : n_coord p1 = n_coord p) by (by rewrite Hp1eq).
  rewrite Hid in Henter.
  exists p'. split; [| congruence].
  simpl. rewrite Hcands, bind_Returned, Hsearch, bind_Returned.
  rewrite Hp1, bind_Returned, (at_Z_Some _ _ _ Hc), bind_Returned.
  destruct Hout as (-> & _). by rewrite Henter, bind_Returned.
Qed.

End GeometryFacts.

(** * The properties on concrete data *)

(** The locator descent of the specification's fourth scenario: the
    particle ends three frames down, in the pin of tile (0, 0, 0). *)
Example locator_descent :
  exists p',
    Scene.locate 3 (Scene.tiles (0, 0, 0) 0.5) Scene.unlocated
    = Returned (true, p', [])
    /\ Geometry.n_coord p' = 3
    /\ Geometry.cell <$> Geometry.coord p' = [0; 1; 2; C_NONE]
    /\ Geometry.universe <$> Geometry.coord p' = [0; 1; 2; C_NONE]
    /\ Geometry.lattice <$> Geometry.coord p' = [0; 1; 0; 0].
Proof. exists Cases.pinned. vm_compute. by repeat split. Qed.

(** Two levels at the same distance 0.5: the surface of the lattice
    cell, on level 1, and the tile face, on level 2.  The level above
    keeps the crossing. *)
Example coarser_level_keeps_crossing :
  Scene.boundary 0.5 0.7 (Scene.tiles (0, 0, 0) 0.5) Scene.located
  = Returned ({| Geometry.dist := 0.5; Geometry.surface_crossed := 3;
                 Geometry.lattice_translation := (0, 0, 0);
                 Geometry.next_level := 1 |}, Scene.located, []).
Proof. reflexivity. Qed.

(** The tile face, on level 2, and the surface of the pin, on level 3,
    at the same distance 0.5: the lattice crossing is kept. *)
Example lattice_crossing_kept :
  Scene.boundary 0.9 0.5 (Scene.tiles (0, 0, 0) 0.5) Scene.located
  = Returned ({| Geometry.dist := 0.5;
                 Geometry.surface_crossed := Scene.F90_NONE;
                 Geometry.lattice_translation := (1, 0, 0);
                 Geometry.next_level := 2 |}, Scene.located, []).
Proof. reflexivity. Qed.

(** The hypothesis of [init_nuclide_index_last_slot] holds of the water
    of the specification's first scenario. *)
Lemma init_nuclide_index_last_slot_witness :
  exists m',
    Material.init_nuclide_index true 0 (Examples.library 1 16)%float
      Examples.water = Returned m'
    /\ Material.nuclide_ m' = Material.nuclide_ Examples.water
    /\ length (Material.mat_nuclide_index_ m')
       = length (Material.blank_index true 0 (Examples.library 1 16)%float)
    /\ (forall k g, Material.nuclide_ Examples.water !! k = Some g ->
          (forall k', (k < k')%nat ->
             Material.nuclide_ Examples.water !! k' <> Some g) ->
          lookupZ (Material.mat_nuclide_index_ m') g = Some (Z.of_nat k))
    /\ (forall g,
          0 <= g < Z.of_nat (length
            (Material.blank_index true 0 (Examples.library 1 16)%float)) ->
          g ∉ Material.nuclide_ Examples.water ->
          lookupZ (Material.mat_nuclide_index_ m') g = Some (-1)).
Proof.
  apply (init_nuclide_index_last_slot true 0%nat
           (Examples.library 1 16)%float Examples.water).
  intros [| [| [| k]]] g; simpl; intros [= <-]; lia.
Defined.

(** C6 fails as stated: in the water [H1, H1, O16] the entry of the
    nuclide of slot 0 is 1, the later slot of the same nuclide. *)
Lemma duplicate_nuclide_index_counterexample :
  exists m',
    Material.init_nuclide_index true 0 (Examples.library 1 16)%float
      Examples.water = Returned m'
    /\ Material.mat_nuclide_index_ m' = [1; 2]
    /\ ~ (forall k g, Material.nuclide_ Examples.water !! k = Some g ->
            lookupZ (Material.mat_nuclide_index_ m') g = Some (Z.of_nat k)).
Proof.
  eexists. split; [reflexivity |]. split; [reflexivity |].
  intros Hall. specialize (Hall 0%nat 0 eq_refl). discriminate Hall.
Qed.

(** The hypotheses of [set_id_keeps_other_ids] hold when material 1 of
    two registered materials is given the fresh id 7. *)
Lemma set_id_keeps_other_ids_witness :
  Material.index_in_bounds Examples.two_materials 1 = true
  /\ Material.openmc_get_material_index Examples.codes
       (Material.openmc_material_set_id Examples.codes
          Examples.two_materials 1 7).2 1
     = (0, Some 1).
Proof.
  split; [reflexivity |].
  destruct (set_id_keeps_other_ids Examples.codes Examples.two_materials 1 7
              eq_refl) as (_ & _ & _ & _ & Hold).
  destruct (Hold 1 eq_refl) as [-> ->]. reflexivity.
Defined.

(** C10 fails as stated: giving material 1 the id 2, which material 2
    carries, rewrites the existing entry of id 2, which then resolves to
    material 1. *)
Lemma set_id_overwrites_entry_counterexample :
  Material.material_map Examples.two_materials !! 2 = Some 1
  /\ Material.material_map
       (Material.openmc_material_set_id Examples.codes
          Examples.two_materials 1 2).2 !! 2 = Some 0
  /\ Material.openmc_get_material_index Examples.codes
       Examples.two_materials 2 = (0, Some 2)
  /\ Material.openmc_get_material_index Examples.codes
       (Material.openmc_material_set_id Examples.codes
          Examples.two_materials 1 2).2 2 = (0, Some 1)
  /\ ~ (forall k v, Material.material_map Examples.two_materials !! k = Some v ->
         Material.material_map
           (Material.openmc_material_set_id Examples.codes
              Examples.two_materials 1 2).2 !! k = Some v).
Proof.
  split; [reflexivity |]. split; [reflexivity |]. split; [reflexivity |].
  split; [reflexivity |].
  intros Hall. specialize (Hall 2 1 eq_refl). discriminate Hall.
Qed.



(** C7 fails as stated, in the arithmetic of the code: setting the water
    [2, 2, 1] of total density 5 to 7 and back to 5 leaves
    [1.9999999999999998, 1.9999999999999998, 0.99999999999999989];
    setting it to 0, or to the smallest positive double, and back leaves
    three NaN, and setting it to 1e-323 and back leaves [2.5, 2.5, 0]. *)
Lemma set_density_not_restored_counterexample :
  Material.density_ Examples.water = 5%float
  /\ Material.atom_density_ Examples.water = [2; 2; 1]%float
  /\ Examples.set_and_restore 1%float 2%float (Examples.library 1 16)%float
       Examples.water 7%float 5%float
     = Returned [0x1.fffffffffffffp+0; 0x1.fffffffffffffp+0;
                 0x1.fffffffffffffp-1]%float
  /\ Examples.set_and_restore 1%float 2%float (Examples.library 1 16)%float
       Examples.water 0%float 5%float
     = Returned [nan; nan; nan]%float
  /\ Examples.set_and_restore 1%float 2%float (Examples.library 1 16)%float
       Examples.water 0x1p-1074%float 5%float
     = Returned [nan; nan; nan]%float
  /\ Examples.set_and_restore 1%float 2%float (Examples.library 1 16)%float
       Examples.water 1e-323%float 5%float
     = Returned [2.5; 2.5; 0]%float
  /\ Examples.set_and_restore 1%float 2%float (Examples.library 1 16)%float
       Examples.water 7%float 5%float
     <> Returned (Material.atom_density_ Examples.water).
Proof.
  split; [reflexivity |]. split; [reflexivity |].
  split; [vm_compute; reflexivity |]. split; [vm_compute; reflexivity |].
  split; [vm_compute; reflexivity |]. split; [vm_compute; reflexivity |].
  intros Heq.
  apply (f_equal (fun o => match o with
                           | Returned (a :: _) => PrimFloat.ltb a 2
                           | _ => false
                           end)) in Heq.
  vm_compute in Heq. discriminate Heq.
Qed.


(** The hypotheses of [material_cell_ends_descent] hold in the scene for
    the particle that has reached universe 2: the pin is bound, the frames
    add 2 (lattice), 1 (universe fill) and 0, the one material is 7 and
    the temperature of instance 3 is 4. *)
Lemma material_cell_ends_descent_witness :
  Geometry.binds Scene.everywhere (Scene.scene (Scene.tiles (0, 0, 0) 0.5))
    Scene.at_pin None 2 Scene.pin Scene.located
  /\ Geometry.instance_is (Scene.scene (Scene.tiles (0, 0, 0) 0.5))
       Scene.located Scene.pin 3
  /\ exists p',
       Scene.locate 1 (Scene.tiles (0, 0, 0) 0.5) Scene.at_pin
       = Returned (true, p', [])
       /\ Geometry.cell_instance p' = 3
       /\ Geometry.material p' = 8
       /\ Geometry.sqrtkT p' = 4%float.
Proof.
  assert (Hbinds : Geometry.binds Scene.everywhere
                     (Scene.scene (Scene.tiles (0, 0, 0) 0.5))
                     Scene.at_pin None 2 Scene.pin Scene.located)
    by (exists [2]; repeat split; reflexivity).
  assert (Hinst : Geometry.instance_is
                    (Scene.scene (Scene.tiles (0, 0, 0) 0.5))
                    Scene.located Scene.pin 3).
  { split; [discriminate |]. intros _. exists [2; 1; 0].
    split; [repeat constructor | reflexivity]. }
  split; [exact Hbinds |]. split; [exact Hinst |].
  destruct (material_cell_ends_descent Scene.everywhere Scene.MATERIAL_VOID
              Scene.NO_OUTER_UNIVERSE Scene.TINY_BIT 7 false 0
              (Scene.scene (Scene.tiles (0, 0, 0) 0.5)) Scene.at_pin
              Scene.located None [] 2 Scene.pin 3 7 4%float
              Hbinds eq_refl Hinst eq_refl eq_refl)
    as (p' & Hrun & Hci & _ & _ & Hm & _ & _ & HT & _).
  exists p'. split; [exact Hrun |]. split; [exact Hci |].
  split; [exact Hm | exact HT].
Defined.

(** C2 fails as stated: located in the pin, which has the one material 7
    and four temperatures, the particle has [cell_instance] 3; the
    [material_] vector has no entry 3, and the material is that of
    entry 0. *)
Lemma single_material_counterexample :
  exists p',
    Scene.locate 3 (Scene.tiles (0, 0, 0) 0.5) Scene.unlocated
    = Returned (true, p', [])
    /\ Geometry.n_coord p' = 3
    /\ Geometry.cell_instance p' = 3
    /\ Geometry.material_ Scene.pin = [7]
    /\ Geometry.material p' = Geometry.material_of Scene.MATERIAL_VOID 7
    /\ Geometry.sqrtkT p' = 4%float
    /\ ~ (exists mat,
           lookupZ (Geometry.material_ Scene.pin) (Geometry.cell_instance p')
           = Some mat
           /\ Geometry.material p'
              = Geometry.material_of Scene.MATERIAL_VOID mat).
Proof.
  exists Cases.pinned. split; [vm_compute; reflexivity |].
  do 5 (split; [vm_compute; reflexivity |]).
  intros (mat & Hmat & _). vm_compute in Hmat. discriminate Hmat.
Qed.

(** * Properties of the rest of the material code *)

Section MaterialApiFacts.

Import Material MaterialApi.

Set Default Proof Using "Type".

Context {R : Type} `{Arith R} `{ArithExt R}.

Variable run_CE : bool.
Variable MASS_NEUTRON : R.
Variable N_AVOGADRO : R.
Variable codes : ErrorCodes.
Variable OPENMC_E_UNASSIGNED : Z.
Variable nuclides_MG : list (Nuclide R).
Variable thermal_scatt : list ThermalScattering.
Variable openmc_load_nuclide : string -> Data R -> Z * Data R.

(** ** Bounds of the C API *)

Lemma index_in_bounds_lookup (mdl : Model R) (index : Z) :
  index_in_bounds mdl index = true ->
  exists m, materials mdl !! Z.to_nat (index - 1) = Some m.
Proof.
  unfold index_in_bounds. intros Hin. apply andb_prop in Hin as [H1 Hn].
  apply Z.leb_le in H1, Hn.
  destruct (materials mdl !! Z.to_nat (index - 1)) as [m |] eqn:Hm; [eauto |].
  apply lookup_ge_None in Hm. lia.
Qed.

(** X1: every function of the C API that takes a material index answers
    [OPENMC_E_OUT_OF_BOUNDS] for an index outside [1 .. size], hands back
    no value and leaves the materials, the id map and the data library as
    they are. *)
Theorem api_rejects_index_out_of_bounds (mdl : Model R) (d : Data R)
    (index id : Z) (name units : string) (x : R) :
  index < 1 \/ Z.of_nat (length (materials mdl)) < index ->
  openmc_material_get_densities codes mdl index
  = (OPENMC_E_OUT_OF_BOUNDS codes, None)
  /\ openmc_material_get_fissionable codes mdl index
     = (OPENMC_E_OUT_OF_BOUNDS codes, None)
  /\ openmc_material_get_id codes mdl index
     = (OPENMC_E_OUT_OF_BOUNDS codes, None)
  /\ openmc_material_get_volume codes OPENMC_E_UNASSIGNED mdl index
     = (OPENMC_E_OUT_OF_BOUNDS codes, None)
  /\ openmc_material_set_volume codes mdl index x
     = (OPENMC_E_OUT_OF_BOUNDS codes, mdl)
  /\ openmc_material_set_id codes mdl index id
     = (OPENMC_E_OUT_OF_BOUNDS codes, mdl)
  /\ openmc_material_set_density MASS_NEUTRON N_AVOGADRO codes mdl d index x
       units
     = Returned (OPENMC_E_OUT_OF_BOUNDS codes, mdl)
  /\ openmc_material_add_nuclide MASS_NEUTRON N_AVOGADRO codes
       openmc_load_nuclide mdl d index name x
     = Returned (OPENMC_E_OUT_OF_BOUNDS codes, mdl, d).
Proof.
  intros Hout.
  assert (Hb : index_in_bounds mdl index = false).
  { unfold index_in_bounds. apply andb_false_iff.
    destruct Hout; [left; apply Z.leb_gt | right; apply Z.leb_gt]; lia. }
  unfold openmc_material_get_densities, openmc_material_get_fissionable,
    openmc_material_get_id, openmc_material_get_volume,
    openmc_material_set_volume, openmc_material_set_id,
    openmc_material_set_density, openmc_material_add_nuclide.
  rewrite Hb. by repeat split.
Qed.

(** ** Ids *)

(** X2: after [openmc_material_set_id(index, id)] with an index in
    bounds, [openmc_material_get_id(index)] answers [id],
    [openmc_get_material_index(id)] answers [index], and the id of every
    other material is as before. *)
Theorem set_id_then_get (mdl : Model R) (index id : Z) :
  index_in_bounds mdl index = true ->
  in_int32 index ->
  openmc_material_get_id codes
    (openmc_material_set_id codes mdl index id).2 index = (0, Some id)
  /\ openmc_get_material_index codes
       (openmc_material_set_id codes mdl index id).2 id = (0, Some index)
  /\ (forall other, other <> index ->
        openmc_material_get_id codes
          (openmc_material_set_id codes mdl index id).2 other
        = openmc_material_get_id codes mdl other).
Proof.
  intros Hin Hint.
  destruct (index_in_bounds_lookup mdl index Hin) as [m Hm].
  assert (Hlen : (Z.to_nat (index - 1) < length (materials mdl))%nat)
    by (by apply lookup_lt_Some in Hm).
  unfold openmc_material_set_id. rewrite Hin, Hm. simpl.
  split; [| split].
  - unfold openmc_material_get_id, index_in_bounds. simpl.
    rewrite length_insert. fold (index_in_bounds mdl index). rewrite Hin.
    by rewrite list_lookup_insert_eq.
  - unfold openmc_get_material_index. simpl. rewrite lookup_insert_eq.
    do 2 f_equal. replace (index - 1 + 1) with index by lia.
    by apply wrap32_small.
  - intros other Hother.
    unfold openmc_material_get_id, index_in_bounds. simpl.
    rewrite length_insert.
    destruct ((1 <=? other) && (other <=? Z.of_nat (length (materials mdl))))
      eqn:Hb; [| reflexivity].
    apply andb_prop in Hb as [Ho1 Ho2]. apply Z.leb_le in Ho1.
    unfold index_in_bounds in Hin. apply andb_prop in Hin as [Hi1 _].
    apply Z.leb_le in Hi1.
    rewrite list_lookup_insert_ne by lia. reflexivity.
Qed.

(** ** Volumes *)

(** X3: [openmc_material_set_volume] with an index in bounds stores a
    volume that is [>= 0.0], after which [openmc_material_get_volume]
    answers it, and touches nothing else; a volume that is not [>= 0.0]
    (negative, or NaN) is answered with [OPENMC_E_INVALID_ARGUMENT] and
    changes nothing. *)
Theorem set_volume_then_get (mdl : Model R) (index : Z) (volume : R) :
  index_in_bounds mdl index = true ->
  (ge volume zero = true ->
     (openmc_material_set_volume codes mdl index volume).1 = 0
     /\ openmc_material_get_volume codes OPENMC_E_UNASSIGNED
          (openmc_material_set_volume codes mdl index volume).2 index
        = (0, Some volume)
     /\ material_map (openmc_material_set_volume codes mdl index volume).2
        = material_map mdl
     /\ (forall k, k <> Z.to_nat (index - 1) ->
           materials (openmc_material_set_volume codes mdl index volume).2 !! k
           = materials mdl !! k))
  /\ (ge volume zero = false ->
        openmc_material_set_volume codes mdl index volume
        = (OPENMC_E_INVALID_ARGUMENT codes, mdl)).
Proof.
  intros Hin.
  destruct (index_in_bounds_lookup mdl index Hin) as [m Hm].
  assert (Hlen : (Z.to_nat (index - 1) < length (materials mdl))%nat)
    by (by apply lookup_lt_Some in Hm).
  unfold openmc_material_set_volume. rewrite Hin, Hm.
  split; intros Hge; rewrite Hge; [| reflexivity]. simpl.
  split; [reflexivity |]. split; [| split; [reflexivity |]].
  - unfold openmc_material_get_volume, index_in_bounds. simpl.
    rewrite length_insert. fold (index_in_bounds mdl index). rewrite Hin.
    rewrite list_lookup_insert_eq by done. simpl. by rewrite Hge.
  - intros k Hk. by apply list_lookup_insert_ne.
Qed.

(** ** [openmc_extend_materials] *)

(** X4: [openmc_extend_materials(n, ...)] with [n >= 0] returns 0,
    reports the 1-based range [size+1 .. size+n], appends exactly [n]
    materials behind the existing ones, which stay in place, and leaves
    the id map alone: the new materials cannot be found by id. *)
Theorem extend_materials_appends (storage : nat -> Z * R * R)
    (mdl : Model R) (n : Z) :
  0 <= n ->
  Z.of_nat (length (materials mdl)) + Z.max 1 n < 2 ^ 31 ->
  (openmc_extend_materials storage mdl n).1.1.1 = 0
  /\ (openmc_extend_materials storage mdl n).1.1.2
     = Z.of_nat (length (materials mdl)) + 1
  /\ (openmc_extend_materials storage mdl n).1.2
     = Z.of_nat (length (materials mdl)) + n
  /\ Z.of_nat (length (materials (openmc_extend_materials storage mdl n).2))
     = Z.of_nat (length (materials mdl)) + n
  /\ take (length (materials mdl))
       (materials (openmc_extend_materials storage mdl n).2)
     = materials mdl
  /\ (forall id,
        openmc_get_material_index codes
          (openmc_extend_materials storage mdl n).2 id
        = openmc_get_material_index codes mdl id).
Proof.
  intros Hn Hsmall. unfold openmc_extend_materials. simpl.
  split; [reflexivity |].
  split; [apply wrap32_small; unfold in_int32; lia |].
  split; [apply wrap32_small; unfold in_int32; lia |].
  split; [| split].
  - rewrite length_app, length_map, length_seq. lia.
  - by rewrite take_app_length.
  - reflexivity.
Qed.

(** X5: a material made by [openmc_extend_materials] is in bounds and
    is empty: it is not fissionable, it has no volume
    ([OPENMC_E_UNASSIGNED]), it has no densities to hand out and
    [openmc_material_set_density] refuses it with [OPENMC_E_ALLOCATE],
    whatever the units, without changing anything. *)
Theorem extended_material_is_blank (storage : nat -> Z * R * R)
    (mdl : Model R) (d : Data R) (n index : Z) (x : R) (units : string) :
  ge (opp one) zero = false ->
  Z.of_nat (length (materials mdl)) + 1 <= index
    <= Z.of_nat (length (materials mdl)) + n ->
  openmc_material_get_fissionable codes
    (openmc_extend_materials storage mdl n).2 index = (0, Some false)
  /\ openmc_material_get_volume codes OPENMC_E_UNASSIGNED
       (openmc_extend_materials storage mdl n).2 index
     = (OPENMC_E_UNASSIGNED, None)
  /\ openmc_material_get_densities codes
       (openmc_extend_materials storage mdl n).2 index
     = (OPENMC_E_ALLOCATE codes, None)
  /\ openmc_material_set_density MASS_NEUTRON N_AVOGADRO codes
       (openmc_extend_materials storage mdl n).2 d index x units
     = Returned (OPENMC_E_ALLOCATE codes,
                 (openmc_extend_materials storage mdl n).2).
Proof.
  intros Hneg Hrange.
  set (k := Z.to_nat (index - 1 - Z.of_nat (length (materials mdl)))).
  assert (Hk : (k < Z.to_nat n)%nat) by lia.
  assert (Hlook : materials (openmc_extend_materials storage mdl n).2
                    !! Z.to_nat (index - 1)
                  = Some (new_Material (storage k))).
  { unfold openmc_extend_materials. simpl.
    rewrite lookup_app_r by lia.
    replace (Z.to_nat (index - 1) - length (materials mdl))%nat with k by lia.
    rewrite list_lookup_fmap, lookup_seq_lt by done. reflexivity. }
  assert (Hin : index_in_bounds
                  (openmc_extend_materials storage mdl n).2 index = true).
  { unfold index_in_bounds, openmc_extend_materials. simpl.
    rewrite length_app, length_map, length_seq.
    apply andb_true_intro. split; apply Z.leb_le; lia. }
  generalize dependent (openmc_extend_materials storage mdl n).2.
  intros mdl' Hlook Hin.
  unfold openmc_material_get_fissionable, openmc_material_get_volume,
    openmc_material_get_densities, openmc_material_set_density.
  rewrite Hin, Hlook, (at_nat_Some _ _ _ Hlook). simpl. rewrite Hneg.
  split; [reflexivity |]. split; [reflexivity |]. split; [reflexivity |].
  rewrite list_insert_id by exact Hlook. by destruct mdl'.
Qed.

(** ** [read_materials] *)

(** The ids of the materials from position [i] on are pairwise distinct
    and none of them is a key of [map]. *)
Local Abbreviation registrable mats i map :=
  (NoDup (id_ <$> drop i mats)
   /\ forall m : Material R, m ∈ drop i mats -> map !! id_ m = None).

Lemma register_after_fatal (mats : list (Material R)) (msg : FatalMessage) :
  forall n i,
    for_from i n (register_material mats) (Fatal msg) = Returned (Fatal msg).
Proof.
  induction n as [| n IH]; intros i; [reflexivity |].
  rewrite for_from_S. simpl. apply IH.
Qed.

Lemma register_loop (mats : list (Material R)) :
  forall n i (map : gmap Z Z),
    (i + n = length mats)%nat ->
    (registrable mats i map ->
       exists map',
         for_from i n (register_material mats) (Pass map)
         = Returned (Pass map')
         /\ (forall k m, (i <= k)%nat -> mats !! k = Some m ->
               map' !! id_ m = Some (Z.of_nat k))
         /\ (forall key, key ∉ id_ <$> drop i mats ->
               map' !! key = map !! key))
    /\ (~ registrable mats i map ->
          exists mid,
            mid ∈ id_ <$> mats
            /\ for_from i n (register_material mats) (Pass map)
               = Returned (Fatal (DuplicateMaterialId mid))).
Proof.
  induction n as [| n IH]; intros i map Hlen.
  - rewrite drop_ge by lia. split.
    + intros _. exists map. split; [reflexivity |]. split; [| done].
      intros k m Hk Hm. apply lookup_lt_Some in Hm. lia.
    + intros Hno. exfalso. apply Hno. split; [constructor |].
      intros m Hm. by apply elem_of_nil in Hm.
  - destruct (mats !! i) as [m |] eqn:Hm;
      [| apply lookup_ge_None in Hm; lia].
    rewrite (drop_S _ _ _ Hm), for_from_S. simpl.
    rewrite (at_nat_Some _ _ _ Hm), bind_Returned.
    destruct (IH (S i) (<[id_ m := Z.of_nat i]> map) ltac:(lia))
      as [IHpass IHfatal].
    destruct (map !! id_ m) as [old |] eqn:Hold.
    + rewrite bind_Returned, register_after_fatal. split.
      * intros [_ Hfresh]. specialize (Hfresh m ltac:(left)). congruence.
      * intros _. exists (id_ m). split; [| reflexivity].
        apply list_elem_of_fmap. exists m. split; [reflexivity |].
        by apply list_elem_of_lookup_2 in Hm.
    + rewrite bind_Returned. split.
      * intros [Hnodup Hfresh]. apply NoDup_cons in Hnodup as [Hnew Hnodup].
        destruct IHpass as (map' & Hrun & Hreg & Hkeep).
        { split; [exact Hnodup |]. intros m' Hm'.
          rewrite lookup_insert_ne.
          - apply Hfresh. by right.
          - intros Heq. apply Hnew. apply list_elem_of_fmap. eauto. }
        exists map'. split; [exact Hrun |]. split.
        -- intros k m' Hk Hm'. destruct (decide (k = i)) as [-> |].
           ++ assert (m' = m) as -> by congruence.
              rewrite Hkeep by exact Hnew. by rewrite lookup_insert_eq.
           ++ apply Hreg; [lia | exact Hm'].
        -- intros key Hkey. apply not_elem_of_cons in Hkey as [Hne Hkey].
           rewrite Hkeep by exact Hkey. by rewrite lookup_insert_ne.
      * intros Hno. apply IHfatal. intros [Hnodup Hfresh]. apply Hno. split.
        -- apply NoDup_cons. split; [| exact Hnodup].
           intros Hin. apply list_elem_of_fmap in Hin as (m' & Heq & Hm').
           specialize (Hfresh m' Hm'). rewrite <- Heq in Hfresh.
           by rewrite lookup_insert_eq in Hfresh.
        -- intros m' Hm'. apply elem_of_cons in Hm' as [-> | Hm'];
             [exact Hold |].
           specialize (Hfresh m' Hm').
           apply lookup_insert_None in Hfresh. tauto.
Qed.

(** X6: when the ids of all the materials of the vector (those already
    there and those just read) are pairwise distinct and none is a key of
    [model::material_map] yet, [read_materials] succeeds, every material
    can be found by its id, at its position, and no other key of the map
    changes. *)
Theorem read_materials_registers (parsed : list (Material R))
    (mdl : Model R) :
  NoDup (id_ <$> (materials mdl ++ parsed)) ->
  (forall m, m ∈ materials mdl ++ parsed -> material_map mdl !! id_ m = None) ->
  exists mdl',
    read_materials parsed mdl = Returned (Pass mdl')
    /\ materials mdl' = materials mdl ++ parsed
    /\ (forall k m, materials mdl' !! k = Some m ->
          material_map mdl' !! id_ m = Some (Z.of_nat k))
    /\ (forall key, key ∉ id_ <$> materials mdl' ->
          material_map mdl' !! key = material_map mdl !! key).
Proof.
  intros Hnodup Hfresh. unfold read_materials, for_loop.
  destruct (register_loop (materials mdl ++ parsed)
              (length (materials mdl ++ parsed)) 0 (material_map mdl)
              eq_refl) as [Hpass _].
  destruct Hpass as (map' & Hrun & Hreg & Hkeep); [by split |].
  rewrite Hrun, bind_Returned. eexists. split; [reflexivity |]. simpl.
  split; [reflexivity |]. split.
  - intros k m Hm. apply (Hreg k m); [lia | exact Hm].
  - exact Hkeep.
Qed.

(** X7: [read_materials] ends in [fatal_error] whenever two materials
    of the vector share an id or an id is already a key of the map (as
    after an earlier [read_materials]); the error then names an id of the
    vector. *)
Theorem read_materials_fatal_on_repeated_id (parsed : list (Material R))
    (mdl : Model R) :
  ~ (NoDup (id_ <$> (materials mdl ++ parsed))
     /\ forall m, m ∈ materials mdl ++ parsed ->
          material_map mdl !! id_ m = None) ->
  exists mid,
    mid ∈ id_ <$> (materials mdl ++ parsed)
    /\ read_materials parsed mdl = Returned (Fatal (DuplicateMaterialId mid)).
Proof.
  intros Hno. unfold read_materials, for_loop.
  destruct (register_loop (materials mdl ++ parsed)
              (length (materials mdl ++ parsed)) 0 (material_map mdl)
              eq_refl) as [_ Hfatal].
  destruct (Hfatal Hno) as (mid & Hmid & Hrun).
  exists mid. split; [exact Hmid |]. by rewrite Hrun.
Qed.

(** ** [Material::init_thermal] *)

(** The entry [t] records a table of [src] for a local nuclide whose
    name the table accepts. *)
Local Abbreviation accepted d m src t :=
  (exists (j : nat) i_nuc (n : Nuclide R) th (t0 : ThermalTable R),
     index_nuclide t = Z.of_nat j
     /\ nuclide_ m !! j = Some i_nuc
     /\ lookupZ (nuclides d) i_nuc = Some n
     /\ lookupZ thermal_scatt (index_table t) = Some th
     /\ contains (th_nuclides_ th) (nuc_name_ n) = true
     /\ t0 ∈ src /\ index_table t = index_table t0
     /\ fraction t = fraction t0).

Lemma match_nuclide_step (d : Data R) (m : Material R)
    (src tables : list (ThermalTable R)) (table : ThermalTable R) :
  table ∈ src ->
  forall j st st',
    match_nuclide thermal_scatt d m table j st = Returned st' ->
    (Forall (fun t => accepted d m src t) st.1
     /\ (exists ext, st.1 = tables ++ ext)
     /\ (st.2 = true ->
         exists t, t ∈ st.1 /\ index_table t = index_table table
                   /\ fraction t = fraction table)) ->
    Forall (fun t => accepted d m src t) st'.1
    /\ (exists ext, st'.1 = tables ++ ext)
    /\ (st'.2 = true ->
        exists t, t ∈ st'.1 /\ index_table t = index_table table
                  /\ fraction t = fraction table).
Proof.
  intros Hsrc j st st' Hrun (Hacc & [ext Hext] & Hfound).
  unfold match_nuclide in Hrun.
  apply bind_inv in Hrun as (i_nuc & Hnuc & Hrun).
  apply bind_inv in Hrun as (n & Hn & Hrun).
  apply bind_inv in Hrun as (th & Hth & Hrun).
  apply at_nat_inv in Hnuc. apply at_Z_inv in Hn, Hth.
  destruct (contains (th_nuclides_ th) (nuc_name_ n)) eqn:Hc;
    injection Hrun as <-; [| by eauto].
  simpl. split; [| split].
  - apply Forall_app. split; [exact Hacc |].
    apply Forall_singleton. by exists j, i_nuc, n, th, table.
  - exists (ext ++ [{| index_table := index_table table;
                       index_nuclide := Z.of_nat j;
                       fraction := fraction table |}]).
    by rewrite Hext, app_assoc.
  - intros _. eexists. split; [| split].
    + apply elem_of_app. right. by apply list_elem_of_singleton.
    + reflexivity.
    + reflexivity.
Qed.

Lemma assign_tables_inv (d : Data R) (m : Material R)
    (src : list (ThermalTable R)) :
  forall todo tables res,
    (forall t, t ∈ todo -> t ∈ src) ->
    Forall (fun t => accepted d m src t) tables ->
    assign_tables thermal_scatt d m todo tables = Returned (Pass res) ->
    Forall (fun t => accepted d m src t) res
    /\ (exists ext, res = tables ++ ext)
    /\ (forall t0, t0 ∈ todo ->
          exists t, t ∈ res /\ index_table t = index_table t0
                    /\ fraction t = fraction t0).
Proof.
  induction todo as [| table rest IH]; intros tables res Hsub Hacc Hrun.
  - injection Hrun as <-. split; [exact Hacc |]. split.
    + exists []. by rewrite app_nil_r.
    + intros t0 Ht0. by apply elem_of_nil in Ht0.
  - simpl in Hrun. apply bind_inv in Hrun as (st & Hloop & Hrun).
    assert (Hst : Forall (fun t => accepted d m src t) st.1
                  /\ (exists ext, st.1 = tables ++ ext)
                  /\ (st.2 = true ->
                      exists t, t ∈ st.1 /\ index_table t = index_table table
                                /\ fraction t = fraction table)).
    { unfold for_loop in Hloop.
      apply (for_from_invariant _ _
               (match_nuclide_step d m src tables table
                  (Hsub table ltac:(left))) _ _ _ _ Hloop).
      simpl. split; [exact Hacc |]. split; [| discriminate].
      exists []. by rewrite app_nil_r. }
    destruct Hst as (Hacc' & [ext Hext] & Hfound).
    destruct st as [tables' found]. simpl in *.
    destruct found.
    + apply IH in Hrun as (Hres & [ext' Hext'] & Hall);
        [| by intros t Ht; apply Hsub; right | exact Hacc'].
      split; [exact Hres |]. split.
      * exists (ext ++ ext'). by rewrite Hext', Hext, app_assoc.
      * intros t0 Ht0. apply elem_of_cons in Ht0 as [-> | Ht0];
          [| by apply Hall].
        destruct (Hfound eq_refl) as (t & Ht & Heq).
        exists t. split; [| exact Heq].
        rewrite Hext'. apply elem_of_app. by left.
    + destruct (at_Z thermal_scatt (index_table table)); discriminate.
Qed.

Lemma repeated_slot_None (tables : list (ThermalTable R)) :
  repeated_slot tables = None -> NoDup (index_nuclide <$> tables).
Proof.
  induction tables as [| t rest IH]; intros Hnone; [constructor |].
  simpl in Hnone.
  destruct (existsb (fun t' => index_nuclide t =? index_nuclide t') rest)
    eqn:Hex; [discriminate |].
  rewrite fmap_cons. apply NoDup_cons. split; [| by apply IH].
  intros Hin. apply list_elem_of_fmap in Hin as (t' & Heq & Ht').
  assert (Htrue : existsb (fun t' => index_nuclide t =? index_nuclide t') rest
                  = true).
  { apply existsb_exists. exists t'. split.
    - by apply list_elem_of_In.
    - by apply Z.eqb_eq. }
  congruence.
Qed.

Lemma sorted_distinct_slots (l : list (ThermalTable R)) :
  StronglySorted by_slot l -> NoDup (index_nuclide <$> l) ->
  StronglySorted before_slot l.
Proof.
  induction 1 as [| a l Hsorted IH Hall]; intros Hnodup; [constructor |].
  rewrite fmap_cons in Hnodup. apply NoDup_cons in Hnodup as [Hnew Hnodup].
  constructor; [by apply IH |].
  rewrite Forall_forall in Hall |- *. intros b Hb.
  specialize (Hall b Hb). unfold by_slot in Hall. unfold before_slot.
  assert (index_nuclide a <> index_nuclide b); [| lia].
  intros Heq. apply Hnew. rewrite Heq. apply list_elem_of_fmap. eauto.
Qed.

Lemma same_slot_same_entry (l : list (ThermalTable R))
    (a b : ThermalTable R) :
  NoDup (index_nuclide <$> l) -> a ∈ l -> b ∈ l ->
  index_nuclide a = index_nuclide b -> a = b.
Proof.
  induction l as [| c l IH]; intros Hnodup Ha Hb Heq;
    [by apply elem_of_nil in Ha |].
  rewrite fmap_cons in Hnodup. apply NoDup_cons in Hnodup as [Hnew Hnodup].
  apply elem_of_cons in Ha as [-> | Ha], Hb as [-> | Hb].
  - reflexivity.
  - exfalso. apply Hnew. rewrite Heq. apply list_elem_of_fmap. eauto.
  - exfalso. apply Hnew. rewrite <- Heq. apply list_elem_of_fmap. eauto.
  - by apply IH.
Qed.

Lemma by_slot_transitive : Transitive (@by_slot R).
Proof. intros a b c. unfold by_slot. lia. Qed.

Lemma by_slot_total : Total (@by_slot R).
Proof. intros a b. unfold by_slot. lia. Qed.

(** X8: when [init_thermal] goes through, it rewrites nothing but
    [thermal_tables_]; the new entries are sorted by strictly increasing
    local nuclide slot; each of them binds a table of the old vector to a
    nuclide of the material whose name the table lists; every table of
    the old vector is bound at least once; and the new vector is the only
    arrangement of its entries that is ordered by slot, so the result
    does not depend on how [std::sort] sorts. *)
Theorem init_thermal_sorts_by_slot (d : Data R) (m m' : Material R) :
  init_thermal thermal_scatt d m = Returned (Pass m') ->
  m' = set_thermal_tables_ m (thermal_tables_ m')
  /\ StronglySorted before_slot (thermal_tables_ m')
  /\ (forall t, t ∈ thermal_tables_ m' ->
        exists (j : nat) i_nuc n th t0,
          index_nuclide t = Z.of_nat j
          /\ nuclide_ m !! j = Some i_nuc
          /\ lookupZ (nuclides d) i_nuc = Some n
          /\ lookupZ thermal_scatt (index_table t) = Some th
          /\ contains (th_nuclides_ th) (nuc_name_ n) = true
          /\ t0 ∈ thermal_tables_ m /\ index_table t = index_table t0
          /\ fraction t = fraction t0)
  /\ (forall t0, t0 ∈ thermal_tables_ m ->
        exists t, t ∈ thermal_tables_ m'
                  /\ index_table t = index_table t0
                  /\ fraction t = fraction t0)
  /\ (forall l', l' ≡ₚ thermal_tables_ m' -> StronglySorted by_slot l' ->
        l' = thermal_tables_ m').
Proof.
  intros Hrun. unfold init_thermal in Hrun.
  apply bind_inv in Hrun as (assigned & Hassign & Hrun).
  destruct assigned as [tables | msg]; [| discriminate].
  destruct (repeated_slot tables) as [slot |] eqn:Hrep.
  { destruct (at_Z (nuclide_ m) slot) as [index | |]; [| discriminate..].
    simpl in Hrun.
    destruct (at_Z (nuclides d) index); discriminate. }
  injection Hrun as <-. simpl.
  apply assign_tables_inv with (src := thermal_tables_ m) in Hassign
    as (Hacc & _ & Hall); [| done | constructor].
  apply repeated_slot_None in Hrep.
  pose proof (merge_sort_Permutation by_slot tables) as Hperm.
  assert (Hnodup : NoDup (index_nuclide <$> merge_sort by_slot tables))
    by (by rewrite Hperm).
  split; [reflexivity |]. split; [| split; [| split]].
  - apply sorted_distinct_slots; [| exact Hnodup].
    apply StronglySorted_merge_sort;
      [apply by_slot_transitive | apply by_slot_total].
  - intros t Ht. rewrite Hperm in Ht.
    rewrite Forall_forall in Hacc. by apply Hacc.
  - intros t0 Ht0. destruct (Hall t0 Ht0) as (t & Ht & Heq).
    exists t. split; [by rewrite Hperm | exact Heq].
  - intros l' Hl' Hsorted.
    apply (StronglySorted_unique_strong by_slot); [| exact Hsorted | | exact Hl'].
    + intros x1 x2 Hx1 Hx2 H12 H21. unfold by_slot in H12, H21.
      apply (same_slot_same_entry (merge_sort by_slot tables));
        [exact Hnodup | by rewrite <- Hl' | exact Hx2 | lia].
    + apply StronglySorted_merge_sort;
      [apply by_slot_transitive | apply by_slot_total].
Qed.

End MaterialApiFacts.

(** * Properties of the cross-section loops *)

(** A loop whose body returns on every state the invariant allows
    returns. *)
Lemma for_from_returns {St} (P : nat -> St -> Prop)
    (body : nat -> St -> outcome St) (bound : nat) :
  (forall i s, (i < bound)%nat -> P i s ->
     exists s', body i s = Returned s' /\ P (S i) s') ->
  forall n i s, (i + n <= bound)%nat -> P i s ->
    exists s', for_from i n body s = Returned s' /\ P (i + n)%nat s'.
Proof.
  intros Hbody. induction n as [| n IH]; intros i s Hle Hs.
  - exists s. rewrite Nat.add_0_r. by split.
  - destruct (Hbody i s ltac:(lia) Hs) as (s1 & H1 & Hs1).
    rewrite for_from_S, H1, bind_Returned.
    destruct (IH (S i) s1 ltac:(lia) Hs1) as (s' & Hrun & Hs').
    exists s'. split; [exact Hrun |].
    by replace (i + S n)%nat with (S i + n)%nat by lia.
Qed.

Lemma sorted_lookup {R} (l : list (Material.ThermalTable R)) :
  StronglySorted MaterialApi.before_slot l ->
  forall a b x y, (a < b)%nat -> l !! a = Some x -> l !! b = Some y ->
    Material.index_nuclide x < Material.index_nuclide y.
Proof.
  induction 1 as [| t l Hsorted IH Hall]; intros a b x y Hab Hx Hy.
  - by rewrite lookup_nil in Hx.
  - destruct b as [| b]; [lia |]. simpl in Hy. destruct a as [| a].
    + injection Hx as <-. rewrite Forall_forall in Hall.
      apply Hall. by apply list_elem_of_lookup_2 in Hy.
    + simpl in Hx. apply (IH a b); [lia | done..].
Qed.

Section CrossSectionFacts.

Import Material MaterialApi.

Set Default Proof Using "Type".

Context {R : Type} `{Arith R}.

Variable log : R -> R.
Variable to_int : R -> Z.
Variable log_spacing : R.
Variable energy_min : ParticleType -> R.
Context {Sab Elem : Type}.
Variable thermal_scatt : list Sab.
Variable elements : list Elem.
Variable Nuclide_calculate_xs :
  Z -> Z -> R -> Z -> R -> R -> (Z -> NuclideMicroXS R) -> Z -> NuclideMicroXS R.
Variable Element_calculate_xs :
  Z -> R -> (Z -> ElementMicroXS R) -> Z -> ElementMicroXS R.
Variable threshold : Sab -> R.

Local Abbreviation sab_binding :=
  (Material.sab_binding thermal_scatt threshold).
Local Abbreviation neutron_nuclide :=
  (Material.neutron_nuclide thermal_scatt Nuclide_calculate_xs threshold).
Local Abbreviation photon_nuclide :=
  (Material.photon_nuclide elements Element_calculate_xs).
Local Abbreviation calculate_xs :=
  (Material.calculate_xs log to_int log_spacing energy_min thermal_scatt
     elements Nuclide_calculate_xs Element_calculate_xs threshold).

(** ** The loops stay inside the vectors *)

Lemma sab_binding_returns (m : Material R) (p : Particle R) (i : nat)
    (cur : SabCursor) :
  (forall t, t ∈ thermal_tables_ m ->
     is_Some (lookupZ thermal_scatt (index_table t))) ->
  (check_sab cur = true -> (j cur < length (thermal_tables_ m))%nat) ->
  exists b f cur',
    sab_binding m p i cur = Returned (b, f, cur')
    /\ (check_sab cur' = true -> (j cur' < length (thermal_tables_ m))%nat).
Proof.
  intros Htables Hcur. unfold Material.sab_binding.
  destruct (check_sab cur) eqn:Hcheck;
    [| do 3 eexists; split; [reflexivity | intros; congruence]].
  specialize (Hcur eq_refl).
  destruct (thermal_tables_ m !! j cur) as [sab |] eqn:Hsab;
    [| apply lookup_ge_None in Hsab; lia].
  rewrite (at_nat_Some _ _ _ Hsab), bind_Returned.
  destruct (Z.of_nat i =? index_nuclide sab).
  - destruct (Htables sab) as [table Htable];
      [by apply list_elem_of_lookup_2 in Hsab |].
    rewrite (at_Z_Some _ _ _ Htable), bind_Returned.
    do 3 eexists. split; [reflexivity |]. cbn [j check_sab].
    destruct (Nat.eqb_spec (S (j cur)) (length (thermal_tables_ m)));
      [discriminate | lia].
  - do 3 eexists. split; [reflexivity |]. rewrite Hcheck. by intros _.
Qed.

(** X9: [Material::calculate_xs] returns, having read no element outside
    a vector, for every particle type and every state of the caches, when
    the material holds an atom density for each of its nuclides and: for
    a neutron, every global nuclide index of the material is inside
    [data::nuclides] and the table index of every thermal table inside
    [data::thermal_scatt]; for a photon, the material holds an element
    index for each of its nuclides, each inside [data::elements].  (The
    caches [micro_xs] and [micro_photon_xs] are raw arrays whose extent
    the sources do not give.) *)
Theorem calculate_xs_stays_in_range (d : Data R) (m : Material R)
    (p : Particle R) (xs : XsState R) :
  (length (nuclide_ m) <= length (atom_density_ m))%nat ->
  (type p = neutron ->
     (forall g, g ∈ nuclide_ m -> is_Some (lookupZ (nuclides d) g))
     /\ (forall t, t ∈ thermal_tables_ m ->
           is_Some (lookupZ thermal_scatt (index_table t)))) ->
  (type p = photon ->
     (length (nuclide_ m) <= length (element_ m))%nat
     /\ (forall i e, (i < length (nuclide_ m))%nat ->
           element_ m !! i = Some e -> is_Some (lookupZ elements e))) ->
  exists xs', calculate_xs d m p xs = Returned xs'.
Proof.
  intros Hdens Hneutron Hphoton. unfold Material.calculate_xs.
  destruct (type p) eqn:Htype; [| | by eauto..].
  - destruct (Hneutron eq_refl) as [Hlib Htables].
    unfold Material.calculate_neutron_xs, for_loop.
    destruct (for_from_returns
                (fun _ (st : XsState R * SabCursor) =>
                   check_sab st.2 = true ->
                   (j st.2 < length (thermal_tables_ m))%nat)
                (neutron_nuclide d m p
                   (to_int (log (E p / energy_min neutron) / log_spacing)%ar))
                (length (nuclide_ m))) with
      (n := length (nuclide_ m)) (i := 0%nat)
      (s := (set_material_xs xs (zero_common (material_xs xs)),
             {| j := 0;
                check_sab := negb (Nat.eqb (length (thermal_tables_ m)) 0) |}))
      as (st & Hrun & _).
    + intros i [xs1 cur] Hi Hcur. simpl in Hcur.
      destruct (sab_binding_returns m p i cur Htables Hcur)
        as (b & f & cur' & Hbind & Hcur').
      destruct (nuclide_ m !! i) as [g |] eqn:Hg;
        [| apply lookup_ge_None in Hg; lia].
      destruct (atom_density_ m !! i) as [N |] eqn:HN;
        [| apply lookup_ge_None in HN; lia].
      destruct (Hlib g) as [nd Hnd]; [by apply list_elem_of_lookup_2 in Hg |].
      unfold Material.neutron_nuclide. cbn [fst snd].
      rewrite Hbind, bind_Returned.
      rewrite (at_nat_Some _ _ _ Hg), bind_Returned.
      destruct (tuple_differs p b f (micro_xs xs1 g)).
      * unfold refresh_nuclide.
        rewrite (at_Z_Some _ _ _ Hnd), !bind_Returned.
        rewrite (at_nat_Some _ _ _ HN), bind_Returned.
        eexists. split; [reflexivity |]. exact Hcur'.
      * rewrite bind_Returned, (at_nat_Some _ _ _ HN), bind_Returned.
        eexists. split; [reflexivity |]. exact Hcur'.
    + lia.
    + simpl. destruct (Nat.eqb_spec (length (thermal_tables_ m)) 0);
        [discriminate | lia].
    + rewrite Hrun. by eauto.
  - destruct (Hphoton eq_refl) as [Helem Hin].
    unfold Material.calculate_photon_xs, for_loop.
    destruct (for_from_returns (fun _ (_ : XsState R) => True)
                (photon_nuclide m p) (length (nuclide_ m))) with
      (n := length (nuclide_ m)) (i := 0%nat)
      (s := set_material_xs
              (set_material_xs xs (zero_common (material_xs xs)))
              (zero_photon
                 (material_xs
                    (set_material_xs xs (zero_common (material_xs xs))))))
      as (st & Hrun & _); [| lia | done | by eauto].
    intros i xs1 Hi _.
    destruct (element_ m !! i) as [e |] eqn:He;
      [| apply lookup_ge_None in He; lia].
    destruct (atom_density_ m !! i) as [N |] eqn:HN;
      [| apply lookup_ge_None in HN; lia].
    destruct (Hin i e Hi He) as [el Hel].
    unfold Material.photon_nuclide.
    rewrite (at_nat_Some _ _ _ He), bind_Returned.
    destruct (E p != e_last_E (micro_photon_xs xs1 e))%ar.
    + unfold refresh_element.
      rewrite (at_Z_Some _ _ _ Hel), !bind_Returned.
      rewrite (at_nat_Some _ _ _ HN), bind_Returned. by eauto.
    + rewrite bind_Returned, (at_nat_Some _ _ _ HN), bind_Returned. by eauto.
Qed.

(** ** The cursor over the thermal tables *)

(** Where the cursor stands before local nuclide [i] when the tables are
    sorted: behind the entries of the slots below [i]. *)
Local Abbreviation cursor_at m i cur :=
  ((forall (k : nat) (t : ThermalTable R), thermal_tables_ m !! k = Some t ->
      (Nat.lt k (j cur) <-> index_nuclide t < Z.of_nat i))
   /\ check_sab cur = negb (Nat.eqb (j cur) (length (thermal_tables_ m)))
   /\ Nat.le (j cur) (length (thermal_tables_ m))).

(** With sorted tables the S(a,b) check at local nuclide [i] either
    meets the one table of slot [i], whose data it reads, or binds no
    table and leaves the cursor. *)
Lemma sab_binding_sorted (m : Material R) (p : Particle R) (i : nat)
    (cur : SabCursor) :
  StronglySorted before_slot (thermal_tables_ m) ->
  cursor_at m i cur ->
  (exists t next,
     t ∈ thermal_tables_ m
     /\ index_nuclide t = Z.of_nat i
     /\ (forall t', t' ∈ thermal_tables_ m ->
           index_nuclide t' = Z.of_nat i -> t' = t)
     /\ sab_binding m p i cur
        = (table ← at_Z thermal_scatt (index_table t);
           mret (if (E p > threshold table)%ar then C_NONE else index_table t,
                 fraction t, next))
     /\ cursor_at m (S i) next)
  \/ ((forall t, t ∈ thermal_tables_ m -> index_nuclide t <> Z.of_nat i)
      /\ sab_binding m p i cur = Returned (C_NONE, zero, cur)
      /\ cursor_at m (S i) cur).
Proof.
  intros Hsorted (Hpos & Hcheck & Hle). unfold Material.sab_binding.
  destruct (Nat.eqb_spec (j cur) (length (thermal_tables_ m))) as [Hend | Hin];
    rewrite Hcheck; cbn [negb].
  - (* no table is left *)
    right. split; [| split; [reflexivity |]].
    + intros t Ht Hslot. apply list_elem_of_lookup in Ht as [k Hk].
      pose proof (lookup_lt_Some _ _ _ Hk).
      pose proof (proj1 (Hpos k t Hk) ltac:(lia)). lia.
    + split; [| split; [| exact Hle]].
      * intros k t Ht. pose proof (lookup_lt_Some _ _ _ Ht).
        pose proof (proj1 (Hpos k t Ht) ltac:(lia)). lia.
      * by destruct (Nat.eqb_spec (j cur) (length (thermal_tables_ m))).
  - destruct (thermal_tables_ m !! j cur) as [sab |] eqn:Hsab;
      [| apply lookup_ge_None in Hsab; lia].
    rewrite (at_nat_Some _ _ _ Hsab), bind_Returned.
    assert (Hnot : ~ index_nuclide sab < Z.of_nat i)
      by (intros Hlt; apply (Hpos _ _ Hsab) in Hlt; lia).
    destruct (Z.eqb_spec (Z.of_nat i) (index_nuclide sab)) as [Heq | Hne].
    + (* the table of this slot *)
      left. eexists sab, _.
      split; [by apply list_elem_of_lookup_2 in Hsab |].
      split; [done |]. split; [| split; [reflexivity |]].
      * intros t Ht Hslot. apply list_elem_of_lookup in Ht as [k Hk].
        destruct (lt_eq_lt_dec k (j cur)) as [[Hlt | ->] | Hgt].
        -- pose proof (proj1 (Hpos k t Hk) Hlt). lia.
        -- congruence.
        -- pose proof (sorted_lookup _ Hsorted _ _ _ _ Hgt Hsab Hk). lia.
      * cbn [j check_sab]. split; [| split; [| lia]].
        -- intros k t Ht. destruct (lt_eq_lt_dec k (j cur)) as [[Hk | ->] | Hk].
           ++ pose proof (proj1 (Hpos k t Ht) Hk). lia.
           ++ assert (t = sab) as -> by congruence. lia.
           ++ pose proof (sorted_lookup _ Hsorted _ _ _ _ Hk Hsab Ht). lia.
        -- by destruct (Nat.eqb_spec (S (j cur)) (length (thermal_tables_ m))).
    + (* a table of a later slot *)
      right. split; [| split; [reflexivity |]].
      * intros t Ht Hslot. apply list_elem_of_lookup in Ht as [k Hk].
        destruct (lt_eq_lt_dec k (j cur)) as [[Hlt | ->] | Hgt].
        -- pose proof (proj1 (Hpos k t Hk) Hlt). lia.
        -- assert (t = sab) as -> by congruence. lia.
        -- pose proof (sorted_lookup _ Hsorted _ _ _ _ Hgt Hsab Hk). lia.
      * split; [| split; [| exact Hle]].
        -- intros k t Ht. destruct (lt_eq_lt_dec k (j cur)) as [[Hk | ->] | Hk].
           ++ pose proof (proj1 (Hpos k t Ht) Hk). lia.
           ++ assert (t = sab) as -> by congruence. lia.
           ++ pose proof (sorted_lookup _ Hsorted _ _ _ _ Hk Hsab Ht). lia.
        -- by destruct (Nat.eqb_spec (j cur) (length (thermal_tables_ m))).
Qed.

Lemma neutron_nuclide_cursor (d : Data R) (m : Material R) (p : Particle R)
    (i_grid : Z) (i : nat) (st st' : XsState R * SabCursor) :
  neutron_nuclide d m p i_grid i st = Returned st' ->
  exists b f, sab_binding m p i st.2 = Returned (b, f, st'.2).
Proof.
  unfold Material.neutron_nuclide. intros Hrun.
  apply bind_inv in Hrun as ([[b f] cur'] & Hbind & Hrun).
  apply bind_inv in Hrun as (g & _ & Hrun).
  apply bind_inv in Hrun as (xs' & _ & Hrun).
  apply bind_inv in Hrun as (N & _ & Hrun).
  injection Hrun as <-. by exists b, f.
Qed.

Lemma cursor_after_loop (d : Data R) (m : Material R) (p : Particle R)
    (i_grid : Z) (xs : XsState R) :
  StronglySorted before_slot (thermal_tables_ m) ->
  (forall t, t ∈ thermal_tables_ m -> 0 <= index_nuclide t) ->
  forall i st,
    for_loop i (neutron_nuclide d m p i_grid)
      (xs, {| j := 0;
              check_sab := negb (Nat.eqb (length (thermal_tables_ m)) 0) |})
    = Returned st ->
    cursor_at m i st.2.
Proof.
  intros Hsorted Hslots. induction i as [| i IH]; intros st Hrun.
  - injection Hrun as <-. simpl. split; [| split; [| lia]].
    + intros k t Ht. apply list_elem_of_lookup_2, Hslots in Ht. lia.
    + by rewrite Nat.eqb_sym.
  - unfold for_loop in Hrun. rewrite for_from_last in Hrun.
    change (0 + i)%nat with i in Hrun.
    apply bind_inv in Hrun as (st1 & Hrun1 & Hstep).
    apply IH in Hrun1.
    apply neutron_nuclide_cursor in Hstep as (b & f & Hbind).
    destruct (sab_binding_sorted m p i st1.2 Hsorted Hrun1)
      as [(t & next & _ & _ & _ & Hbind' & Hnext) | (_ & Hbind' & Hsame)].
    + rewrite Hbind in Hbind'. symmetry in Hbind'.
      apply bind_inv in Hbind' as (table & _ & Hbind').
      injection Hbind' as _ _ ->. exact Hnext.
    + rewrite Hbind in Hbind'. injection Hbind' as _ _ ->. exact Hsame.
Qed.

(** X10: with the thermal tables sorted by strictly increasing slot (as
    [init_thermal] leaves them) and no negative slot, the cursor of the
    neutron loop binds every table to its own nuclide: at local nuclide
    [i] the loop uses the table whose slot is [i] (with [i_sab] reset to
    [C_NONE] above the threshold energy of the table's data, read from
    [data::thermal_scatt]; a table index outside that vector is undefined
    behaviour), and no table when no entry has slot [i]. *)
Theorem sorted_tables_bind_their_slot (d : Data R) (m : Material R)
    (p : Particle R) (i_grid : Z) (xs : XsState R) (i : nat)
    (st : XsState R * SabCursor) :
  StronglySorted before_slot (thermal_tables_ m) ->
  (forall t, t ∈ thermal_tables_ m -> 0 <= index_nuclide t) ->
  for_loop i (neutron_nuclide d m p i_grid)
    (xs, {| j := 0;
            check_sab := negb (Nat.eqb (length (thermal_tables_ m)) 0) |})
  = Returned st ->
  (forall t, t ∈ thermal_tables_ m -> index_nuclide t = Z.of_nat i ->
     match lookupZ thermal_scatt (index_table t) with
     | Some table =>
         exists cur',
           sab_binding m p i st.2
           = Returned (if (E p > threshold table)%ar then C_NONE
                       else index_table t,
                       fraction t, cur')
     | None => sab_binding m p i st.2 = Undefined
     end)
  /\ ((forall t, t ∈ thermal_tables_ m -> index_nuclide t <> Z.of_nat i) ->
        sab_binding m p i st.2 = Returned (C_NONE, zero, st.2)).
Proof.
  intros Hsorted Hslots Hrun.
  pose proof (cursor_after_loop d m p i_grid xs Hsorted Hslots i st Hrun)
    as Hcur.
  destruct (sab_binding_sorted m p i st.2 Hsorted Hcur)
    as [(t0 & next & Ht0 & Hslot0 & Honly & Hbind & _) | (Hnone & Hbind & _)].
  - split.
    + intros t Ht Hslot. rewrite (Honly t Ht Hslot), Hbind. unfold at_Z.
      destruct (lookupZ thermal_scatt (index_table t0)) as [table |];
        [by exists next | reflexivity].
    + intros Hno. by destruct (Hno t0 Ht0).
  - split; [| by intros _].
    intros t Ht Hslot. by destruct (Hnone t Ht).
Qed.

End CrossSectionFacts.

(** * Properties of the density updates *)

Section DensityFacts.

Import Material MaterialApi.

Set Default Proof Using "Type".

Context {R : Type} `{Arith R}.

Variable MASS_NEUTRON : R.
Variable N_AVOGADRO : R.
Variable codes : ErrorCodes.

Local Abbreviation set_density :=
  (Material.set_density MASS_NEUTRON N_AVOGADRO codes).

(** X11: [Material::set_density] looks at the nuclides before it looks
    at the units: a material without nuclides is refused with
    [OPENMC_E_ALLOCATE] whatever the units, a material with nuclides and
    units other than "atom/b-cm", "g/cm3" and "g/cc" with
    [OPENMC_E_INVALID_ARGUMENT]; in both cases nothing is changed.  With
    "g/cm3" or "g/cc" the call returns 0 without reading the data library
    or the nuclides, and both spellings give the same material. *)
Theorem set_density_refusals (d : Data R) (m : Material R) (x : R)
    (units : string) :
  (nuclide_ m = [] ->
     set_density d m x units = Returned (OPENMC_E_ALLOCATE codes, m))
  /\ (nuclide_ m <> [] ->
      units <> "atom/b-cm"%string -> units <> "g/cm3"%string ->
      units <> "g/cc"%string ->
      set_density d m x units = Returned (OPENMC_E_INVALID_ARGUMENT codes, m))
  /\ (nuclide_ m <> [] ->
      exists m',
        set_density d m x "g/cm3" = Returned (0, m')
        /\ set_density d m x "g/cc" = Returned (0, m')
        /\ density_gpcc_ m' = x
        /\ nuclide_ m' = nuclide_ m
        /\ length (atom_density_ m') = length (atom_density_ m)).
Proof.
  unfold Material.set_density. split; [| split].
  - by intros ->.
  - intros Hne H1 H2 H3. destruct (nuclide_ m); [done |].
    apply String.eqb_neq in H1, H2, H3. by rewrite H1, H2, H3.
  - intros Hne. destruct (nuclide_ m) eqn:Hnuc; [done |].
    eexists. split; [reflexivity |]. split; [reflexivity |]. simpl.
    split; [reflexivity |]. split; [exact Hnuc |].
    unfold xmul. by rewrite length_map.
Qed.

End DensityFacts.

Section NormalizeFacts.

Import Material MaterialApi.

Set Default Proof Using "Type".

Context {R : Type} `{Arith R} `{ArithExt R}.

Variable run_CE : bool.
Variable MASS_NEUTRON : R.
Variable N_AVOGADRO : R.
Variable nuclides_MG : list (Nuclide R).

Local Abbreviation normalize_density :=
  (MaterialApi.normalize_density run_CE MASS_NEUTRON N_AVOGADRO nuclides_MG).

(** X15: for a material given in atom percents (a positive first
    entry), [normalize_density] keeps the nuclides and does not touch the
    percents in its first loop: every per-nuclide density comes out as the
    percent divided by the sum, from the left, of the percents and
    multiplied by the total density, in the code's arithmetic; a total
    density given in atom/b-cm (positive) is kept as it is. *)
Theorem normalize_density_atom_percents (d : Data R) (m m' : Material R) :
  normalize_density d m = Returned m' ->
  (exists a0, atom_density_ m !! 0%nat = Some a0 /\ (a0 > zero)%ar = true) ->
  nuclide_ m' = nuclide_ m
  /\ atom_density_ m'
     = xmul (xdiv (atom_density_ m) (xsum (atom_density_ m))) (density_ m')
  /\ ((density_ m > zero)%ar = true -> density_ m' = density_ m).
Proof.
  intros Hrun (a0 & Ha0 & Hpos).
  unfold MaterialApi.normalize_density in Hrun.
  rewrite (at_nat_Some _ _ _ Ha0), bind_Returned, Hpos in Hrun.
  apply bind_inv in Hrun as (ad1 & Had1 & Hrun).
  assert (ad1 = atom_density_ m) as ->.
  { unfold for_loop in Had1.
    refine (for_from_invariant (fun ad => ad = atom_density_ m) _ _
              _ _ _ _ Had1 eq_refl).
    intros i s s' Hstep ->. unfold to_atom_percent in Hstep.
    apply bind_inv in Hstep as (i_nuc & _ & Hstep).
    apply bind_inv in Hstep as (awr & _ & Hstep). by injection Hstep as <-. }
  apply bind_inv in Hrun as (density & Hdens & Hrun).
  assert (Hkeep : (density_ m > zero)%ar = true -> density = density_ m).
  { intros Hatom. rewrite Hatom in Hdens. by injection Hdens as <-. }
  apply bind_inv in Hrun as (g & _ & Hrun). injection Hrun as <-.
  cbn [atom_density_ density_ nuclide_ set_density_gpcc_ set_atom_density_
         set_density_].
  split; [reflexivity |]. split; [reflexivity | exact Hkeep].
Qed.

End NormalizeFacts.

(** * Properties of the whole descent *)

Lemma lookupZ_range {A} (l : list A) (i : Z) (c : A) :
  lookupZ l i = Some c -> 0 <= i < Z.of_nat (length l).
Proof.
  unfold lookupZ. destruct (i <? 0) eqn:Hneg; [discriminate |].
  apply Z.ltb_ge in Hneg. intros Hc. apply lookup_lt_Some in Hc. lia.
Qed.

Lemma lookupZ_insert_eq {A} (l : list A) (i : Z) (c v : A) :
  lookupZ l i = Some c -> lookupZ (<[Z.to_nat i := v]> l) i = Some v.
Proof.
  intros Hc. pose proof (lookupZ_range _ _ _ Hc) as Hi. unfold lookupZ.
  destruct (i <? 0) eqn:Hneg; [apply Z.ltb_lt in Hneg; lia |].
  apply list_lookup_insert_eq. lia.
Qed.

Lemma lookupZ_insert_ne {A} (l : list A) (i k : Z) (v : A) :
  0 <= i -> k <> i -> lookupZ (<[Z.to_nat i := v]> l) k = lookupZ l k.
Proof.
  intros Hi Hne. unfold lookupZ. destruct (k <? 0) eqn:Hneg; [reflexivity |].
  apply Z.ltb_ge in Hneg. apply list_lookup_insert_ne. lia.
Qed.

Section DescentFacts.

Import Geometry.

Set Default Proof Using "Type".

Context {L Sf : Type} `{LatticeClass L} `{SurfaceClass Sf}.

Variable Cell_contains : Cell -> Position -> Direction -> Z -> bool.
Variable MATERIAL_VOID : Z.
Variable F90_NONE : Z.
Variable NO_OUTER_UNIVERSE : Z.
Variable MAX_COORD : nat.
Variable TINY_BIT : float.
Variable verbosity : Z.
Variable trace : bool.

Local Abbreviation find_cell_inner :=
  (Geometry.find_cell_inner Cell_contains MATERIAL_VOID NO_OUTER_UNIVERSE
     TINY_BIT verbosity trace).
Local Abbreviation find_cell :=
  (Geometry.find_cell Cell_contains MATERIAL_VOID F90_NONE NO_OUTER_UNIVERSE
     MAX_COORD TINY_BIT verbosity trace).

(** ** What a successful search leaves in the coordinate stack *)

Lemma search_cells_found (mdl : Model L Sf) (p : Particle) (cands : list Z)
    (i_cell : Z) :
  search_cells Cell_contains mdl p cands = Returned (Some i_cell) ->
  exists frame c,
    lookupZ (coord p) (n_coord p - 1) = Some frame
    /\ lookupZ (cells mdl) i_cell = Some c
    /\ universe_ c = universe frame
    /\ Cell_contains c (xyz frame) (uvw frame) (surface p) = true
    /\ i_cell ∈ cands.
Proof.
  induction cands as [| i rest IH]; intros Hrun; [discriminate |].
  simpl in Hrun.
  apply bind_inv in Hrun as (frame & Hframe & Hrun).
  apply bind_inv in Hrun as (c & Hc & Hrun).
  apply at_Z_inv in Hframe, Hc.
  destruct (universe_ c =? universe frame) eqn:Huniv; simpl in Hrun.
  - destruct (Cell_contains c (xyz frame) (uvw frame) (surface p)) eqn:Hin.
    + injection Hrun as <-. exists frame, c. apply Z.eqb_eq in Huniv.
      repeat split; try done. by left.
    + destruct (IH Hrun) as (f' & c' & ? & ? & ? & ? & ?).
      exists f', c'. repeat split; try done. by right.
  - destruct (IH Hrun) as (f' & c' & ? & ? & ? & ? & ?).
    exists f', c'. repeat split; try done. by right.
Qed.

(** The frame a UNIVERSE- or LATTICE-filled cell opens below itself. *)
Local Abbreviation opened p1 p2 F :=
  (exists fn, lookupZ (coord p1) (n_coord p1) = Some fn
     /\ p2 = set_n_coord
               (set_coord p1 (<[Z.to_nat (n_coord p1) := F]> (coord p1)))
               (n_coord p1 + 1)).

Lemma enter_universe_inv (p1 p2 : Particle) (c : Cell) :
  enter_universe p1 c = Returned p2 ->
  exists F, opened p1 p2 F /\ universe F = fill_ c.
Proof.
  unfold enter_universe. intros Hrun.
  apply bind_inv in Hrun as (frame & _ & Hrun).
  apply bind_inv in Hrun as (t & _ & Hrun).
  apply bind_inv in Hrun as (p' & Hp' & Hrun). injection Hrun as <-.
  apply update_coord_inv in Hp' as (fn & Hfn & ->).
  exists (lower_frame c t fn). split; [by exists fn |].
  unfold lower_frame. by destruct t.2.
Qed.

Lemma enter_lattice_inside (mdl : Model L Sf) (p1 p2 : Particle) (c : Cell)
    (log log2 : list Event) :
  enter_lattice NO_OUTER_UNIVERSE TINY_BIT mdl p1 c log
  = Returned (true, p2, log2) ->
  exists F lat,
    opened p1 p2 F
    /\ lookupZ (lattices mdl) (fill_ c) = Some lat
    /\ lattice F = fill_ c + 1
    /\ universe F
       = (if are_valid_indices lat (lattice_x F, lattice_y F, lattice_z F)
          then lat_at lat (lattice_x F, lattice_y F, lattice_z F)
          else outer_ lat).
Proof.
  unfold enter_lattice. intros Hrun.
  apply bind_inv in Hrun as (lat & Hlat & Hrun). apply at_Z_inv in Hlat.
  apply bind_inv in Hrun as (frame & _ & Hrun). cbv zeta in Hrun.
  apply bind_inv in Hrun as (q & Hq & Hrun).
  apply update_coord_inv in Hq as (fn & Hfn & ->).
  pose proof (lookupZ_range _ _ _ Hfn) as Hn.
  set (ijk := get_indices lat (plus (xyz frame) (scale TINY_BIT (uvw frame))))
    in *.
  destruct ijk as [[ix iy] iz] eqn:Hijk.
  destruct (are_valid_indices lat (ix, iy, iz)) eqn:Hvalid.
  - apply bind_inv in Hrun as (q2 & Hq2 & Hrun). injection Hrun as <- _.
    apply update_coord_inv in Hq2 as (fn' & Hfn' & ->). simpl in Hfn'.
    rewrite (lookupZ_insert_eq _ _ _ _ Hfn) in Hfn'. injection Hfn' as <-.
    eexists _, lat. split; [| split; [exact Hlat |]].
    + exists fn. split; [exact Hfn |]. simpl. by rewrite list_insert_insert_eq.
    + simpl. by rewrite Hvalid.
  - destruct (outer_ lat =? NO_OUTER_UNIVERSE) eqn:Houter; simpl in Hrun;
      [discriminate |].
    apply bind_inv in Hrun as (q2 & Hq2 & Hrun). injection Hrun as <- _.
    apply update_coord_inv in Hq2 as (fn' & Hfn' & ->). simpl in Hfn'.
    rewrite (lookupZ_insert_eq _ _ _ _ Hfn) in Hfn'. injection Hfn' as <-.
    eexists _, lat. split; [| split; [exact Hlat |]].
    + exists fn. split; [exact Hfn |]. simpl. by rewrite list_insert_insert_eq.
    + simpl. by rewrite Hvalid.
Qed.

(** Frame [k] of [p'] holds a cell of the frame's universe that contains
    the particle; the cell is MATERIAL-filled exactly at the deepest
    frame, and the frame below a UNIVERSE- or LATTICE-filled cell is in
    the universe, or the lattice, that fills the cell. *)
Local Abbreviation chained mdl s p' k :=
  (exists f c,
     lookupZ (coord p') k = Some f
     /\ lookupZ (cells mdl) (cell f) = Some c
     /\ universe_ c = universe f
     /\ Cell_contains c (xyz f) (uvw f) s = true
     /\ (type_ c = FILL_MATERIAL <-> k%Z = n_coord p' - 1)
     /\ (type_ c = FILL_UNIVERSE ->
         exists f', lookupZ (coord p') (k + 1) = Some f'
                    /\ universe f' = fill_ c)
     /\ (type_ c = FILL_LATTICE ->
         exists f' (lat : L),
           lookupZ (coord p') (k + 1) = Some f'
           /\ lookupZ (lattices mdl) (fill_ c) = Some lat
           /\ lattice f' = fill_ c + 1
           /\ universe f'
              = (if are_valid_indices lat
                      (lattice_x f', lattice_y f', lattice_z f')
                 then lat_at lat (lattice_x f', lattice_y f', lattice_z f')
                 else outer_ lat))).

Local Abbreviation descended mdl p p' :=
  (n_coord p <= n_coord p'
   /\ length (coord p') = length (coord p)
   /\ surface p' = surface p
   /\ (forall k, k < n_coord p - 1 ->
         lookupZ (coord p') k = lookupZ (coord p) k)
   /\ (exists f0 i,
         lookupZ (coord p) (n_coord p - 1) = Some f0
         /\ lookupZ (coord p') (n_coord p - 1) = Some (set_cell f0 i))
   /\ (forall k, n_coord p - 1 <= k < n_coord p' ->
         chained mdl (surface p) p' k)).

(** One level of the descent below a cell that is not MATERIAL-filled. *)
Lemma descend_step (mdl : Model L Sf) (p p2 p' : Particle)
    (f0 F : LocalCoord) (i_cell : Z) (c : Cell) :
  lookupZ (coord p) (n_coord p - 1) = Some f0 ->
  lookupZ (cells mdl) i_cell = Some c ->
  universe_ c = universe f0 ->
  Cell_contains c (xyz f0) (uvw f0) (surface p) = true ->
  type_ c <> FILL_MATERIAL ->
  opened
    (set_coord p (<[Z.to_nat (n_coord p - 1) := set_cell f0 i_cell]> (coord p)))
    p2 F ->
  (type_ c = FILL_UNIVERSE -> universe F = fill_ c) ->
  (type_ c = FILL_LATTICE ->
   exists lat : L,
     lookupZ (lattices mdl) (fill_ c) = Some lat
     /\ lattice F = fill_ c + 1
     /\ universe F
        = (if are_valid_indices lat (lattice_x F, lattice_y F, lattice_z F)
           then lat_at lat (lattice_x F, lattice_y F, lattice_z F)
           else outer_ lat)) ->
  descended mdl p2 p' ->
  descended mdl p p'.
Proof.
  intros Hf0 Hc Huniv Hin Htype (fn & Hfn & ->) Hu Hl.
  pose proof (lookupZ_range _ _ _ Hf0) as Hn0.
  pose proof (lookupZ_range _ _ _ Hfn) as Hn1.
  simpl in Hfn, Hn1 |- *. rewrite !length_insert.
  intros (Hle & Hlen & Hsurf & Hkeep & (f1 & i1 & Hf1 & Hf1') & Hchain).
  replace (n_coord p + 1 - 1) with (n_coord p) in * by lia.
  rewrite (lookupZ_insert_eq _ _ _ _ Hfn) in Hf1. injection Hf1 as <-.
  assert (Hstart : lookupZ (coord p') (n_coord p - 1)
                   = Some (set_cell f0 i_cell)).
  { rewrite Hkeep by lia. rewrite lookupZ_insert_ne by lia.
    by apply (lookupZ_insert_eq _ _ f0). }
  split; [lia |]. split; [exact Hlen |]. split; [exact Hsurf |].
  split; [| split].
  - intros k Hk. rewrite Hkeep by lia.
    rewrite !lookupZ_insert_ne by lia. reflexivity.
  - by exists f0, i_cell.
  - intros k Hk. destruct (decide (k = n_coord p - 1)) as [-> | Hne].
    + exists (set_cell f0 i_cell), c. simpl.
      split; [exact Hstart |]. split; [exact Hc |]. split; [exact Huniv |].
      split; [exact Hin |]. split; [split; [done | lia] |].
      replace (n_coord p - 1 + 1) with (n_coord p) by lia.
      split.
      * intros Hty. exists (set_cell F i1). split; [exact Hf1' |].
        simpl. by apply Hu.
      * intros Hty. destruct (Hl Hty) as (lat & Hlat & HF & HU).
        exists (set_cell F i1), lat. by repeat split.
    + apply Hchain. lia.
Qed.

(** X16: when [find_cell_inner] answers [true], the coordinate stack is
    a consistent chain from the frame the search started at down to the
    deepest one: each of these frames holds a cell of its own universe
    that contains the particle at the frame's position; the cell is
    MATERIAL-filled at the deepest frame and only there; below a
    UNIVERSE-filled cell the next frame is in the universe [fill_], below
    a LATTICE-filled cell it is in the lattice [fill_] (stored plus one)
    and in the tile's universe, or in the outer universe for indices
    outside the lattice.  The frames above the starting one, the size of
    the stack and the surface are as before, the starting frame changed
    in its cell only, and [n_coord] did not decrease. *)
Theorem find_cell_inner_builds_chain (fuel : nat) (mdl : Model L Sf)
    (p p' : Particle) (neighbor_list : option (list Z))
    (log log' : list Event) :
  find_cell_inner fuel mdl p neighbor_list log = Returned (true, p', log') ->
  n_coord p <= n_coord p'
  /\ length (coord p') = length (coord p)
  /\ surface p' = surface p
  /\ (forall k, k < n_coord p - 1 ->
        lookupZ (coord p') k = lookupZ (coord p) k)
  /\ (exists f0 i,
        lookupZ (coord p) (n_coord p - 1) = Some f0
        /\ lookupZ (coord p') (n_coord p - 1) = Some (set_cell f0 i))
  /\ (forall k, n_coord p - 1 <= k < n_coord p' ->
        exists f c,
          lookupZ (coord p') k = Some f
          /\ lookupZ (cells mdl) (cell f) = Some c
          /\ universe_ c = universe f
          /\ Cell_contains c (xyz f) (uvw f) (surface p) = true
          /\ (type_ c = FILL_MATERIAL <-> k = n_coord p' - 1)
          /\ (type_ c = FILL_UNIVERSE ->
              exists f', lookupZ (coord p') (k + 1) = Some f'
                         /\ universe f' = fill_ c)
          /\ (type_ c = FILL_LATTICE ->
              exists f' (lat : L),
                lookupZ (coord p') (k + 1) = Some f'
                /\ lookupZ (lattices mdl) (fill_ c) = Some lat
                /\ lattice f' = fill_ c + 1
                /\ universe f'
                   = (if are_valid_indices lat
                           (lattice_x f', lattice_y f', lattice_z f')
                      then lat_at lat
                             (lattice_x f', lattice_y f', lattice_z f')
                      else outer_ lat))).
Proof.
  revert p neighbor_list log.
  induction fuel as [| fuel IH]; intros p neighbor_list log Hrun;
    [discriminate |].
  simpl in Hrun.
  apply bind_inv in Hrun as (cands & _ & Hrun).
  apply bind_inv in Hrun as (found & Hsearch & Hrun).
  destruct found as [i_cell |]; [| discriminate].
  apply search_cells_found in Hsearch as (f0 & c & Hf0 & Hc & Huniv & Hin & _).
  apply bind_inv in Hrun as (p1 & Hp1 & Hrun).
  apply update_coord_inv in Hp1 as (f0' & Hf0' & ->).
  assert (f0' = f0) as -> by congruence.
  rewrite (at_Z_Some _ _ _ Hc), bind_Returned in Hrun.
  pose proof (lookupZ_range _ _ _ Hf0) as Hn0.
  destruct (type_ c) eqn:Htype.
  - (* MATERIAL: the deepest frame *)
    apply bind_inv in Hrun as (p2 & Hp2 & Hrun). injection Hrun as <- _.
    unfold enter_material in Hp2.
    apply bind_inv in Hp2 as (inst & _ & Hp2).
    apply bind_inv in Hp2 as (mat & _ & Hp2).
    apply bind_inv in Hp2 as (T & _ & Hp2). injection Hp2 as <-.
    simpl. rewrite length_insert.
    split; [lia |]. split; [reflexivity |]. split; [reflexivity |].
    split; [| split].
    + intros k Hk. by rewrite lookupZ_insert_ne by lia.
    + exists f0, i_cell. split; [exact Hf0 |].
      by apply (lookupZ_insert_eq _ _ f0).
    + intros k Hk. assert (k = n_coord p - 1) as -> by lia.
      exists (set_cell f0 i_cell), c. simpl.
      split; [by apply (lookupZ_insert_eq _ _ f0) |].
      split; [exact Hc |]. split; [exact Huniv |]. split; [exact Hin |].
      rewrite Htype. split; [done |]. split; discriminate.
  - (* UNIVERSE *)
    apply bind_inv in Hrun as (p2 & Hp2 & Hrun).
    apply enter_universe_inv in Hp2 as (F & Hopen & HF).
    apply IH in Hrun.
    apply (descend_step mdl p p2 p' f0 F i_cell c); try done.
    + by rewrite Htype.
    + by rewrite Htype.
  - (* LATTICE *)
    apply bind_inv in Hrun as ([[inside p2] log2] & Hp2 & Hrun).
    destruct inside; [| discriminate].
    apply enter_lattice_inside in Hp2 as (F & lat & Hopen & Hlat & HF & HU).
    apply IH in Hrun.
    apply (descend_step mdl p p2 p' f0 F i_cell c); try done.
    + by rewrite Htype.
    + by rewrite Htype.
    + intros _. by exists lat.
Qed.

(** ** The depth of the recursion *)

(** The steps of the locator other than the recursive call have no
    recursion of their own to bound. *)
Lemma bind_fueled {A B} (o : outcome A) (f : A -> outcome B) :
  o <> OutOfFuel ->
  (forall a, o = Returned a -> f a <> OutOfFuel) ->
  o ≫= f <> OutOfFuel.
Proof. destruct o as [a | |]; simpl; intros Ho Hf; [by apply Hf | done..]. Qed.

Lemma at_nat_fueled {A} (l : list A) (i : nat) : at_nat l i <> OutOfFuel.
Proof. unfold at_nat. by destruct (l !! i). Qed.

Lemma at_Z_fueled {A} (l : list A) (i : Z) : at_Z l i <> OutOfFuel.
Proof. unfold at_Z. by destruct (lookupZ l i). Qed.

Lemma put_Z_fueled {A} (l : list A) (i : Z) (v : A) :
  put_Z l i v <> OutOfFuel.
Proof. unfold put_Z. by destruct (storeZ l i v). Qed.

Lemma update_coord_fueled (p : Particle) (i : Z)
    (f : LocalCoord -> LocalCoord) :
  update_coord p i f <> OutOfFuel.
Proof.
  unfold update_coord. apply bind_fueled; [apply at_Z_fueled |].
  intros c _. apply bind_fueled; [apply put_Z_fueled | done].
Qed.

Lemma for_from_fueled {St} (body : nat -> St -> outcome St) :
  (forall i s, body i s <> OutOfFuel) ->
  forall n i s, for_from i n body s <> OutOfFuel.
Proof.
  intros Hbody. induction n as [| n IH]; intros i s; [done |].
  rewrite for_from_S. apply bind_fueled; [apply Hbody |]. intros s' _. apply IH.
Qed.

Lemma search_cells_fueled (mdl : Model L Sf) (p : Particle) (cands : list Z) :
  search_cells Cell_contains mdl p cands <> OutOfFuel.
Proof.
  induction cands as [| i rest IH]; [done |]. simpl.
  apply bind_fueled; [apply at_Z_fueled |]. intros frame _.
  apply bind_fueled; [apply at_Z_fueled |]. intros c _.
  destruct (negb (universe_ c =? universe frame)); [exact IH |].
  by destruct (Cell_contains c (xyz frame) (uvw frame) (surface p)).
Qed.

Lemma candidates_fueled (mdl : Model L Sf) (p : Particle)
    (neighbor_list : option (list Z)) :
  candidates mdl p neighbor_list <> OutOfFuel.
Proof.
  destruct neighbor_list; [done |]. simpl.
  apply bind_fueled; [apply at_Z_fueled |]. intros frame _.
  apply bind_fueled; [apply at_Z_fueled | done].
Qed.

Lemma enter_material_fueled (mdl : Model L Sf) (p : Particle) (c : Cell) :
  enter_material MATERIAL_VOID mdl p c <> OutOfFuel.
Proof.
  unfold enter_material. apply bind_fueled.
  - unfold find_instance. destruct (distributed c); [| done].
    apply for_from_fueled. intros i acc. unfold add_frame_offset.
    apply bind_fueled; [| done]. unfold frame_offset.
    apply bind_fueled; [apply at_nat_fueled |]. intros frame _.
    apply bind_fueled; [apply at_Z_fueled |]. intros c_i _.
    destruct (type_ c_i); [done | apply at_Z_fueled |].
    apply bind_fueled; [apply at_nat_fueled |]. intros next _.
    apply bind_fueled; [apply at_Z_fueled |]. intros lat _.
    by destruct (are_valid_indices lat _).
  - intros inst _. apply bind_fueled.
    { destruct (1 <? length (material_ c))%nat; apply at_Z_fueled. }
    intros mat _. apply bind_fueled; [| done].
    destruct (1 <? length (sqrtkT_ c))%nat; apply at_Z_fueled.
Qed.

Lemma rotate_fueled (rot : list float) (v : Position) :
  rotate rot v <> OutOfFuel.
Proof.
  unfold rotate.
  repeat (apply bind_fueled; [apply at_nat_fueled | intros ? _]). done.
Qed.

Lemma enter_universe_fueled (p : Particle) (c : Cell) :
  enter_universe p c <> OutOfFuel.
Proof.
  unfold enter_universe. apply bind_fueled; [apply at_Z_fueled |].
  intros frame _. apply bind_fueled.
  - unfold transformed. destruct (rotation_ c); [done |].
    apply bind_fueled; [apply rotate_fueled |]. intros r' _.
    apply bind_fueled; [apply rotate_fueled | done].
  - intros t _. apply bind_fueled; [apply update_coord_fueled | done].
Qed.

Lemma enter_lattice_fueled (mdl : Model L Sf) (p : Particle) (c : Cell)
    (log : list Event) :
  enter_lattice NO_OUTER_UNIVERSE TINY_BIT mdl p c log <> OutOfFuel.
Proof.
  unfold enter_lattice. apply bind_fueled; [apply at_Z_fueled |].
  intros lat _. apply bind_fueled; [apply at_Z_fueled |].
  intros frame _. cbv zeta.
  apply bind_fueled; [apply update_coord_fueled |]. intros p1 _.
  destruct (are_valid_indices lat _).
  - apply bind_fueled; [apply update_coord_fueled | done].
  - destruct (negb (outer_ lat =? NO_OUTER_UNIVERSE)); [| done].
    apply bind_fueled; [apply update_coord_fueled | done].
Qed.

Lemma opened_measure (p p1 p2 : Particle) (F f : LocalCoord) (k : Z) :
  p1 = set_coord p (<[Z.to_nat k := f]> (coord p)) ->
  opened p1 p2 F ->
  n_coord p2 = n_coord p + 1
  /\ length (coord p2) = length (coord p)
  /\ 0 <= n_coord p < Z.of_nat (length (coord p)).
Proof.
  intros -> (fn & Hfn & ->). apply lookupZ_range in Hfn.
  simpl in Hfn |- *. rewrite length_insert in Hfn. rewrite !length_insert.
  repeat split; lia.
Qed.

(** X17: each recursive call of [find_cell_inner] has written one more
    frame of the coordinate stack, so the recursion is no deeper than the
    frames left below [n_coord]: with a bound above that number the
    embedding never stops for want of fuel, and its result, whether a
    value or an access outside a vector, is the same for every such
    bound. *)
Theorem find_cell_inner_depth_bounded (fuel fuel' : nat) (mdl : Model L Sf)
    (p : Particle) (neighbor_list : option (list Z)) (log : list Event) :
  Z.max 0 (Z.of_nat (length (coord p)) - n_coord p) < Z.of_nat fuel ->
  Z.max 0 (Z.of_nat (length (coord p)) - n_coord p) < Z.of_nat fuel' ->
  find_cell_inner fuel mdl p neighbor_list log <> OutOfFuel
  /\ find_cell_inner fuel mdl p neighbor_list log
     = find_cell_inner fuel' mdl p neighbor_list log.
Proof.
  revert fuel' p neighbor_list log.
  induction fuel as [| fuel IH]; intros fuel' p neighbor_list log Hf Hf';
    [lia |].
  destruct fuel' as [| fuel']; [lia |]. simpl.
  destruct (candidates mdl p neighbor_list) as [cands | |] eqn:Hcands;
    [| done | by destruct (candidates_fueled mdl p neighbor_list)].
  rewrite !bind_Returned.
  destruct (search_cells Cell_contains mdl p cands) as [found | |] eqn:Hsearch;
    [| done | by destruct (search_cells_fueled mdl p cands)].
  rewrite !bind_Returned. destruct found as [i_cell |]; [| done].
  destruct (update_coord p (n_coord p - 1) (fun f => set_cell f i_cell))
    as [p1 | |] eqn:Hp1;
    [| done | by destruct (update_coord_fueled p (n_coord p - 1)
                             (fun f => set_cell f i_cell))].
  rewrite !bind_Returned.
  apply update_coord_inv in Hp1 as (f0 & Hf0 & Hp1).
  destruct (at_Z (cells mdl) i_cell) as [c | |] eqn:Hc;
    [| done | by destruct (at_Z_fueled (cells mdl) i_cell)].
  rewrite !bind_Returned.
  destruct (type_ c).
  - split; [| reflexivity].
    apply bind_fueled; [apply enter_material_fueled | done].
  - destruct (enter_universe p1 c) as [p2 | |] eqn:Hp2;
      [| done | by destruct (enter_universe_fueled p1 c)].
    rewrite !bind_Returned.
    apply enter_universe_inv in Hp2 as (F & Hopen & _).
    destruct (opened_measure _ _ _ _ _ _ Hp1 Hopen) as (Hn & Hlen & Hrange).
    apply IH; lia.
  - destruct (enter_lattice NO_OUTER_UNIVERSE TINY_BIT mdl p1 c
                (announce verbosity trace c log))
      as [[[inside p2] log2] | |] eqn:Hp2;
      [| done | by destruct (enter_lattice_fueled mdl p1 c
                               (announce verbosity trace c log))].
    rewrite !bind_Returned. destruct inside; [| done].
    apply enter_lattice_inside in Hp2 as (F & lat & Hopen & _).
    destruct (opened_measure _ _ _ _ _ _ Hp1 Hopen) as (Hn & Hlen & Hrange).
    apply IH; lia.
Qed.

(** ** The registries after [find_cell] *)

Lemma push_neighbor_inv (mdl mdl' : Model L Sf) (i_cell v : Z) :
  push_neighbor mdl i_cell v = Returned mdl' ->
  exists c c',
    lookupZ (cells mdl) i_cell = Some c
    /\ lookupZ (cells mdl') i_cell = Some c'
    /\ neighbors_ c' = neighbors_ c ++ [v]
    /\ (id_ c', universe_ c', type_ c', fill_ c', material_ c', sqrtkT_ c')
       = (id_ c, universe_ c, type_ c, fill_ c, material_ c, sqrtkT_ c)
    /\ (distribcell_index_ c', offset_ c', translation_ c', rotation_ c',
        simple_ c', region_ c')
       = (distribcell_index_ c, offset_ c, translation_ c, rotation_ c,
          simple_ c, region_ c)
    /\ (forall k, k <> i_cell -> lookupZ (cells mdl') k = lookupZ (cells mdl) k)
    /\ length (cells mdl') = length (cells mdl)
    /\ (universes mdl', lattices mdl', surfaces mdl', root_universe mdl')
       = (universes mdl, lattices mdl, surfaces mdl, root_universe mdl).
Proof.
  unfold push_neighbor. intros Hrun.
  apply bind_inv in Hrun as (c & Hc & Hrun). apply at_Z_inv in Hc.
  apply bind_inv in Hrun as (cells' & Hput & Hrun). injection Hrun as <-.
  pose proof (lookupZ_range _ _ _ Hc) as Hi.
  destruct (lookupZ_put_eq _ _ _ _ Hput) as [Hnew Hlen].
  exists c. eexists. split; [exact Hc |]. split; [exact Hnew |]. simpl.
  split; [reflexivity |]. split; [reflexivity |]. split; [reflexivity |].
  split; [| split; [exact Hlen | reflexivity]].
  intros k Hk. by apply (lookupZ_put_ne _ _ _ _ _ Hput).
Qed.

(** X18: [find_cell] leaves the universes, the lattices, the surfaces
    and the root universe alone, and the cells too when it is called
    without neighbor lists.  With neighbor lists it searches the neighbor
    list of the cell the particle was in at the level the search starts
    from; when that search succeeds, or when it fails and the sweep of the
    universe that follows fails too, the cells are as before; when it
    fails and the sweep succeeds, exactly one cell, the one the particle
    was in, has one entry more at the end of its neighbor list: the cell
    that the sweep left at that level. *)
Theorem find_cell_appends_one_neighbor (fuel : nat) (mdl mdl' : Model L Sf)
    (p p' : Particle) (use_neighbor_lists found : bool)
    (log log' : list Event) :
  find_cell fuel mdl p use_neighbor_lists log
  = Returned (found, p', mdl', log') ->
  (universes mdl', lattices mdl', surfaces mdl', root_universe mdl')
  = (universes mdl, lattices mdl, surfaces mdl, root_universe mdl)
  /\ length (cells mdl') = length (cells mdl)
  /\ (use_neighbor_lists = false \/ found = false -> mdl' = mdl)
  /\ (use_neighbor_lists = true ->
      exists p0 frame c found1 p1 log1,
        Geometry.prepare F90_NONE MAX_COORD mdl p = Returned p0
        /\ lookupZ (coord p0) (n_coord p0 - 1) = Some frame
        /\ lookupZ (cells mdl) (cell frame) = Some c
        /\ find_cell_inner fuel mdl p0 (Some (neighbors_ c)) log
           = Returned (found1, p1, log1)
        /\ (found1 = true ->
            found = true /\ p' = p1 /\ mdl' = mdl /\ log' = log1)
        /\ (found1 = false ->
            find_cell_inner fuel mdl p1 None log1
            = Returned (found, p', log')
            /\ (found = true ->
                exists frame' c',
                  lookupZ (coord p') (n_coord p0 - 1) = Some frame'
                  /\ lookupZ (cells mdl') (cell frame) = Some c'
                  /\ neighbors_ c' = neighbors_ c ++ [cell frame']
                  /\ (forall k, k <> cell frame ->
                        lookupZ (cells mdl') k = lookupZ (cells mdl) k)))).
Proof.
  unfold Geometry.find_cell. intros Hrun.
  apply bind_inv in Hrun as (p0 & Hp0 & Hrun).
  destruct use_neighbor_lists.
  - apply bind_inv in Hrun as (frame & Hframe & Hrun).
    apply bind_inv in Hrun as (c & Hc & Hrun).
    apply at_Z_inv in Hframe, Hc.
    apply bind_inv in Hrun as ([[found1 p1] log1] & Hfirst & Hrun).
    destruct found1.
    { injection Hrun as <- <- <- <-. split; [done |]. split; [done |].
      split; [done |]. intros _.
      exists p0, frame, c, true, p1, log1. by repeat split. }
    apply bind_inv in Hrun as ([[found2 p2] log2] & Hsecond & Hrun).
    destruct found2.
    + apply bind_inv in Hrun as (frame' & Hframe' & Hrun).
      apply bind_inv in Hrun as (mdl2 & Hpush & Hrun).
      injection Hrun as <- <- <- <-. apply at_Z_inv in Hframe'.
      apply push_neighbor_inv in Hpush
        as (c0 & c' & Hc0 & Hc' & Hnb & _ & _ & Hothers & Hlen & Hrest).
      assert (c0 = c) as -> by congruence.
      split; [exact Hrest |]. split; [exact Hlen |].
      split; [by intros [? | ?] |]. intros _.
      exists p0, frame, c, false, p1, log1.
      do 4 (split; [done |]). split; [discriminate |]. intros _.
      split; [exact Hsecond |]. intros _. by exists frame', c'.
    + injection Hrun as <- <- <- <-. split; [done |]. split; [done |].
      split; [done |]. intros _.
      exists p0, frame, c, false, p1, log1.
      do 4 (split; [done |]). split; [discriminate |]. intros _.
      split; [exact Hsecond | discriminate].
  - apply bind_inv in Hrun as ([[found1 p1] log1] & Hfirst & Hrun).
    injection Hrun as <- <- <- <-. split; [done |]. split; [done |].
    split; [done | discriminate].
Qed.

(** ** A lattice without outer universe, met at any depth *)

Local Abbreviation binds := (Geometry.binds Cell_contains).
Local Abbreviation outside_lattice :=
  (Geometry.outside_lattice NO_OUTER_UNIVERSE TINY_BIT).
Local Abbreviation descends :=
  (Geometry.descends Cell_contains NO_OUTER_UNIVERSE TINY_BIT verbosity trace).

Lemma binds_inv (mdl : Model L Sf) (p p1 : Particle)
    (nl : option (list Z)) (i_cell : Z) (c : Cell) :
  binds mdl p nl i_cell c p1 ->
  exists f0, p1 = set_coord p (<[Z.to_nat (n_coord p - 1) := f0]> (coord p)).
Proof.
  intros (cands & _ & _ & Hp1 & _).
  apply update_coord_inv in Hp1 as (f0 & _ & ->). by eexists.
Qed.

(** A level that is entered runs as one unfolding of [find_cell_inner]. *)
Lemma descends_run (mdl : Model L Sf) (k : nat) (p q : Particle)
    (nl nlq : option (list Z)) (log logq : list Event) :
  descends mdl k p nl log q nlq logq ->
  forall fuel,
    find_cell_inner (k + fuel) mdl p nl log
    = find_cell_inner fuel mdl q nlq logq.
Proof.
  induction 1 as [p nl log
                 | k p p1 p2 q nl nlq log logq i_cell c Hb Htype Henter _ IH
                 | k p p1 p2 q nl nlq log log2 logq i_cell c Hb Htype Henter
                     _ IH];
    intros fuel; [reflexivity | |];
    destruct Hb as (cands & Hcands & Hsearch & Hp1 & Hc);
    cbn [Nat.add Geometry.find_cell_inner];
    rewrite Hcands, bind_Returned, Hsearch, bind_Returned;
    rewrite Hp1, bind_Returned, (at_Z_Some _ _ _ Hc), bind_Returned, Htype;
    rewrite Henter, bind_Returned; apply IH.
Qed.

(** Each level entered adds one to [n_coord]; the particle's id is kept,
    and the messages grow by announcements only. *)
Lemma descends_frame (mdl : Model L Sf) (k : nat) (p q : Particle)
    (nl nlq : option (list Z)) (log logq : list Event) :
  descends mdl k p nl log q nlq logq ->
  n_coord q = n_coord p + Z.of_nat k
  /\ id q = id p
  /\ (k <> 0%nat -> nlq = None)
  /\ forall msg, fatal_error msg ∈ logq -> fatal_error msg ∈ log.
Proof.
  assert (Hann : forall c l msg,
            fatal_error msg ∈ Geometry.announce verbosity trace c l ->
            fatal_error msg ∈ l).
  { intros c l msg. unfold Geometry.announce.
    destruct ((10 <=? verbosity) || trace); [| done].
    intros Hin. apply elem_of_app in Hin as [Hin | Hin]; [exact Hin |].
    apply list_elem_of_singleton in Hin. discriminate Hin. }
  induction 1 as [p nl log
                 | k p p1 p2 q nl nlq log logq i_cell c Hb Htype Henter Hrest IH
                 | k p p1 p2 q nl nlq log log2 logq i_cell c Hb Htype Henter
                     Hrest IH].
  - split; [lia |]. by repeat split.
  - destruct IH as (Hn & Hid & Hnl & Hlog).
    apply binds_inv in Hb as [f0 ->].
    apply enter_universe_inv in Henter as (F & (fn & _ & ->) & _).
    simpl in Hn, Hid. split; [lia |]. split; [exact Hid |].
    split.
    + intros _. inversion Hrest; subst; [reflexivity | by apply Hnl..].
    + intros msg Hmsg. by apply (Hann c), Hlog.
  - destruct IH as (Hn & Hid & Hnl & Hlog).
    assert (log2 = Geometry.announce verbosity trace c log) as ->.
    { unfold enter_lattice in Henter.
      apply bind_inv in Henter as (lat & _ & Henter).
      apply bind_inv in Henter as (frame & _ & Henter). cbv zeta in Henter.
      apply bind_inv in Henter as (q1 & _ & Henter).
      destruct (are_valid_indices lat _).
      - apply bind_inv in Henter as (q2 & _ & Henter). by injection Henter.
      - destruct (negb (outer_ lat =? NO_OUTER_UNIVERSE)); [| discriminate].
        apply bind_inv in Henter as (q2 & _ & Henter). by injection Henter. }
    apply binds_inv in Hb as [f0 ->].
    apply enter_lattice_inside in Henter as (F & lat & (fn & _ & ->) & _).
    simpl in Hn, Hid. split; [lia |]. split; [exact Hid |].
    split.
    + intros _. inversion Hrest; subst; [reflexivity | by apply Hnl..].
    + intros msg Hmsg. by apply (Hann c), Hlog.
Qed.


End DescentFacts.

(** * Properties of the boundary search *)

(** A loop keeps an invariant that depends on the iteration. *)
Lemma for_from_invariant_at {St} (P : nat -> St -> Prop)
    (body : nat -> St -> outcome St) :
  (forall i s s', body i s = Returned s' -> P i s -> P (S i) s') ->
  forall n i s s',
    for_from i n body s = Returned s' -> P i s -> P (i + n)%nat s'.
Proof.
  intros Hbody. induction n as [| n IH]; intros i s s' Hrun Hs.
  - rewrite for_from_0 in Hrun. injection Hrun as <-.
    by rewrite Nat.add_0_r.
  - rewrite for_from_S in Hrun.
    apply bind_inv in Hrun as (s1 & H1 & Hrest).
    replace (i + S n)%nat with (S i + n)%nat by lia.
    eapply IH; [exact Hrest |]. eapply Hbody; eauto.
Qed.

Section BoundaryFacts.

Import Geometry.

Set Default Proof Using "Type".

Context {L Sf : Type} `{LatticeClass L} `{SurfaceClass Sf}.

Variable Cell_distance : Cell -> Position -> Direction -> Z -> float * Z.
Variable F90_NONE : Z.
Variable FP_REL_PRECISION : float.

Local Abbreviation level :=
  (Geometry.level Cell_distance F90_NONE FP_REL_PRECISION).
Local Abbreviation distance_to_boundary :=
  (Geometry.distance_to_boundary Cell_distance F90_NONE FP_REL_PRECISION).

(** The particle differs from [p] in [alive] at most, which can only
    have been cleared, and the messages are [log] with more behind. *)
Local Abbreviation touched p log st :=
  (particle st = set_alive p (alive (particle st))
   /\ (alive (particle st) = alive p \/ alive (particle st) = false)
   /\ exists ext, events st = log ++ ext).

Lemma lattice_level_touches (mdl : Model L Sf) (i : nat) (frame : LocalCoord)
    (p : Particle) (log : list Event) (st st1 : Levels) :
  Geometry.lattice_level F90_NONE mdl i frame st = Returned st1 ->
  touched p log st ->
  out st1 = out st /\ touched p log st1.
Proof.
  unfold Geometry.lattice_level. intros Hrun (Hp & Halive & [ext Hlog]).
  destruct (negb (lattice frame =? F90_NONE)).
  - apply bind_inv in Hrun as (lat & _ & Hrun).
    apply bind_inv in Hrun as (r & _ & Hrun).
    destruct (PrimFloat.ltb _ 0); injection Hrun as <-; simpl.
    + split; [reflexivity |]. split; [by rewrite Hp |].
      split; [by right |]. exists (ext ++ [mark_as_lost
        (NegativeLatticeDistance (id (particle st)))]).
      by rewrite Hlog, app_assoc.
    + split; [reflexivity |]. split; [exact Hp |].
      split; [exact Halive | by exists ext].
  - injection Hrun as <-. split; [reflexivity |]. split; [exact Hp |].
    split; [exact Halive | by exists ext].
Qed.

(** X19: [distance_to_boundary] writes the particle in its [alive] flag
    only, which it can clear but not set, and only adds messages.  For a
    particle without coordinate levels the outputs are the initial ones:
    an infinite distance, a zero translation and what the caller's
    [surface_crossed] and [next_level] held.  With at least one level,
    [next_level] is assigned a level between 1 and [n_coord], and the
    outputs describe a surface crossing with a zero lattice translation
    or a lattice crossing with [surface_crossed] equal to [F90_NONE],
    never both a surface and a translation. *)
Theorem distance_outputs_assigned (mdl : Model L Sf) (p p' : Particle)
    (surface_crossed0 next_level0 : Z) (indeterminate : Indices)
    (log log' : list Event) (b : Boundary) :
  distance_to_boundary mdl p surface_crossed0 next_level0 indeterminate log
  = Returned (b, p', log') ->
  p' = set_alive p (alive p')
  /\ (alive p' = alive p \/ alive p' = false)
  /\ (exists ext, log' = log ++ ext)
  /\ (n_coord p <= 0 ->
      b = {| dist := infinity; surface_crossed := surface_crossed0;
             lattice_translation := (0, 0, 0); next_level := next_level0 |})
  /\ (1 <= n_coord p ->
      1 <= next_level b <= n_coord p
      /\ (lattice_translation b = (0, 0, 0) \/ surface_crossed b = F90_NONE)).
Proof.
  unfold Geometry.distance_to_boundary, for_loop. intros Hrun.
  apply bind_inv in Hrun as (st & Hloop & Hret). injection Hret as <- <- <-.
  set (st0 := {| out := {| dist := infinity;
                           surface_crossed := surface_crossed0;
                           lattice_translation := (0, 0, 0);
                           next_level := next_level0 |};
                 d_lat := infinity; level_lat_trans := indeterminate;
                 particle := p; events := log |}) in *.
  assert (Hinv :
    touched p log st
    /\ (Z.to_nat (n_coord p) = 0%nat -> out st = out st0)
    /\ ((1 <= Z.to_nat (n_coord p))%nat ->
        1 <= next_level (out st) <= Z.of_nat (Z.to_nat (n_coord p))
        /\ (lattice_translation (out st) = (0, 0, 0)
            \/ surface_crossed (out st) = F90_NONE))).
  { refine (for_from_invariant_at
              (fun i s =>
                 touched p log s
                 /\ (i = 0%nat -> out s = out st0)
                 /\ ((1 <= i)%nat ->
                     1 <= next_level (out s) <= Z.of_nat i
                     /\ (lattice_translation (out s) = (0, 0, 0)
                         \/ surface_crossed (out s) = F90_NONE)))
              _ _ _ 0%nat st0 st Hloop _).
    - clear. intros i s s' Hstep (Htouched & Hzero & Hpos).
      unfold Geometry.level in Hstep.
      apply bind_inv in Hstep as (frame & _ & Hstep).
      apply bind_inv in Hstep as (c & _ & Hstep).
      apply bind_inv in Hstep as (s1 & Hs1 & Hstep). cbv zeta in Hstep.
      destruct (lattice_level_touches _ _ _ _ _ _ _ Hs1 Htouched)
        as [Hout Htouched1].
      assert (Hfirst : i = 0%nat ->
                Geometry.replaces FP_REL_PRECISION (dist (out s1)) = fun _ => true).
      { intros Hi. rewrite Hout, (Hzero Hi). reflexivity. }
      assert (Hkeep : s' = s1 -> i <> 0%nat ->
                touched p log s'
                /\ (S i = 0%nat -> out s' = out st0)
                /\ ((1 <= S i)%nat ->
                    1 <= next_level (out s') <= Z.of_nat (S i)
                    /\ (lattice_translation (out s') = (0, 0, 0)
                        \/ surface_crossed (out s') = F90_NONE))).
      { intros -> Hi. split; [exact Htouched1 |]. split; [lia |].
        intros _. rewrite Hout. destruct (Hpos ltac:(lia)) as [Hnl Hex].
        split; [lia | exact Hex]. }
      destruct (PrimFloat.ltb _ (d_lat s1)).
      + destruct (Geometry.replaces _ _ _) eqn:Hrep.
        * apply bind_inv in Hstep as (sc & _ & Hstep). injection Hstep as <-.
          simpl. split; [exact Htouched1 |]. split; [lia |].
          intros _. split; [lia | by left].
        * injection Hstep as <-. apply Hkeep; [reflexivity |].
          intros Hi. rewrite (Hfirst Hi) in Hrep. discriminate.
      + destruct (Geometry.replaces _ _ _) eqn:Hrep.
        * injection Hstep as <-.
          simpl. split; [exact Htouched1 |]. split; [lia |].
          intros _. split; [lia | by right].
        * injection Hstep as <-. apply Hkeep; [reflexivity |].
          intros Hi. rewrite (Hfirst Hi) in Hrep. discriminate.
    - simpl. split; [| split; [done | lia]].
      split; [by destruct p |]. split; [by left |].
      exists []. by rewrite app_nil_r. }
  destruct Hinv as ((Hp & Halive & Hlog) & Hzero & Hpos).
  split; [exact Hp |]. split; [exact Halive |]. split; [exact Hlog |].
  split.
  - intros Hn. apply Hzero. lia.
  - intros Hn. destruct (Hpos ltac:(lia)) as [Hnl Hex].
    split; [lia | exact Hex].
Qed.

(** ** The levels of the boundary search *)

Lemma level_touches (mdl : Model L Sf) (i : nat) (p : Particle)
    (log : list Event) (st st' : Levels) :
  level mdl i st = Returned st' ->
  touched p log st ->
  touched p log st'.
Proof.
  intros Hrun Htouched.
  destruct (level_frame _ _ _ _ _ _ _ Hrun) as (frame & c & Hframe & Hc).
  destruct (level_inv _ _ _ _ _ _ _ _ _ Hframe Hc Hrun)
    as (st1 & Hst1 & _ & Hpart & Hev & _).
  destruct (lattice_level_touches _ _ _ _ _ _ _ Hst1 Htouched)
    as [_ Htouched1].
  by rewrite Hpart, Hev.
Qed.

(** The states of the level loop: [st i] holds the loop's variables
    before level [i], from the outermost level, 0, inwards. *)
Lemma level_states (mdl : Model L Sf) (p p' : Particle)
    (surface_crossed0 next_level0 : Z) (indeterminate : Indices)
    (log log' : list Event) (b : Boundary) :
  distance_to_boundary mdl p surface_crossed0 next_level0 indeterminate log
  = Returned (b, p', log') ->
  exists st : nat -> Levels,
    st 0%nat
    = {| out := {| dist := infinity; surface_crossed := surface_crossed0;
                   lattice_translation := (0, 0, 0);
                   next_level := next_level0 |};
         d_lat := infinity; level_lat_trans := indeterminate;
         particle := p; events := log |}
    /\ (out (st (Z.to_nat (n_coord p))), particle (st (Z.to_nat (n_coord p))),
        events (st (Z.to_nat (n_coord p)))) = (b, p', log')
    /\ (forall i, (i < Z.to_nat (n_coord p))%nat ->
          level mdl i (st i) = Returned (st (S i)))
    /\ (forall i, (i <= Z.to_nat (n_coord p))%nat -> touched p log (st i)).
Proof.
  unfold Geometry.distance_to_boundary, for_loop. intros Hrun.
  apply bind_inv in Hrun as (s & Hloop & Hret). injection Hret as <- <- <-.
  apply for_from_states in Hloop as (st & Hinit & Hn & Hstep & _).
  exists st. split; [exact Hinit |]. split; [by rewrite Hn |].
  split; [exact Hstep |].
  induction i as [| i IH]; intros Hi.
  - rewrite Hinit. simpl. split; [by destruct p |]. split; [by left |].
    exists []. by rewrite app_nil_r.
  - apply (level_touches mdl i p log (st i)); [apply Hstep; lia | apply IH; lia].
Qed.

(** C1: [distance_to_boundary] goes through the coordinate levels from
    the outermost, level 0, to the innermost, starting from an infinite
    incumbent distance, and hands back the outputs left by the last level.
    At each level the candidate is the smaller of the cell-surface
    distance and [d_lat] (the distance the lattice reports when the frame
    is inside a lattice, the value carried from the levels above when it
    is not); it takes the place of the incumbent exactly when the
    incumbent is infinite or the relative gap
    [(incumbent - candidate) / incumbent] reaches [FP_REL_PRECISION];
    otherwise every output is left as the levels above set it.  Hence,
    when the levels below level [i] all have a candidate equal to the
    finite distance chosen at level [i] or above it, the call hands back
    the outputs as level [i] left them: a deeper boundary that coincides
    with a coarser one never displaces it. *)
Theorem coincident_boundary_keeps_coarser_level (mdl : Model L Sf)
    (p p' : Particle) (surface_crossed0 next_level0 : Z)
    (indeterminate : Indices) (log log' : list Event) (b : Boundary) :
  PrimFloat.ltb 0 FP_REL_PRECISION = true ->
  distance_to_boundary mdl p surface_crossed0 next_level0 indeterminate log
  = Returned (b, p', log') ->
  exists (st : nat -> Levels) (cand : nat -> float),
    out (st 0%nat)
    = {| dist := infinity; surface_crossed := surface_crossed0;
         lattice_translation := (0, 0, 0); next_level := next_level0 |}
    /\ d_lat (st 0%nat) = infinity
    /\ out (st (Z.to_nat (n_coord p))) = b
    /\ (forall i, (i < Z.to_nat (n_coord p))%nat ->
          exists frame c,
            coord p !! i = Some frame
            /\ lookupZ (cells mdl) (cell frame) = Some c
            /\ ((lattice frame =? F90_NONE) = true ->
                  d_lat (st (S i)) = d_lat (st i))
            /\ ((lattice frame =? F90_NONE) = false ->
                  exists lat r,
                    lookupZ (lattices mdl) (lattice frame - 1) = Some lat
                    /\ lattice_position p i frame (lat_type_ lat)
                       = Returned r
                    /\ d_lat (st (S i))
                       = (lat_distance lat r (uvw frame)
                            (lattice_x frame, lattice_y frame,
                             lattice_z frame)).1)
            /\ cand i
               = candidate
                   (Cell_distance c (xyz frame) (uvw frame) (surface p)).1
                   (d_lat (st (S i)))
            /\ (PrimFloat.eqb (dist (out (st i))) infinity
                || PrimFloat.leb FP_REL_PRECISION
                     ((dist (out (st i)) - cand i) / dist (out (st i)))%float
                = true ->
                  dist (out (st (S i))) = cand i
                  /\ next_level (out (st (S i))) = Z.of_nat i + 1)
            /\ (PrimFloat.eqb (dist (out (st i))) infinity
                || PrimFloat.leb FP_REL_PRECISION
                     ((dist (out (st i)) - cand i) / dist (out (st i)))%float
                = false ->
                  out (st (S i)) = out (st i)))
    /\ (forall i, (i < Z.to_nat (n_coord p))%nat ->
          PrimFloat.eqb (dist (out (st (S i)))) infinity = false ->
          (forall k, (i < k < Z.to_nat (n_coord p))%nat ->
             cand k = dist (out (st (S i)))) ->
          b = out (st (S i))).
Proof.
  intros Heps Hrun.
  destruct (level_states _ _ _ _ _ _ _ _ _ Hrun)
    as (st & Hinit & Hret & Hstep & Htouched).
  injection Hret as Hb _ _.
  pose (cand := fun i =>
          match coord p !! i with
          | Some frame =>
              match lookupZ (cells mdl) (cell frame) with
              | Some c =>
                  candidate
                    (Cell_distance c (xyz frame) (uvw frame) (surface p)).1
                    (d_lat (st (S i)))
              | None => 0%float
              end
          | None => 0%float
          end).
  assert (Hlevel : forall i, (i < Z.to_nat (n_coord p))%nat ->
            exists frame c,
              coord p !! i = Some frame
              /\ lookupZ (cells mdl) (cell frame) = Some c
              /\ ((lattice frame =? F90_NONE) = true ->
                    d_lat (st (S i)) = d_lat (st i))
              /\ ((lattice frame =? F90_NONE) = false ->
                    exists lat r,
                      lookupZ (lattices mdl) (lattice frame - 1) = Some lat
                      /\ lattice_position p i frame (lat_type_ lat)
                         = Returned r
                      /\ d_lat (st (S i))
                         = (lat_distance lat r (uvw frame)
                              (lattice_x frame, lattice_y frame,
                               lattice_z frame)).1)
              /\ cand i
                 = candidate
                     (Cell_distance c (xyz frame) (uvw frame) (surface p)).1
                     (d_lat (st (S i)))
              /\ (Geometry.replaces FP_REL_PRECISION (dist (out (st i)))
                    (cand i) = true ->
                    dist (out (st (S i))) = cand i
                    /\ next_level (out (st (S i))) = Z.of_nat i + 1)
              /\ (Geometry.replaces FP_REL_PRECISION (dist (out (st i)))
                    (cand i) = false ->
                    out (st (S i)) = out (st i))).
  { intros i Hi. pose proof (Hstep i Hi) as Hlev.
    destruct (Htouched i ltac:(lia)) as (Hpart & _).
    destruct (level_frame _ _ _ _ _ _ _ Hlev) as (frame & c & Hframe & Hc).
    destruct (level_inv _ _ _ _ _ _ _ _ _ Hframe Hc Hlev)
      as (st1 & Hst1 & Hd & _ & _ & Hkeep & Htake).
    destruct (lattice_level_inv _ _ _ _ _ _ Hst1) as (Hout & Hnone & Hsome).
    rewrite Hpart in Hframe, Hkeep, Htake. cbn [coord surface set_alive] in *.
    rewrite Hout, <- Hd in Hkeep, Htake.
    exists frame, c. split; [exact Hframe |]. split; [exact Hc |].
    split; [intros Hl; by rewrite Hd, (Hnone Hl) |].
    split.
    { intros Hl. destruct (Hsome Hl) as (lat & r & Hlat & Hdl & _ & _ & Hr).
      rewrite Hpart in Hr.
      exists lat, r. split; [exact Hlat |]. split; [exact Hr |].
      by rewrite Hd. }
    assert (Hcand : cand i
                    = candidate
                        (Cell_distance c (xyz frame) (uvw frame) (surface p)).1
                        (d_lat (st (S i))))
      by (unfold cand; by rewrite Hframe, Hc).
    split; [exact Hcand |]. rewrite Hcand.
    split; [exact Htake |]. intros Hno. by rewrite (Hkeep Hno). }
  exists st, cand. rewrite Hinit. cbn [out d_lat].
  split; [reflexivity |]. split; [reflexivity |]. split; [exact Hb |].
  split.
  { intros i Hi.
    destruct (Hlevel i Hi)
      as (frame & c & Hframe & Hc & Hnone & Hsome & Hcand & Htake & Hkeep).
    exists frame, c. split; [exact Hframe |]. split; [exact Hc |].
    split; [exact Hnone |]. split; [exact Hsome |]. split; [exact Hcand |].
    split; [exact Htake | exact Hkeep]. }
  intros i Hi Hfinite Hsame.
  assert (Hall : forall k, (S i <= k <= Z.to_nat (n_coord p))%nat ->
            out (st k) = out (st (S i))).
  { induction k as [| k IH]; intros Hk; [lia |].
    destruct (decide (k = i)) as [-> | Hne]; [reflexivity |].
    destruct (Hlevel k ltac:(lia)) as (_ & _ & _ & _ & _ & _ & _ & _ & Hkeep).
    rewrite Hkeep; [apply IH; lia |].
    rewrite IH by lia. rewrite Hsame by lia.
    unfold Geometry.replaces. rewrite Hfinite. simpl.
    by apply relative_gap_of_equal. }
  rewrite <- Hb. apply Hall. lia.
Qed.


End BoundaryFacts.

(** * Properties of the overlap check *)

Section OverlapFacts.

Import Geometry Overlap.

Set Default Proof Using "Type".

Context {L Sf : Type}.

Variable Cell_contains : Cell -> Position -> Direction -> Z -> bool.

Local Abbreviation check_cells := (Overlap.check_cells Cell_contains).
Local Abbreviation check_cell_overlap :=
  (Overlap.check_cell_overlap Cell_contains).

(** In the universe of [frame], a cell other than the frame's own
    contains the particle. *)
Local Abbreviation overlap_at mdl p frame univ msg :=
  (exists i_cell c own,
     i_cell ∈ cells_ univ
     /\ lookupZ (cells mdl) i_cell = Some c
     /\ Cell_contains c (xyz frame) (uvw frame) (surface p) = true
     /\ i_cell <> cell frame
     /\ lookupZ (cells mdl) (cell frame) = Some own
     /\ msg = OverlappingCells (id_ c) (id_ own) (univ_id_ univ)).

Lemma check_cells_inv (mdl : Model L Sf) (p : Particle) (frame : LocalCoord)
    (univ : Universe) :
  forall todo counts r,
    (forall i, i ∈ todo -> i ∈ cells_ univ) ->
    check_cells mdl p frame univ todo counts = Returned r ->
    match r with
    | Pass counts' =>
        length counts' = length counts
        /\ forall i_cell c,
             i_cell ∈ todo -> lookupZ (cells mdl) i_cell = Some c ->
             Cell_contains c (xyz frame) (uvw frame) (surface p) = true ->
             i_cell = cell frame
    | Fatal msg => overlap_at mdl p frame univ msg
    end.
Proof.
  induction todo as [| i rest IH]; intros counts r Hsub Hrun.
  - injection Hrun as <-. split; [reflexivity |].
    intros i_cell c Hin. by apply elem_of_nil in Hin.
  - simpl in Hrun. apply bind_inv in Hrun as (r1 & Hone & Hrun).
    unfold check_cell in Hone.
    apply bind_inv in Hone as (c & Hc & Hone). apply at_Z_inv in Hc.
    destruct (Cell_contains c (xyz frame) (uvw frame) (surface p)) eqn:Hin.
    + destruct (Z.eqb_spec i (cell frame)) as [Heq | Hne]; simpl in Hone.
      * apply bind_inv in Hone as (n & _ & Hone).
        apply bind_inv in Hone as (counts1 & Hput & Hone).
        injection Hone as <-.
        destruct (lookupZ_put_eq _ _ _ _ Hput) as [_ Hlen].
        specialize (IH counts1 r ltac:(intros; apply Hsub; by right) Hrun).
        destruct r as [counts' | msg]; [| exact IH].
        destruct IH as [Hlen' Hall]. split; [congruence |].
        intros i_cell c' Hi Hc' Hin'.
        apply elem_of_cons in Hi as [-> | Hi]; [exact Heq | eauto].
      * apply bind_inv in Hone as (own & Hown & Hone). injection Hone as <-.
        injection Hrun as <-. apply at_Z_inv in Hown.
        exists i, c, own. repeat split; try done. apply Hsub. by left.
    + injection Hone as <-.
      specialize (IH counts r ltac:(intros; apply Hsub; by right) Hrun).
      destruct r as [counts' | msg]; [| exact IH].
      destruct IH as [Hlen' Hall]. split; [exact Hlen' |].
      intros i_cell c' Hi Hc' Hin'.
      apply elem_of_cons in Hi as [-> | Hi]; [| eauto].
      congruence.
Qed.

(** X20: [check_cell_overlap] either ends in [fatal_error] or returns
    [false].  When it returns, at every coordinate level no cell of the
    level's universe other than the level's own cell contains the
    particle, and the counters keep their number.  When it ends in
    [fatal_error], there is a level at which another cell of the universe
    contains the particle, and the message names that cell, the level's
    own cell and the universe. *)
Theorem check_cell_overlap_sound (mdl : Model L Sf) (p : Particle)
    (counts : list Z) (r : checked (bool * list Z)) :
  check_cell_overlap mdl p counts = Returned r ->
  match r with
  | Pass (answer, counts') =>
      answer = false
      /\ length counts' = length counts
      /\ forall (j : nat) frame univ i_cell c,
           Z.of_nat j < n_coord p ->
           coord p !! j = Some frame ->
           lookupZ (universes mdl) (universe frame) = Some univ ->
           i_cell ∈ cells_ univ ->
           lookupZ (cells mdl) i_cell = Some c ->
           Cell_contains c (xyz frame) (uvw frame) (surface p) = true ->
           i_cell = cell frame
  | Fatal msg =>
      exists (j : nat) frame univ,
        Z.of_nat j < n_coord p
        /\ coord p !! j = Some frame
        /\ lookupZ (universes mdl) (universe frame) = Some univ
        /\ exists i_cell c own,
             i_cell ∈ cells_ univ
             /\ lookupZ (cells mdl) i_cell = Some c
             /\ Cell_contains c (xyz frame) (uvw frame) (surface p) = true
             /\ i_cell <> cell frame
             /\ lookupZ (cells mdl) (cell frame) = Some own
             /\ msg = OverlappingCells (id_ c) (id_ own) (univ_id_ univ)
  end.
Proof.
  unfold Overlap.check_cell_overlap, for_loop. intros Hrun.
  apply bind_inv in Hrun as (st & Hloop & Hrun).
  assert (Hinv :
    match st with
    | Pass counts' =>
        length counts' = length counts
        /\ forall (j : nat) frame univ i_cell c,
             (j < Z.to_nat (n_coord p))%nat ->
             coord p !! j = Some frame ->
             lookupZ (universes mdl) (universe frame) = Some univ ->
             i_cell ∈ cells_ univ ->
             lookupZ (cells mdl) i_cell = Some c ->
             Cell_contains c (xyz frame) (uvw frame) (surface p) = true ->
             i_cell = cell frame
    | Fatal msg =>
        exists (j : nat) frame univ,
          (j < Z.to_nat (n_coord p))%nat
          /\ coord p !! j = Some frame
          /\ lookupZ (universes mdl) (universe frame) = Some univ
          /\ overlap_at mdl p frame univ msg
    end).
  { refine (for_from_invariant_at
              (fun i s =>
                 match s with
                 | Pass counts' =>
                     length counts' = length counts
                     /\ forall (j : nat) frame univ i_cell c,
                          (j < i)%nat ->
                          coord p !! j = Some frame ->
                          lookupZ (universes mdl) (universe frame) = Some univ ->
                          i_cell ∈ cells_ univ ->
                          lookupZ (cells mdl) i_cell = Some c ->
                          Cell_contains c (xyz frame) (uvw frame) (surface p)
                          = true ->
                          i_cell = cell frame
                 | Fatal msg =>
                     exists (j : nat) frame univ,
                       (j < i)%nat
                       /\ coord p !! j = Some frame
                       /\ lookupZ (universes mdl) (universe frame) = Some univ
                       /\ overlap_at mdl p frame univ msg
                 end)
              _ _ _ 0%nat (Pass counts) st Hloop _).
    - clear. intros i s s' Hstep Hs. unfold check_level in Hstep.
      destruct s as [counts1 | msg].
      + apply bind_inv in Hstep as (frame & Hframe & Hstep).
        apply bind_inv in Hstep as (univ & Huniv & Hstep).
        apply at_nat_inv in Hframe. apply at_Z_inv in Huniv.
        apply check_cells_inv in Hstep; [| done].
        destruct Hs as [Hlen Hall]. destruct s' as [counts' | msg].
        * destruct Hstep as [Hlen' Hhere]. split; [congruence |].
          intros j frame' univ' i_cell c Hj Hframe' Huniv' Hi Hc Hin.
          destruct (decide (j = i)) as [-> | Hne].
          -- assert (frame' = frame) as -> by congruence.
             assert (univ' = univ) as -> by congruence. eauto.
          -- apply (Hall j frame' univ' i_cell c); try done. lia.
        * exists i, frame, univ. split; [lia |]. by repeat split.
      + injection Hstep as <-. destruct Hs as (j & frame & univ & Hj & Hrest).
        exists j, frame, univ. split; [lia | exact Hrest].
    - split; [reflexivity |]. intros j. lia. }
  destruct st as [counts' | msg]; injection Hrun as <-.
  - destruct Hinv as [Hlen Hall]. split; [reflexivity |].
    split; [exact Hlen |].
    intros j frame univ i_cell c Hj. apply Hall. lia.
  - destruct Hinv as (j & frame & univ & Hj & Hframe & Huniv & Hover).
    exists j, frame, univ. split; [lia |]. by repeat split.
Qed.

End OverlapFacts.

(** * Properties of [finalize] *)

Section FinalizeFacts.

Import Material MaterialApi.

Set Default Proof Using "Type".

Context {R : Type} `{Arith R} `{ArithExt R}.

Variable run_CE : bool.
Variable photon_transport : bool.
Variable electron_treatment_is_TTB : bool.
Variable MASS_NEUTRON : R.
Variable N_AVOGADRO : R.
Variable nuclides_MG : list (Nuclide R).
Variable thermal_scatt : list ThermalScattering.
Variable init_bremsstrahlung : Material R -> Material R.

Local Abbreviation finalize :=
  (MaterialApi.finalize run_CE photon_transport electron_treatment_is_TTB
     MASS_NEUTRON N_AVOGADRO nuclides_MG thermal_scatt init_bremsstrahlung).

Lemma any_fissionable_spec (d : Data R) (nuc : list Z) (b : bool) :
  any_fissionable d nuc = Returned b ->
  (b = true <->
   exists g n, g ∈ nuc /\ lookupZ (nuclides d) g = Some n
               /\ nuc_fissionable_ n = true).
Proof.
  revert b. induction nuc as [| g rest IH]; intros b Hrun.
  - injection Hrun as <-. split; [discriminate |].
    intros (g & n & Hin & _). by apply elem_of_nil in Hin.
  - simpl in Hrun. apply bind_inv in Hrun as (n & Hn & Hrun).
    apply at_Z_inv in Hn. destruct (nuc_fissionable_ n) eqn:Hfis.
    + injection Hrun as <-. split; [| done].
      intros _. exists g, n. split; [by left | by split].
    + destruct (IH b Hrun) as [Hto Hfrom]. split.
      * intros Hb. destruct (Hto Hb) as (g' & n' & Hin & Hrest).
        exists g', n'. split; [by right | exact Hrest].
      * intros (g' & n' & Hin & Hg' & Hn'). apply Hfrom.
        apply elem_of_cons in Hin as [-> | Hin]; [congruence |].
        by exists g', n'.
Qed.

Lemma init_thermal_frame (d : Data R) (m m' : Material R) :
  init_thermal thermal_scatt d m = Returned (Pass m') ->
  m' = set_thermal_tables_ m (thermal_tables_ m').
Proof.
  unfold init_thermal. intros Hrun.
  apply bind_inv in Hrun as (assigned & _ & Hrun).
  destruct assigned as [tables | msg]; [| discriminate].
  destruct (repeated_slot tables).
  - destruct (at_Z (nuclide_ m) z) as [index | |]; [| discriminate..].
    simpl in Hrun. destruct (at_Z (nuclides d) index); discriminate.
  - by injection Hrun as <-.
Qed.

Lemma normalize_density_frame (d : Data R) (m m' : Material R) :
  normalize_density run_CE MASS_NEUTRON N_AVOGADRO nuclides_MG d m
  = Returned m' ->
  fissionable_ m' = fissionable_ m /\ id_ m' = id_ m
  /\ nuclide_ m' = nuclide_ m /\ volume_ m' = volume_ m
  /\ thermal_tables_ m' = thermal_tables_ m.
Proof.
  unfold normalize_density. intros Hrun.
  apply bind_inv in Hrun as (a0 & _ & Hrun).
  apply bind_inv in Hrun as (ad1 & _ & Hrun).
  apply bind_inv in Hrun as (density & _ & Hrun).
  apply bind_inv in Hrun as (g & _ & Hrun). by injection Hrun as <-.
Qed.

(** X21: without bremsstrahlung data to build, a material that
    [finalize] lets through is flagged fissionable exactly when it
    already was or one of its nuclides is fissionable in the library (the
    flag is never cleared), and keeps its id, its nuclides and its
    volume. *)
Theorem finalize_flags_fissionable (d : Data R) (m m' : Material R) :
  photon_transport && electron_treatment_is_TTB = false ->
  finalize d m = Returned (Pass m') ->
  (fissionable_ m' = true <->
   fissionable_ m = true
   \/ exists g n, g ∈ nuclide_ m /\ lookupZ (nuclides d) g = Some n
                  /\ nuc_fissionable_ n = true)
  /\ id_ m' = id_ m /\ nuclide_ m' = nuclide_ m /\ volume_ m' = volume_ m.
Proof.
  intros Hoff Hrun. unfold MaterialApi.finalize in Hrun. rewrite Hoff in Hrun.
  apply bind_inv in Hrun as (fis & Hfis & Hrun). cbv zeta in Hrun.
  apply any_fissionable_spec in Hfis.
  apply bind_inv in Hrun as (r & Hthermal & Hrun).
  destruct r as [m3 | msg]; [| discriminate].
  apply bind_inv in Hrun as (m4 & Hnorm & Hrun). injection Hrun as <-.
  apply init_thermal_frame in Hthermal.
  apply normalize_density_frame in Hnorm as (Hf & Hid & Hnuc & Hvol & _).
  rewrite Hf, Hid, Hnuc, Hvol, Hthermal. destruct fis; simpl.
  - split; [| done]. split; [| done]. intros _. right. by apply Hfis.
  - split; [| done]. split.
    + intros Hm. by left.
    + intros [Hm | Hex]; [exact Hm |]. apply Hfis in Hex. discriminate.
Qed.

End FinalizeFacts.

(** * Properties of the lattice crossing *)

Section CrossingFacts.

Import Geometry Crossing.

Set Default Proof Using "Type".

Context {L Sf : Type} `{LatticeClass L} `{SurfaceClass Sf}.

Variable Cell_contains : Cell -> Position -> Direction -> Z -> bool.
Variable MATERIAL_VOID : Z.
Variable F90_NONE : Z.
Variable NO_OUTER_UNIVERSE : Z.
Variable MAX_COORD : nat.
Variable TINY_BIT : float.
Variable verbosity : Z.
Variable trace : bool.

Local Abbreviation find_cell :=
  (Geometry.find_cell Cell_contains MATERIAL_VOID F90_NONE NO_OUTER_UNIVERSE
     MAX_COORD TINY_BIT verbosity trace).
Local Abbreviation search :=
  (Crossing.search Cell_contains MATERIAL_VOID F90_NONE NO_OUTER_UNIVERSE
     MAX_COORD TINY_BIT verbosity trace).
Local Abbreviation search_from_base :=
  (Crossing.search_from_base Cell_contains MATERIAL_VOID F90_NONE
     NO_OUTER_UNIVERSE MAX_COORD TINY_BIT verbosity trace).
Local Abbreviation cross_lattice :=
  (Crossing.cross_lattice Cell_contains MATERIAL_VOID F90_NONE
     NO_OUTER_UNIVERSE MAX_COORD TINY_BIT verbosity trace).

(** The particle has been found by a search without neighbor lists. *)
Local Abbreviation found_by_search fuel mdl p' :=
  (exists q ev, find_cell fuel mdl q false [] = Returned (true, p', mdl, ev)).

Lemma search_inv (fuel : nat) (mdl mdl' : Model L Sf) (p p' : Particle)
    (found : bool) (log log' : list CrossEvent) :
  search fuel mdl p log = Returned (found, p', mdl', log') ->
  mdl' = mdl
  /\ (exists ext, log' = log ++ ext)
  /\ exists ev, find_cell fuel mdl p false [] = Returned (found, p', mdl, ev).
Proof.
  unfold Crossing.search. intros Hrun.
  apply bind_inv in Hrun as ([[[found1 p1] mdl1] ev] & Hfind & Hrun).
  injection Hrun as <- <- <- <-.
  assert (mdl1 = mdl) as ->.
  { unfold Geometry.find_cell in Hfind.
    apply bind_inv in Hfind as (p0 & _ & Hfind).
    apply bind_inv in Hfind as ([[f q] l] & _ & Hfind).
    by injection Hfind as _ _ <- _. }
  split; [reflexivity |]. split; [by eexists | by exists ev].
Qed.

Lemma search_from_base_inv (fuel : nat) (mdl mdl' : Model L Sf)
    (p p' : Particle) (log log' : list CrossEvent) :
  search_from_base fuel mdl p log = Returned (p', mdl', log') ->
  mdl' = mdl
  /\ (exists ext, log' = log ++ ext)
  /\ (alive p' = true -> found_by_search fuel mdl p').
Proof.
  unfold Crossing.search_from_base. intros Hrun.
  apply bind_inv in Hrun as ([[[found p1] mdl1] log1] & Hsearch & Hrun).
  apply search_inv in Hsearch as (-> & [ext ->] & ev & Hfind).
  destruct found; simpl in Hrun.
  - injection Hrun as <- <- <-. split; [reflexivity |].
    split; [by exists ext |]. intros _. by eexists _, ev.
  - destruct (alive p1) eqn:Halive; injection Hrun as <- <- <-.
    + split; [reflexivity |]. split; [| discriminate].
      eexists. by rewrite <- app_assoc.
    + split; [reflexivity |]. split; [by exists ext | congruence].
Qed.

(** X22: [cross_lattice] leaves the registries as they are (its
    searches use no neighbor list), only adds messages, and hands back a
    particle that is alive only if the last search it made found it: a
    live particle that no search finds is marked lost. *)
Theorem cross_lattice_locates_or_loses (fuel : nat) (mdl mdl' : Model L Sf)
    (p p' : Particle) (lattice_translation : Indices)
    (log log' : list CrossEvent) :
  cross_lattice fuel mdl p lattice_translation log
  = Returned (p', mdl', log') ->
  mdl' = mdl
  /\ (exists ext, log' = log ++ ext)
  /\ (alive p' = true ->
      exists q ev,
        find_cell fuel mdl q false [] = Returned (true, p', mdl, ev)).
Proof.
  unfold Crossing.cross_lattice. intros Hrun.
  apply bind_inv in Hrun as (frame & _ & Hrun).
  apply bind_inv in Hrun as (lat & _ & Hrun). cbv zeta in Hrun.
  apply bind_inv in Hrun as (p1 & _ & Hrun).
  apply bind_inv in Hrun as (frame1 & _ & Hrun).
  apply bind_inv in Hrun as (above & _ & Hrun).
  apply bind_inv in Hrun as (p2 & _ & Hrun).
  assert (Hlog : forall l : list CrossEvent,
            (exists ext, l = (if (10 <=? verbosity) || trace
                              then log ++ [crossing_lattice (lat_id_ lat)
                                             (lattice_x frame)
                                             (lattice_y frame)
                                             (lattice_z frame)]
                              else log) ++ ext) ->
            exists ext, l = log ++ ext).
  { intros l [ext ->]. destruct ((10 <=? verbosity) || trace).
    - eexists. by rewrite <- app_assoc.
    - by exists ext. }
  destruct (negb (are_valid_indices lat _)).
  - apply search_from_base_inv in Hrun as (-> & Hext & Hfound).
    split; [reflexivity |]. split; [by apply Hlog | exact Hfound].
  - apply bind_inv in Hrun as (p3 & _ & Hrun).
    apply bind_inv in Hrun as ([[[found p4] mdl1] log2] & Hsearch & Hrun).
    apply search_inv in Hsearch as (-> & [ext ->] & ev & Hfind).
    destruct found.
    + injection Hrun as <- <- <-. split; [reflexivity |].
      split; [apply Hlog; by exists ext |]. intros _. by eexists _, ev.
    + apply search_from_base_inv in Hrun as (-> & [ext' ->] & Hfound).
      split; [reflexivity |]. split; [| exact Hfound].
      apply Hlog. eexists. by rewrite <- app_assoc.
Qed.

End CrossingFacts.

(** * Properties of the summary output *)

Section Hdf5Facts.

Import Material MaterialApi.

Set Default Proof Using "Type".

Context {R : Type} `{Arith R}.

Variable run_CE : bool.
Variable MACROSCOPIC_AWR : R.
Variable nuclides_MG : list (Nuclide R).
Variable thermal_scatt : list ThermalScattering.

Local Abbreviation to_hdf5 :=
  (MaterialApi.to_hdf5 run_CE MACROSCOPIC_AWR nuclides_MG thermal_scatt).

Lemma hdf5_entry_inv (d : Data R) (m : Material R) (i : nat)
    (st st' : list string * list string * list R) :
  hdf5_entry run_CE MACROSCOPIC_AWR nuclides_MG d m i st = Returned st' ->
  length st.1.1 = length st.2 /\ (run_CE = true -> st.1.2 = []) ->
  length st'.1.1 = length st'.2 /\ (run_CE = true -> st'.1.2 = []).
Proof.
  unfold hdf5_entry. intros Hrun [Hlen Hce].
  apply bind_inv in Hrun as (i_nuc & _ & Hrun).
  destruct run_CE.
  - apply bind_inv in Hrun as (n & _ & Hrun).
    apply bind_inv in Hrun as (a & _ & Hrun). injection Hrun as <-. simpl.
    rewrite !length_app, Hlen. by split.
  - apply bind_inv in Hrun as (n & _ & Hrun).
    destruct (awr_ n != MACROSCOPIC_AWR)%ar.
    + apply bind_inv in Hrun as (a & _ & Hrun). injection Hrun as <-. simpl.
      rewrite !length_app, Hlen. by split.
    + injection Hrun as <-. simpl. by split.
Qed.

(** The calls of [to_hdf5], piece by piece. *)
Lemma to_hdf5_shape (d : Data R) (m : Material R)
    (calls : list (Hdf5Call R)) :
  to_hdf5 d m = Returned calls ->
  exists names macros dens sab,
    length names = length dens
    /\ (run_CE = true -> macros = [])
    /\ (sab = [] \/ exists l, sab = [write_dataset_strings "sab_names" l])
    /\ calls
       = [create_group (id_ m);
          write_attribute_int "depletable" (if depletable_ m then 1 else 0)]
         ++ (if (volume_ m > zero)%ar
             then [write_attribute_double "volume" (volume_ m)] else [])
         ++ [write_dataset_string "name" (name_ m);
             write_dataset_double "atom_density" (density_ m)]
         ++ match names with
            | [] => []
            | _ => [write_dataset_strings "nuclides" names;
                    write_dataset_doubles "nuclide_densities" dens]
            end
         ++ match macros with
            | [] => []
            | _ => [write_dataset_strings "macroscopics" macros]
            end
         ++ sab ++ [close_group].
Proof.
  unfold MaterialApi.to_hdf5. intros Hrun.
  apply bind_inv in Hrun as (st & Hloop & Hrun).
  assert (Hst : length st.1.1 = length st.2 /\ (run_CE = true -> st.1.2 = [])).
  { unfold for_loop in Hloop.
    refine (for_from_invariant _ _ (hdf5_entry_inv d m) _ _ _ _ Hloop _).
    by split. }
  destruct Hst as [Hlen Hce]. destruct st as [[names macros] dens].
  simpl in Hlen, Hce. cbn [fst snd] in Hrun.
  apply bind_inv in Hrun as (w5 & Hw5 & Hrun). injection Hrun as <-.
  destruct (thermal_tables_ m).
  - injection Hw5 as <-. exists names, macros, dens, [].
    split; [exact Hlen |]. split; [exact Hce |]. split; [by left |].
    by destruct (volume_ m > zero)%ar, names, macros.
  - apply bind_inv in Hw5 as (sn & _ & Hw5). injection Hw5 as <-.
    exists names, macros, dens, [write_dataset_strings "sab_names" sn].
    split; [exact Hlen |]. split; [exact Hce |]. split; [right; by eexists |].
    by destruct (volume_ m > zero)%ar, names, macros.
Qed.

(** X23: [Material::to_hdf5] opens the group of the material's id,
    writes "depletable" first and closes the group last.  The attribute
    "volume" is written exactly when the volume is greater than zero,
    with the material's volume.  A dataset "nuclides" is never empty and
    comes with a dataset "nuclide_densities" of the same length.  In
    continuous-energy mode no dataset "macroscopics" is written. *)
Theorem to_hdf5_writes (d : Data R) (m : Material R)
    (calls : list (Hdf5Call R)) :
  to_hdf5 d m = Returned calls ->
  (exists rest,
     calls = create_group (id_ m)
             :: write_attribute_int "depletable"
                  (if depletable_ m then 1 else 0)
             :: rest ++ [close_group])
  /\ (forall v, write_attribute_double "volume" v ∈ calls <->
                v = volume_ m /\ (volume_ m > zero)%ar = true)
  /\ (forall names, write_dataset_strings "nuclides" names ∈ calls ->
        names <> []
        /\ exists dens,
             write_dataset_doubles "nuclide_densities" dens ∈ calls
             /\ length dens = length names)
  /\ (run_CE = true ->
      forall names, write_dataset_strings "macroscopics" names ∉ calls).
Proof.
  intros Hrun.
  apply to_hdf5_shape in Hrun
    as (names & macros & dens & sab & Hlen & Hce & Hsab & ->).
  split; [| split; [| split]].
  - exists ((if (volume_ m > zero)%ar
             then [write_attribute_double "volume" (volume_ m)] else [])
            ++ [write_dataset_string "name" (name_ m);
                write_dataset_double "atom_density" (density_ m)]
            ++ match names with
               | [] => []
               | _ => [write_dataset_strings "nuclides" names;
                       write_dataset_doubles "nuclide_densities" dens]
               end
            ++ match macros with
               | [] => []
               | _ => [write_dataset_strings "macroscopics" macros]
               end
            ++ sab).
    rewrite <- !app_assoc. reflexivity.
  - intros v. rewrite !elem_of_app, !elem_of_cons, !elem_of_nil.
    destruct (volume_ m > zero)%ar, names, macros, Hsab as [-> | [sn ->]];
      rewrite ?elem_of_cons, ?elem_of_nil;
      intuition (try discriminate; try congruence).
  - intros ns Hns.
    assert (Hin : write_dataset_strings "nuclides" ns
                  ∈ match names with
                    | [] => []
                    | _ => [write_dataset_strings "nuclides" names;
                            write_dataset_doubles "nuclide_densities" dens]
                    end).
    { revert Hns. rewrite !elem_of_app, !elem_of_cons, !elem_of_nil.
      destruct (volume_ m > zero)%ar, macros, Hsab as [-> | [sn ->]];
        rewrite ?elem_of_cons, ?elem_of_nil;
        intuition (try discriminate; try congruence). }
    destruct names as [| n0 names]; [by apply elem_of_nil in Hin |].
    apply elem_of_cons in Hin as [Heq | Hin];
      [| apply list_elem_of_singleton in Hin; discriminate].
    injection Heq as ->. split; [done |]. exists dens. split; [| done].
    rewrite !elem_of_app. do 3 right. left.
    apply elem_of_cons. right. by left.
  - intros Hrun_CE ns. rewrite (Hce Hrun_CE).
    rewrite !elem_of_app, !elem_of_cons, !elem_of_nil.
    destruct (volume_ m > zero)%ar, names, Hsab as [-> | [sn ->]];
      rewrite ?elem_of_cons, ?elem_of_nil;
      intuition (try discriminate; try congruence).
Qed.

End Hdf5Facts.

(** * Properties of [openmc_material_set_densities] *)

Lemma put_Z_nat {A} (l : list A) (i : nat) (v : A) :
  (i < length l)%nat -> put_Z l (Z.of_nat i) v = Returned (<[i := v]> l).
Proof.
  intros Hi. unfold put_Z, storeZ.
  replace (0 <=? Z.of_nat i) with true by (symmetry; apply Z.leb_le; lia).
  replace (Z.of_nat i <? Z.of_nat (length l)) with true
    by (symmetry; apply Z.ltb_lt; lia).
  simpl. by rewrite Nat2Z.id.
Qed.

Section SetDensitiesFacts.

Import Material MaterialApi.

Set Default Proof Using "Type".

Context {R : Type} `{Arith R}.

Variable MASS_NEUTRON : R.
Variable N_AVOGADRO : R.
Variable codes : ErrorCodes.
Variable thermal_scatt : list ThermalScattering.
Variable openmc_load_nuclide : string -> Data R -> Z * Data R.

Local Abbreviation set_density :=
  (Material.set_density MASS_NEUTRON N_AVOGADRO codes).
Local Abbreviation set_densities_entry :=
  (MaterialApi.set_densities_entry openmc_load_nuclide).
Local Abbreviation openmc_material_set_densities :=
  (MaterialApi.openmc_material_set_densities MASS_NEUTRON N_AVOGADRO codes
     thermal_scatt openmc_load_nuclide).

Lemma init_thermal_no_tables (d : Data R) (m : Material R) :
  thermal_tables_ m = [] ->
  init_thermal thermal_scatt d m = Returned (Pass (set_thermal_tables_ m [])).
Proof. unfold init_thermal. by intros ->. Qed.

Lemma set_density_frame (d : Data R) (m m' : Material R) (x : R)
    (units : string) (r : Z) :
  set_density d m x units = Returned (r, m') ->
  thermal_tables_ m' = thermal_tables_ m /\ nuclide_ m' = nuclide_ m
  /\ length (atom_density_ m') = length (atom_density_ m).
Proof.
  unfold Material.set_density. intros Hrun.
  destruct (nuclide_ m) eqn:Hnuc; [by injection Hrun as <- <- |].
  destruct (String.eqb units "atom/b-cm").
  - apply bind_inv in Hrun as (g & _ & Hrun). injection Hrun as <- <-.
    simpl. unfold xmul, xdiv. by rewrite !length_map.
  - destruct (String.eqb units "g/cm3" || String.eqb units "g/cc");
      injection Hrun as <- <-; simpl; [| done].
    unfold xmul. by rewrite !length_map.
Qed.

(** X24: [openmc_material_set_densities] with [n = 0] on a material
    without thermal tables empties the material and reports success: the
    [OPENMC_E_ALLOCATE] that [set_density] answers for a material without
    nuclides is dropped, and [openmc_material_get_densities] fails on the
    material afterwards. *)
Theorem set_densities_of_nothing (mdl : Model R) (d : Data R) (index : Z)
    (name : list string) (density : list R) :
  index_in_bounds mdl index = true ->
  (forall mat, materials mdl !! Z.to_nat (index - 1) = Some mat ->
     thermal_tables_ mat = []) ->
  exists mdl',
    openmc_material_set_densities mdl d index 0 name density
    = Returned (Pass (0, mdl', d))
    /\ openmc_material_get_densities codes mdl' index
       = (OPENMC_E_ALLOCATE codes, None).
Proof.
  intros Hin Htables.
  destruct (index_in_bounds_lookup mdl index Hin) as [mat Hmat].
  specialize (Htables mat Hmat).
  unfold MaterialApi.openmc_material_set_densities.
  rewrite Hin, (at_nat_Some _ _ _ Hmat), bind_Returned.
  change (0 <? 0) with false. cbv iota. cbv zeta.
  change (Z.to_nat 0) with 0%nat. unfold for_loop.
  rewrite for_from_0, bind_Returned.
  set (mat1 := if negb (0 =? Z.of_nat (length (nuclide_ mat)))
               then set_atom_density_
                      (set_nuclide_ mat (resize (nuclide_ mat) 0))
                      (replicate 0 zero)
               else mat).
  assert (Hnuc : nuclide_ mat1 = []).
  { unfold mat1. destruct (Z.eqb_spec 0 (Z.of_nat (length (nuclide_ mat))));
      simpl; [| reflexivity].
    apply length_zero_iff_nil. lia. }
  assert (Hth : thermal_tables_ mat1 = []).
  { unfold mat1. by destruct (negb _). }
  unfold Material.set_density. rewrite Hnuc, bind_Returned. simpl.
  rewrite (init_thermal_no_tables d mat1 Hth), bind_Returned.
  eexists. split; [reflexivity |].
  unfold openmc_material_get_densities, index_in_bounds. simpl.
  rewrite length_insert. fold (index_in_bounds mdl index). rewrite Hin.
  rewrite list_lookup_insert_eq by (by apply lookup_lt_Some in Hmat).
  simpl. by rewrite Hnuc.
Qed.

(** The loop over the names, when every name is in the nuclide map. *)
Lemma set_densities_loop (d : Data R) (name : list string)
    (density : list R) (n : nat) (mat1 : Material R) :
  (n <= length name)%nat -> (n <= length density)%nat ->
  length (nuclide_ mat1) = n -> length (atom_density_ mat1) = n ->
  (forall nm, nm ∈ take n name -> is_Some (nuclide_map d !! nm)) ->
  exists mat2,
    for_loop n (set_densities_entry name density) (inr (d, mat1, zero))
    = Returned (inr (d, mat2, xsum (take n density)))
    /\ Forall2 (fun g nm => nuclide_map d !! nm = Some g)
         (nuclide_ mat2) (take n name)
    /\ atom_density_ mat2 = take n density
    /\ mat2 = set_atom_density_ (set_nuclide_ mat1 (nuclide_ mat2))
                (atom_density_ mat2).
Proof.
  intros Hname Hdens Hlen1 Hlen2 Hknown.
  destruct (for_from_returns
              (fun i st =>
                 exists mat',
                   st = inr (d, mat', fold_left add (take i density) zero)
                   /\ length (nuclide_ mat') = n
                   /\ length (atom_density_ mat') = n
                   /\ (forall k nm, (k < i)%nat -> name !! k = Some nm ->
                         exists g, nuclide_map d !! nm = Some g
                                   /\ nuclide_ mat' !! k = Some g)
                   /\ (forall k, (k < i)%nat ->
                         atom_density_ mat' !! k = density !! k)
                   /\ mat' = set_atom_density_
                               (set_nuclide_ mat1 (nuclide_ mat'))
                               (atom_density_ mat'))
              (set_densities_entry name density) n)
    with (n := n) (i := 0%nat) (s := @inr (Z * Data R * Material R) _
                                       (d, mat1, zero))
    as (st & Hrun & mat2 & -> & Hl1 & Hl2 & Hnuc & Had & Hframe).
  - intros i st Hi (mat' & -> & Hl1 & Hl2 & Hnuc & Had & Hframe).
    destruct (name !! i) as [nm |] eqn:Hnm;
      [| apply lookup_ge_None in Hnm; lia].
    destruct (Hknown nm) as [g Hg].
    { apply list_elem_of_lookup. exists i. by rewrite lookup_take_lt. }
    destruct (density !! i) as [x |] eqn:Hx;
      [| apply lookup_ge_None in Hx; lia].
    unfold MaterialApi.set_densities_entry.
    rewrite (at_nat_Some _ _ _ Hnm), bind_Returned, Hg.
    change (0 <? 0) with false. cbv iota.
    unfold nuclide_map_at. rewrite Hg.
    rewrite put_Z_nat by lia. rewrite bind_Returned.
    rewrite (at_nat_Some _ _ _ Hx), bind_Returned.
    rewrite put_Z_nat by lia. rewrite bind_Returned.
    eexists. split; [reflexivity |]. eexists. split.
    { do 2 f_equal. rewrite (take_S_r _ _ _ Hx), fold_left_app. reflexivity. }
    simpl. rewrite !length_insert.
    split; [exact Hl1 |]. split; [exact Hl2 |]. split; [| split].
    + intros k nm' Hk Hnm'. destruct (decide (k = i)) as [-> | Hne].
      * assert (nm' = nm) as -> by congruence. exists g.
        split; [exact Hg |]. apply list_lookup_insert_eq. lia.
      * destruct (Hnuc k nm' ltac:(lia) Hnm') as (g' & Hg' & Hk').
        exists g'. split; [exact Hg' |].
        by rewrite list_lookup_insert_ne by done.
    + intros k Hk. destruct (decide (k = i)) as [-> | Hne].
      * rewrite Hx. apply list_lookup_insert_eq. lia.
      * rewrite list_lookup_insert_ne by done. apply Had. lia.
    + rewrite Hframe at 1. reflexivity.
  - lia.
  - exists mat1. split; [reflexivity |]. split; [exact Hlen1 |].
    split; [exact Hlen2 |]. split; [intros k nm Hk; lia |].
    split; [intros k Hk; lia | by destruct mat1].
  - exists mat2. split; [exact Hrun |]. split; [| split; [| exact Hframe]].
    + apply Forall2_same_length_lookup_2.
      * rewrite length_take. lia.
      * intros k g nm Hg Hnm. apply lookup_take_Some in Hnm as [Hnm Hk].
        destruct (Hnuc k nm Hk Hnm) as (g' & Hg' & Hk'). congruence.
    + apply list_eq. intros k. destruct (decide (k < n)%nat) as [Hk | Hk].
      * rewrite lookup_take_lt by done. by apply Had.
      * rewrite lookup_ge_None_2 by lia.
        symmetry. apply lookup_ge_None_2. rewrite length_take. lia.
Qed.

(** X25: [openmc_material_set_densities] with [n > 0] names that are all
    in the nuclide map and in the library, on a material without thermal
    tables, returns 0 and leaves the id map and the data library alone;
    the material then lists the nuclides of the names, in order, its total
    density is the sum, from the left, of the densities given, and every
    per-nuclide density is the one given divided by that sum and
    multiplied by it again, in the code's arithmetic. *)
Theorem set_densities_stores (mdl : Model R) (d : Data R)
    (index n : Z) (name : list string) (density : list R)
    (mat : Material R) :
  index_in_bounds mdl index = true ->
  materials mdl !! Z.to_nat (index - 1) = Some mat ->
  thermal_tables_ mat = [] ->
  length (atom_density_ mat) = length (nuclide_ mat) ->
  0 < n ->
  (Z.to_nat n <= length name)%nat ->
  (Z.to_nat n <= length density)%nat ->
  (forall nm, nm ∈ take (Z.to_nat n) name ->
     exists g, nuclide_map d !! nm = Some g
               /\ is_Some (lookupZ (nuclides d) g)) ->
  exists mdl' mat',
    openmc_material_set_densities mdl d index n name density
    = Returned (Pass (0, mdl', d))
    /\ material_map mdl' = material_map mdl
    /\ materials mdl' !! Z.to_nat (index - 1) = Some mat'
    /\ Forall2 (fun g nm => nuclide_map d !! nm = Some g)
         (nuclide_ mat') (take (Z.to_nat n) name)
    /\ density_ mat' = xsum (take (Z.to_nat n) density)
    /\ atom_density_ mat'
       = xmul (xdiv (take (Z.to_nat n) density)
                 (xsum (take (Z.to_nat n) density)))
           (xsum (take (Z.to_nat n) density)).
Proof.
  intros Hin Hmat Htables Hpar Hn Hname Hdens Hknown.
  unfold MaterialApi.openmc_material_set_densities.
  rewrite Hin, (at_nat_Some _ _ _ Hmat), bind_Returned.
  replace (n <? 0) with false by (symmetry; apply Z.ltb_ge; lia).
  cbv iota. cbv zeta.
  set (mat1 := if negb (n =? Z.of_nat (length (nuclide_ mat)))
               then set_atom_density_
                      (set_nuclide_ mat
                         (resize (nuclide_ mat) (Z.to_nat n)))
                      (replicate (Z.to_nat n) zero)
               else mat).
  assert (Hlen1 : length (nuclide_ mat1) = Z.to_nat n).
  { unfold mat1. destruct (Z.eqb_spec n (Z.of_nat (length (nuclide_ mat))));
      simpl; [lia |].
    unfold resize. rewrite length_app, length_take, length_replicate. lia. }
  assert (Hlen2 : length (atom_density_ mat1) = Z.to_nat n).
  { unfold mat1. destruct (Z.eqb_spec n (Z.of_nat (length (nuclide_ mat))));
      simpl; [lia |]. by rewrite length_replicate. }
  assert (Hth1 : thermal_tables_ mat1 = []).
  { unfold mat1. by destruct (negb _). }
  destruct (set_densities_loop d name density
              (Z.to_nat n) mat1 Hname Hdens Hlen1 Hlen2)
    as (mat2 & Hloop & Hnuc & Had & Hframe).
  { intros nm Hnm. destruct (Hknown nm Hnm) as (g & Hg & _). by exists g. }
  rewrite Hloop, bind_Returned.
  assert (Hlen_nuc : length (nuclide_ mat2) = Z.to_nat n).
  { apply Forall2_length in Hnuc. rewrite Hnuc, length_take. lia. }
  destruct (set_density_atom MASS_NEUTRON N_AVOGADRO codes d mat2
              (xsum (take (Z.to_nat n) density)))
    as (mat3 & Hset & Hnuc3 & Hd3 & Had3).
  { intros Hnil. rewrite Hnil in Hlen_nuc. simpl in Hlen_nuc. lia. }
  { rewrite Had, length_take. lia. }
  { intros k g Hg.
    destruct (Forall2_lookup_l _ _ _ _ _ Hnuc Hg) as (nm & Hnm & Hmap).
    destruct (Hknown nm) as (g' & Hg' & Hlib).
    - by apply list_elem_of_lookup_2 in Hnm.
    - by assert (g' = g) as <- by congruence. }
  rewrite Hset, bind_Returned. cbn [fst snd].
  assert (Hth3 : thermal_tables_ mat3 = []).
  { destruct (set_density_frame _ _ _ _ _ _ Hset) as (-> & _).
    rewrite Hframe. simpl. exact Hth1. }
  rewrite (init_thermal_no_tables d mat3 Hth3), bind_Returned.
  eexists _, _. split; [reflexivity |]. simpl.
  split; [reflexivity |]. split.
  { apply list_lookup_insert_eq. by apply lookup_lt_Some in Hmat. }
  simpl. rewrite Hnuc3, Hd3, Had3, Had.
  split; [exact Hnuc |]. split; reflexivity.
Qed.

End SetDensitiesFacts.

(** * The properties of the rest of the code on concrete data *)

Local Abbreviation the_scene := (Scene.scene (Scene.tiles (0, 0, 0) 0.5)).
Local Abbreviation search_from fuel p :=
  (Geometry.find_cell_inner Scene.everywhere Scene.MATERIAL_VOID
     Scene.NO_OUTER_UNIVERSE Scene.TINY_BIT 7 false fuel the_scene p None []).
Local Abbreviation find_cell_from p use_neighbor_lists :=
  (Geometry.find_cell Scene.everywhere Scene.MATERIAL_VOID Scene.F90_NONE
     Scene.NO_OUTER_UNIVERSE Scene.MAX_COORD Scene.TINY_BIT 7 false 4
     the_scene p use_neighbor_lists []).
Local Abbreviation boundary_of p :=
  (Geometry.distance_to_boundary (Scene.surfaces_at 0.5 0.7) Scene.F90_NONE
     Scene.FP_REL_PRECISION the_scene p 0 0 (0, 0, 0) []).
Local Abbreviation cross_from p t :=
  (Crossing.cross_lattice Scene.everywhere Scene.MATERIAL_VOID Scene.F90_NONE
     Scene.NO_OUTER_UNIVERSE Scene.MAX_COORD Scene.TINY_BIT 7 false 4
     the_scene p t []).
Local Abbreviation finalize_fuel mat :=
  (MaterialApi.finalize true false false 1%float 2%float []
     Cases.thermal_scatt (fun m => m) Cases.fuel_library mat).

(** The hypothesis of [api_rejects_index_out_of_bounds] holds of index 3
    with two materials. *)
Lemma api_rejects_index_out_of_bounds_witness :
  (3 < 1 \/ Z.of_nat (length (Material.materials Examples.two_materials)) < 3)
  /\ MaterialApi.openmc_material_get_id Examples.codes Examples.two_materials 3
     = (-5, None)
  /\ Material.openmc_material_set_id Examples.codes Examples.two_materials 3 9
     = (-5, Examples.two_materials).
Proof.
  assert (Hout : 3 < 1
                 \/ Z.of_nat (length (Material.materials Examples.two_materials))
                    < 3) by (right; simpl; lia).
  split; [exact Hout |].
  destruct (api_rejects_index_out_of_bounds 1%float 2%float Examples.codes
              Cases.OPENMC_E_UNASSIGNED Examples.no_load
              Examples.two_materials (Examples.library 1 16)%float 3 9
              "O16" "g/cc" 1%float Hout)
    as (_ & _ & Hid & _ & _ & Hset & _).
  split; [exact Hid | exact Hset].
Defined.

(** The hypotheses of [set_id_then_get] hold when material 2 is given
    the id 9. *)
Lemma set_id_then_get_witness :
  Material.index_in_bounds Examples.two_materials 2 = true
  /\ in_int32 2
  /\ MaterialApi.openmc_material_get_id Examples.codes
       (Material.openmc_material_set_id Examples.codes
          Examples.two_materials 2 9).2 2 = (0, Some 9)
  /\ Material.openmc_get_material_index Examples.codes
       (Material.openmc_material_set_id Examples.codes
          Examples.two_materials 2 9).2 9 = (0, Some 2).
Proof.
  assert (Hint : in_int32 2) by (unfold in_int32; lia).
  split; [reflexivity |]. split; [exact Hint |].
  destruct (set_id_then_get Examples.codes Examples.two_materials 2 9
              eq_refl Hint) as (Hget & Hidx & _).
  split; [exact Hget | exact Hidx].
Defined.

(** The hypothesis of [set_volume_then_get] holds of material 1: the
    volume 2.5 is stored and handed back, the volume -1 is refused. *)
Lemma set_volume_then_get_witness :
  Material.index_in_bounds Examples.two_materials 1 = true
  /\ MaterialApi.openmc_material_get_volume Examples.codes
       Cases.OPENMC_E_UNASSIGNED
       (MaterialApi.openmc_material_set_volume Examples.codes
          Examples.two_materials 1 2.5%float).2 1 = (0, Some 2.5%float)
  /\ MaterialApi.openmc_material_set_volume Examples.codes
       Examples.two_materials 1 (-1)%float
     = (-4, Examples.two_materials).
Proof.
  split; [reflexivity |]. split.
  - destruct (set_volume_then_get Examples.codes Cases.OPENMC_E_UNASSIGNED
                Examples.two_materials 1 2.5%float eq_refl) as [Hok _].
    destruct (Hok eq_refl) as (_ & Hget & _). exact Hget.
  - destruct (set_volume_then_get Examples.codes Cases.OPENMC_E_UNASSIGNED
                Examples.two_materials 1 (-1)%float eq_refl) as [_ Hbad].
    exact (Hbad eq_refl).
Defined.

(** The hypotheses of [extend_materials_appends] hold when two materials
    are added to two. *)
Lemma extend_materials_appends_witness :
  0 <= 2
  /\ (MaterialApi.openmc_extend_materials Cases.storage
        Examples.two_materials 2).1.1.2 = 3
  /\ (MaterialApi.openmc_extend_materials Cases.storage
        Examples.two_materials 2).1.2 = 4
  /\ Z.of_nat (length (Material.materials Cases.extended)) = 4.
Proof.
  assert (H0 : 0 <= 2) by lia.
  assert (Hsmall : Z.of_nat (length (Material.materials Examples.two_materials))
                   + Z.max 1 2 < 2 ^ 31) by (simpl; lia).
  split; [exact H0 |].
  destruct (extend_materials_appends Examples.codes Cases.storage
              Examples.two_materials 2 H0 Hsmall)
    as (_ & Hstart & Hend & Hlen & _).
  split; [exact Hstart |]. split; [exact Hend | exact Hlen].
Defined.

(** The hypotheses of [extended_material_is_blank] hold of material 3,
    the first of the two new ones. *)
Lemma extended_material_is_blank_witness :
  @ge float _ (opp one) zero = false
  /\ MaterialApi.openmc_material_get_volume Examples.codes
       Cases.OPENMC_E_UNASSIGNED Cases.extended 3
     = (Cases.OPENMC_E_UNASSIGNED, None)
  /\ MaterialApi.openmc_material_set_density 1%float 2%float Examples.codes
       Cases.extended (Examples.library 1 16)%float 3 1%float "g/cc"
     = Returned (-3, Cases.extended).
Proof.
  assert (Hrange :
    Z.of_nat (length (Material.materials Examples.two_materials)) + 1 <= 3
    <= Z.of_nat (length (Material.materials Examples.two_materials)) + 2)
    by (simpl; lia).
  assert (Hneg : @ge float _ (opp one) zero = false) by (vm_compute; reflexivity).
  split; [exact Hneg |].
  destruct (extended_material_is_blank 1%float 2%float Examples.codes
              Cases.OPENMC_E_UNASSIGNED Cases.storage Examples.two_materials
              (Examples.library 1 16)%float 2 3 1%float "g/cc" Hneg Hrange)
    as (_ & Hvol & _ & Hset).
  split; [exact Hvol | exact Hset].
Defined.

(** The hypotheses of [read_materials_registers] hold of two materials
    with the ids 5 and 6 read into an empty model: the material of id 6
    is then found as material 2. *)
Lemma read_materials_registers_witness :
  NoDup (Material.id_ <$> (Material.materials Cases.no_materials
                           ++ Cases.parsed))
  /\ exists mdl',
       MaterialApi.read_materials Cases.parsed Cases.no_materials
       = Returned (Pass mdl')
       /\ Material.openmc_get_material_index Examples.codes mdl' 6
          = (0, Some 2).
Proof.
  assert (Hnodup : NoDup (Material.id_ <$> (Material.materials
                            Cases.no_materials ++ Cases.parsed))).
  { apply (bool_decide_unpack _). vm_compute. exact I. }
  split; [exact Hnodup |].
  destruct (read_materials_registers Cases.parsed Cases.no_materials Hnodup)
    as (mdl' & Hrun & Hmats & Hreg & _).
  { intros m _. apply lookup_empty. }
  exists mdl'. split; [exact Hrun |].
  unfold Material.openmc_get_material_index.
  rewrite (Hreg 1%nat (Examples.mixture 6 [1] [1]%float 1%float)).
  - reflexivity.
  - rewrite Hmats. reflexivity.
Defined.

(** The hypothesis of [read_materials_fatal_on_repeated_id] holds of two
    materials that share the id 5. *)
Lemma read_materials_fatal_on_repeated_id_witness :
  exists mid,
    mid ∈ Material.id_ <$> (Material.materials Cases.no_materials
                            ++ Cases.parsed_twice)
    /\ MaterialApi.read_materials Cases.parsed_twice Cases.no_materials
       = Returned (Fatal (DuplicateMaterialId mid)).
Proof.
  apply read_materials_fatal_on_repeated_id.
  intros [Hnodup _]. simpl in Hnodup.
  apply NoDup_cons in Hnodup as [Hnot _]. apply Hnot. by left.
Defined.

(** The hypothesis of [init_thermal_sorts_by_slot] holds of the water
    with the table of oxygen before the table of hydrogen: the entries
    come out by slot. *)
Lemma init_thermal_sorts_by_slot_witness :
  MaterialApi.init_thermal Cases.thermal_scatt (Examples.library 1 16)%float
    Cases.moderated_water = Returned (Pass Cases.assigned_water)
  /\ StronglySorted MaterialApi.before_slot
       (Material.thermal_tables_ Cases.assigned_water)
  /\ forall t0, t0 ∈ Material.thermal_tables_ Cases.moderated_water ->
       exists t, t ∈ Material.thermal_tables_ Cases.assigned_water
                 /\ Material.index_table t = Material.index_table t0
                 /\ Material.fraction t = Material.fraction t0.
Proof.
  assert (Hrun : MaterialApi.init_thermal Cases.thermal_scatt
                   (Examples.library 1 16)%float Cases.moderated_water
                 = Returned (Pass Cases.assigned_water)) by (vm_compute; reflexivity).
  split; [exact Hrun |].
  destruct (init_thermal_sorts_by_slot Cases.thermal_scatt
              (Examples.library 1 16)%float Cases.moderated_water
              Cases.assigned_water Hrun) as (_ & Hsorted & _ & Hall & _).
  split; [exact Hsorted | exact Hall].
Defined.

(** [set_density_refusals] on a material without nuclides and valid
    units, and on the water with unknown units. *)
Lemma set_density_refusals_witness :
  Material.set_density 1%float 2%float Examples.codes
    (Examples.library 1 16)%float Examples.nothing 1%float "atom/b-cm"
  = Returned (-3, Examples.nothing)
  /\ Material.set_density 1%float 2%float Examples.codes
       (Examples.library 1 16)%float Examples.water 1%float "kg/m3"
     = Returned (-4, Examples.water).
Proof.
  split.
  - apply (proj1 (set_density_refusals 1%float 2%float Examples.codes
                    (Examples.library 1 16)%float Examples.nothing 1%float
                    "atom/b-cm")).
    reflexivity.
  - apply (proj1 (proj2 (set_density_refusals 1%float 2%float Examples.codes
                           (Examples.library 1 16)%float Examples.water
                           1%float "kg/m3"))); discriminate.
Defined.

(** The hypothesis of [find_cell_inner_builds_chain] holds of the
    descent of the scene: the deepest frame, frame 2, holds a
    MATERIAL-filled cell. *)
Lemma find_cell_inner_builds_chain_witness :
  search_from 3 Scene.unlocated
  = Returned (true, Cases.pinned, [])
  /\ Geometry.n_coord Scene.unlocated <= Geometry.n_coord Cases.pinned
  /\ exists f c,
       lookupZ (Geometry.coord Cases.pinned) 2 = Some f
       /\ lookupZ (Geometry.cells (Scene.scene (Scene.tiles (0, 0, 0) 0.5)))
            (Geometry.cell f) = Some c
       /\ Geometry.universe_ c = Geometry.universe f
       /\ Geometry.type_ c = Geometry.FILL_MATERIAL.
Proof.
  assert (Hrun : search_from 3 Scene.unlocated
                 = Returned (true, Cases.pinned, [])) by (vm_compute; reflexivity).
  split; [exact Hrun |].
  destruct (find_cell_inner_builds_chain Scene.everywhere Scene.MATERIAL_VOID
              Scene.NO_OUTER_UNIVERSE Scene.TINY_BIT 7 false 3
              (Scene.scene (Scene.tiles (0, 0, 0) 0.5)) Scene.unlocated
              Cases.pinned None [] [] Hrun)
    as (Hle & _ & _ & _ & _ & Hchain).
  split; [exact Hle |].
  destruct (Hchain 2) as (f & c & Hf & Hc & Huniv & _ & Hmat & _).
  { vm_compute. split; [intros Hcmp; discriminate Hcmp | reflexivity]. }
  exists f, c. split; [exact Hf |]. split; [exact Hc |].
  split; [exact Huniv |]. apply Hmat. reflexivity.
Defined.

(** The hypotheses of [find_cell_inner_depth_bounded] hold of the
    unlocated particle, with three frames left, for the bounds 5 and 9. *)
Lemma find_cell_inner_depth_bounded_witness :
  search_from 5 Scene.unlocated <> OutOfFuel
  /\ search_from 5 Scene.unlocated
     = search_from 9 Scene.unlocated.
Proof.
  apply (find_cell_inner_depth_bounded Scene.everywhere Scene.MATERIAL_VOID
           Scene.NO_OUTER_UNIVERSE Scene.TINY_BIT 7 false 5 9
           (Scene.scene (Scene.tiles (0, 0, 0) 0.5)) Scene.unlocated None []);
    simpl; lia.
Defined.

(** The hypotheses of [calculate_xs_stays_in_range] hold of the water
    and a photon: the three element indices are inside the two elements. *)
Lemma calculate_xs_stays_in_range_witness :
  (length (Material.nuclide_ Examples.water)
   <= length (Material.atom_density_ Examples.water))%nat
  /\ exists xs',
       Examples.evaluate Examples.water (Examples.a_photon 1)
         (Examples.caches 1 1 0) = Returned xs'.
Proof.
  split; [simpl; lia |].
  apply (calculate_xs_stays_in_range (fun e => e) (fun _ => 0) 1%float
           (fun _ => 1%float) (@nil unit) [tt; tt] Examples.store_nuclide
           Examples.store_element (fun _ => 0%float)
           (Examples.library 1 16)%float Examples.water (Examples.a_photon 1)
           (Examples.caches 1 1 0)).
  - simpl. lia.
  - discriminate.
  - intros _. split; [simpl; lia |].
    intros [| [| [| i]]] e Hi; simpl; intros [= <-]; eexists; reflexivity.
Defined.

(** The hypotheses of [sorted_tables_bind_their_slot] hold of the
    assigned water after its two hydrogen slots: the oxygen in slot 2 is
    bound to table 1, the table of oxygen. *)
Lemma sorted_tables_bind_their_slot_witness :
  StronglySorted MaterialApi.before_slot
    (Material.thermal_tables_ Cases.assigned_water)
  /\ for_loop 2
       (Material.neutron_nuclide Cases.thermal_scatt Examples.store_nuclide
          Cases.threshold (Examples.library 1 16)%float Cases.assigned_water
          (Examples.a_neutron 1 1) 0)
       (Examples.caches 1 1 0, Cases.cursor0 Cases.assigned_water)
     = Returned Cases.two_done
  /\ exists cur',
       Material.sab_binding Cases.thermal_scatt Cases.threshold
         Cases.assigned_water (Examples.a_neutron 1 1) 2 Cases.two_done.2
       = Returned (1, 1%float, cur').
Proof.
  assert (Hsorted : StronglySorted MaterialApi.before_slot
                      (Material.thermal_tables_ Cases.assigned_water)).
  { repeat (constructor; [| repeat constructor;
                            unfold MaterialApi.before_slot; simpl; lia]).
    constructor. }
  assert (Hrun : for_loop 2
                   (Material.neutron_nuclide Cases.thermal_scatt
                      Examples.store_nuclide Cases.threshold
                      (Examples.library 1 16)%float Cases.assigned_water
                      (Examples.a_neutron 1 1) 0)
                   (Examples.caches 1 1 0, Cases.cursor0 Cases.assigned_water)
                 = Returned Cases.two_done) by (vm_compute; reflexivity).
  split; [exact Hsorted |]. split; [exact Hrun |].
  destruct (sorted_tables_bind_their_slot Cases.thermal_scatt
              Examples.store_nuclide Cases.threshold
              (Examples.library 1 16)%float Cases.assigned_water
              (Examples.a_neutron 1 1) 0 (Examples.caches 1 1 0) 2
              Cases.two_done Hsorted) as [Hsome _].
  { intros t Ht. simpl in Ht.
    repeat (apply elem_of_cons in Ht as [-> | Ht]; [simpl; lia |]).
    by apply elem_of_nil in Ht. }
  { exact Hrun. }
  apply (Hsome (Cases.a_table 1 2)).
  - simpl. do 2 right. by left.
  - reflexivity.
Defined.

(** The hypotheses of [normalize_density_atom_percents] hold of the
    water [2, 2, 1] of total density 5 atom/b-cm: the total is kept. *)
Lemma normalize_density_atom_percents_witness :
  MaterialApi.normalize_density true 1%float 2%float []
    (Examples.library 1 16)%float Examples.water
  = Returned Cases.normalized_water
  /\ Material.nuclide_ Cases.normalized_water
     = Material.nuclide_ Examples.water
  /\ Material.density_ Cases.normalized_water = 5%float.
Proof.
  assert (Hrun : MaterialApi.normalize_density true 1%float 2%float []
                   (Examples.library 1 16)%float Examples.water
                 = Returned Cases.normalized_water)
    by (vm_compute; reflexivity).
  split; [exact Hrun |].
  destruct (normalize_density_atom_percents true 1%float 2%float []
              (Examples.library 1 16)%float Examples.water
              Cases.normalized_water Hrun) as (Hnuc & _ & Hkeep).
  - exists 2%float. split; reflexivity.
  - split; [exact Hnuc |]. apply Hkeep. reflexivity.
Defined.

(** The hypothesis of [find_cell_appends_one_neighbor] holds of a search
    with neighbor lists from the root universe: the lattice cell, cell 0,
    whose neighbor list was empty, has itself as its one neighbor
    afterwards. *)
Lemma find_cell_appends_one_neighbor_witness :
  find_cell_from Scene.in_lattice_cell true
  = Returned (true, Cases.swept_particle, Cases.swept_scene, [])
  /\ exists c',
       lookupZ (Geometry.cells Cases.swept_scene) 0 = Some c'
       /\ Geometry.neighbors_ c' = [0].
Proof.
  assert (Hrun : find_cell_from Scene.in_lattice_cell true
                 = Returned (true, Cases.swept_particle, Cases.swept_scene,
                             [])) by (vm_compute; reflexivity).
  split; [exact Hrun |].
  destruct (find_cell_appends_one_neighbor Scene.everywhere
              Scene.MATERIAL_VOID Scene.F90_NONE Scene.NO_OUTER_UNIVERSE
              Scene.MAX_COORD Scene.TINY_BIT 7 false 4
              (Scene.scene (Scene.tiles (0, 0, 0) 0.5)) Cases.swept_scene
              Scene.in_lattice_cell Cases.swept_particle true true [] []
              Hrun) as (_ & _ & _ & Hlists).
  destruct (Hlists eq_refl)
    as (p0 & frame & c & found1 & p1 & log1 & Hp0 & Hframe & Hc & Hfirst
        & _ & Hsweep).
  vm_compute in Hp0. injection Hp0 as <-.
  vm_compute in Hframe. injection Hframe as <-.
  vm_compute in Hc. injection Hc as <-.
  vm_compute in Hfirst. injection Hfirst as <- <- <-.
  destruct (Hsweep eq_refl) as (_ & Hfound).
  destruct (Hfound eq_refl) as (frame' & c' & Hframe' & Hc' & Hnb & _).
  vm_compute in Hframe'. injection Hframe' as <-.
  exists c'. split; [exact Hc' | exact Hnb].
Defined.

(** The hypothesis of [distance_outputs_assigned] holds of the located
    particle, three levels deep. *)
Lemma distance_outputs_assigned_witness :
  boundary_of Scene.located
  = Returned ({| Geometry.dist := 0.5; Geometry.surface_crossed := 3;
                 Geometry.lattice_translation := (0, 0, 0);
                 Geometry.next_level := 1 |}, Scene.located, [])
  /\ 1 <= 1 <= Geometry.n_coord Scene.located.
Proof.
  assert (Hrun : boundary_of Scene.located
                 = Returned ({| Geometry.dist := 0.5;
                                Geometry.surface_crossed := 3;
                                Geometry.lattice_translation := (0, 0, 0);
                                Geometry.next_level := 1 |},
                             Scene.located, [])) by (vm_compute; reflexivity).
  split; [exact Hrun |].
  destruct (distance_outputs_assigned (Scene.surfaces_at 0.5 0.7)
              Scene.F90_NONE Scene.FP_REL_PRECISION
              (Scene.scene (Scene.tiles (0, 0, 0) 0.5)) Scene.located
              Scene.located 0 0 (0, 0, 0) [] [] _ Hrun)
    as (_ & _ & _ & _ & Hlevels).
  destruct Hlevels as [Hnext _]; [simpl; lia | exact Hnext].
Defined.

(** The hypothesis of [check_cell_overlap_sound] holds of the scene with
    two cells in the root universe: the check dies at level 0, naming the
    cell of the tiles, 11, the particle's cell, 10, and universe 0. *)
Lemma check_cell_overlap_sound_witness :
  Overlap.check_cell_overlap Scene.everywhere Cases.crowded Scene.located
    [0; 0; 0] = Returned (Fatal (OverlappingCells 11 10 0))
  /\ exists (j : nat) frame univ,
       Z.of_nat j < Geometry.n_coord Scene.located
       /\ Geometry.coord Scene.located !! j = Some frame
       /\ lookupZ (Geometry.universes Cases.crowded) (Geometry.universe frame)
          = Some univ
       /\ exists i_cell c own,
            i_cell ∈ Geometry.cells_ univ
            /\ lookupZ (Geometry.cells Cases.crowded) i_cell = Some c
            /\ Scene.everywhere c (Geometry.xyz frame) (Geometry.uvw frame)
                 (Geometry.surface Scene.located) = true
            /\ i_cell <> Geometry.cell frame
            /\ lookupZ (Geometry.cells Cases.crowded) (Geometry.cell frame)
               = Some own
            /\ OverlappingCells 11 10 0
               = OverlappingCells (Geometry.id_ c) (Geometry.id_ own)
                   (Geometry.univ_id_ univ).
Proof.
  assert (Hrun : Overlap.check_cell_overlap Scene.everywhere Cases.crowded
                   Scene.located [0; 0; 0]
                 = Returned (Fatal (OverlappingCells 11 10 0)))
    by (vm_compute; reflexivity).
  split; [exact Hrun |].
  exact (check_cell_overlap_sound Scene.everywhere Cases.crowded Scene.located
           [0; 0; 0] (Fatal (OverlappingCells 11 10 0)) Hrun).
Defined.

(** The hypotheses of [finalize_flags_fissionable] hold of the fuel
    [U235, O16]: it comes out flagged. *)
Lemma finalize_flags_fissionable_witness :
  finalize_fuel Cases.fuel = Returned (Pass Cases.finalized_fuel)
  /\ Material.fissionable_ Cases.fuel = false
  /\ Material.fissionable_ Cases.finalized_fuel = true.
Proof.
  assert (Hrun : finalize_fuel Cases.fuel
                 = Returned (Pass Cases.finalized_fuel)) by (vm_compute; reflexivity).
  split; [exact Hrun |]. split; [reflexivity |].
  destruct (finalize_flags_fissionable true false false 1%float 2%float []
              Cases.thermal_scatt (fun m => m) Cases.fuel_library Cases.fuel
              Cases.finalized_fuel eq_refl Hrun) as [[_ Hflag] _].
  apply Hflag. right.
  exists 0, {| Material.nuc_name_ := "U235"; Material.awr_ := 235%float;
               Material.nuc_fissionable_ := true |}.
  split; [by left |]. split; reflexivity.
Defined.

(** The hypothesis of [cross_lattice_locates_or_loses] holds of the
    located particle crossing into tile (1, 0, 0): it is alive and has
    been found. *)
Lemma cross_lattice_locates_or_loses_witness :
  cross_from Cases.at_tile_face (1, 0, 0)
  = Returned (Cases.crossed_particle,
              Scene.scene (Scene.tiles (0, 0, 0) 0.5), [])
  /\ exists q ev,
       find_cell_from q false
       = Returned (true, Cases.crossed_particle,
                   Scene.scene (Scene.tiles (0, 0, 0) 0.5), ev).
Proof.
  assert (Hrun : cross_from Cases.at_tile_face (1, 0, 0)
                 = Returned (Cases.crossed_particle,
                             Scene.scene (Scene.tiles (0, 0, 0) 0.5), []))
    by (vm_compute; reflexivity).
  split; [exact Hrun |].
  destruct (cross_lattice_locates_or_loses Scene.everywhere
              Scene.MATERIAL_VOID Scene.F90_NONE Scene.NO_OUTER_UNIVERSE
              Scene.MAX_COORD Scene.TINY_BIT 7 false 4
              (Scene.scene (Scene.tiles (0, 0, 0) 0.5))
              (Scene.scene (Scene.tiles (0, 0, 0) 0.5))
              Cases.at_tile_face Cases.crossed_particle (1, 0, 0) [] []
              Hrun) as (_ & _ & Hfound).
  exact (Hfound eq_refl).
Defined.

(** The hypothesis of [to_hdf5_writes] holds of the water, whose volume
    is 0: no volume is written, and no macroscopic name. *)
Lemma to_hdf5_writes_witness :
  MaterialApi.to_hdf5 true 0%float [] Cases.thermal_scatt
    (Examples.library 1 16)%float Examples.water = Returned Cases.summary
  /\ (forall v, MaterialApi.write_attribute_double "volume" v ∉ Cases.summary)
  /\ (forall names,
        MaterialApi.write_dataset_strings "macroscopics" names
        ∉ Cases.summary).
Proof.
  assert (Hrun : MaterialApi.to_hdf5 true 0%float [] Cases.thermal_scatt
                   (Examples.library 1 16)%float Examples.water
                 = Returned Cases.summary) by (vm_compute; reflexivity).
  split; [exact Hrun |].
  destruct (to_hdf5_writes true 0%float [] Cases.thermal_scatt
              (Examples.library 1 16)%float Examples.water Cases.summary Hrun)
    as (_ & Hvolume & _ & Hmacro).
  split.
  - intros v Hin. apply Hvolume in Hin as [_ Hpos]. discriminate Hpos.
  - exact (Hmacro eq_refl).
Defined.

(** The hypotheses of [set_densities_of_nothing] hold of the water, which
    has no thermal table. *)
Lemma set_densities_of_nothing_witness :
  Material.index_in_bounds Examples.two_materials 1 = true
  /\ exists mdl',
       MaterialApi.openmc_material_set_densities 1%float 2%float
         Examples.codes Cases.thermal_scatt Examples.no_load
         Examples.two_materials (Examples.library 1 16)%float 1 0 [] []
       = Returned (Pass (0, mdl', (Examples.library 1 16)%float))
       /\ MaterialApi.openmc_material_get_densities Examples.codes mdl' 1
          = (-3, None).
Proof.
  split; [reflexivity |].
  apply (set_densities_of_nothing 1%float 2%float Examples.codes
           Cases.thermal_scatt Examples.no_load Examples.two_materials
           (Examples.library 1 16)%float 1 [] []).
  - reflexivity.
  - intros mat [= <-]. reflexivity.
Defined.

(** The hypotheses of [set_densities_stores] hold when the water is
    given the two nuclides O16 and H1 with the densities 3 and 4. *)
Lemma set_densities_stores_witness :
  Material.index_in_bounds Cases.one_material 1 = true
  /\ exists mdl' mat',
       MaterialApi.openmc_material_set_densities 1%float 2%float
         Examples.codes Cases.thermal_scatt Examples.no_load
         Cases.one_material (Examples.library 1 16)%float 1 2
         ["O16"; "H1"]%string [3; 4]%float
       = Returned (Pass (0, mdl', (Examples.library 1 16)%float))
       /\ Material.materials mdl' !! 0%nat = Some mat'
       /\ Material.nuclide_ mat' = [1; 0]
       /\ Material.density_ mat' = 7%float.
Proof.
  split; [reflexivity |].
  destruct (set_densities_stores 1%float 2%float Examples.codes
              Cases.thermal_scatt Examples.no_load Cases.one_material
              (Examples.library 1 16)%float 1 2 ["O16"; "H1"]%string
              [3; 4]%float Examples.water)
    as (mdl' & mat' & Hrun & _ & Hmat & Hnuc & Hdens & _).
  - reflexivity.
  - reflexivity.
  - reflexivity.
  - reflexivity.
  - lia.
  - simpl. lia.
  - simpl. lia.
  - intros nm Hnm. simpl in Hnm.
    apply elem_of_cons in Hnm as [-> | Hnm];
      [exists 1; split; [reflexivity | eexists; reflexivity] |].
    apply elem_of_cons in Hnm as [-> | Hnm];
      [exists 0; split; [reflexivity | eexists; reflexivity] |].
    by apply elem_of_nil in Hnm.
  - exists mdl', mat'. split; [exact Hrun |]. split; [exact Hmat |].
    split; [| exact Hdens].
    simpl in Hnuc.
    apply Forall2_cons_inv_r in Hnuc as (g1 & rest & Hg1 & Hnuc & ->).
    apply Forall2_cons_inv_r in Hnuc as (g2 & rest' & Hg2 & Hnuc & ->).
    apply Forall2_nil_inv_r in Hnuc as ->.
    vm_compute in Hg1, Hg2. by injection Hg1 as <-; injection Hg2 as <-.
Defined.

(** * The properties of the loops and of the descent on concrete data *)

Local Abbreviation nested_scene := (Scene.nested (Scene.tiles (5, 0, 0) 0.5)).
Local Abbreviation nested_search fuel p nl :=
  (Geometry.find_cell_inner Scene.everywhere Scene.MATERIAL_VOID
     Scene.NO_OUTER_UNIVERSE Scene.TINY_BIT 7 false fuel nested_scene p nl []).
Local Abbreviation nested_find_cell p :=
  (Geometry.find_cell Scene.everywhere Scene.MATERIAL_VOID Scene.F90_NONE
     Scene.NO_OUTER_UNIVERSE Scene.MAX_COORD Scene.TINY_BIT 7 false 2
     nested_scene p false []).
Local Abbreviation boundary_at d0 d2 lat p :=
  (Geometry.distance_to_boundary (Scene.surfaces_at d0 d2) Scene.F90_NONE
     Scene.FP_REL_PRECISION (Scene.scene lat) p 0 0 (0, 0, 0) []).
Local Abbreviation evaluate_water p xs :=
  (Material.calculate_xs (fun e => e) (fun _ => 0) 1%float
     (fun _ => 1%float) (@nil unit) [tt; tt] Examples.store_nuclide
     Examples.store_element (fun _ => 0%float) (Examples.library 1 16)%float
     Examples.water p xs).

(** The hypotheses of [refresh_iff_tuple_differs] hold of a neutron of
    energy 2 evaluated in the water from caches computed at energy 1: no
    table is bound at the first nuclide, and its refresh is invoked. *)
Lemma refresh_iff_tuple_differs_witness :
  evaluate_water (Examples.a_neutron 2 1) (Examples.caches 1 1 1)
  = Returned Cases.evaluated
  /\ exists (visit : nat -> Material.XsState float * Material.SabCursor)
            (bound : nat -> Z * float),
       (visit 3%nat).1 = Cases.evaluated
       /\ bound 0%nat = (C_NONE, 0%float)
       /\ Material.calls (visit 1%nat).1
          = [Material.NuclideRefresh 0 C_NONE 2%float 0 1%float 0%float].
Proof.
  assert (Hrun : evaluate_water (Examples.a_neutron 2 1)
                   (Examples.caches 1 1 1)
                 = Returned Cases.evaluated) by (vm_compute; reflexivity).
  split; [exact Hrun |].
  destruct (refresh_iff_tuple_differs (fun e => e) (fun _ => 0) 1%float
              (fun _ => 1%float) (@nil unit) [tt; tt] Examples.store_nuclide
              Examples.store_element (fun _ => 0%float)
              (Examples.library 1 16)%float Examples.water
              (Examples.a_neutron 2 1) (Examples.caches 1 1 1)
              Cases.evaluated eq_refl Hrun)
    as (visit & bound & Hfirst & Hlast & Hvisit).
  exists visit, bound. split; [exact Hlast |].
  destruct (Hvisit 0%nat 0 eq_refl) as (Hbind & _ & Hdiff & _).
  rewrite Hfirst in Hbind, Hdiff.
  assert (Hbound : bound 0%nat = (C_NONE, 0%float)).
  { destruct (bound 0%nat) as [i_sab frac].
    vm_compute in Hbind. by injection Hbind as <- <- _. }
  split; [exact Hbound |].
  rewrite Hbound in Hdiff. destruct Hdiff as (_ & Hcalls & _);
    [vm_compute; reflexivity |].
  exact Hcalls.
Defined.


(** The hypotheses of [set_density_twice_rescales] hold of the water
    [2, 2, 1] of total density 5, set to 7 atom/b-cm and back. *)
Lemma set_density_twice_rescales_witness :
  Material.nuclide_ Examples.water <> []
  /\ exists m1 m2,
       Material.set_density 1%float 2%float Examples.codes
         (Examples.library 1 16)%float Examples.water 7%float "atom/b-cm"
       = Returned (0, m1)
       /\ Material.set_density 1%float 2%float Examples.codes
            (Examples.library 1 16)%float m1 5%float "atom/b-cm"
          = Returned (0, m2)
       /\ Material.density_ m2 = 5%float
       /\ Material.nuclide_ m2 = [0; 0; 1].
Proof.
  assert (Hne : Material.nuclide_ Examples.water <> []) by discriminate.
  split; [exact Hne |].
  destruct (set_density_twice_rescales 1%float 2%float Examples.codes
              (Examples.library 1 16)%float Examples.water 7%float Hne
              eq_refl)
    as (m1 & m2 & Hrun1 & Hrun2 & Hnuc & Hdens & _).
  { intros [| [| [| k]]] g; simpl; intros [= <-]; eexists; reflexivity. }
  exists m1, m2. split; [exact Hrun1 |]. split; [exact Hrun2 |].
  split; [exact Hdens | exact Hnuc].
Defined.

(** The hypotheses of [coincident_boundary_keeps_coarser_level] hold in
    the scene with the surface of the lattice cell, on level 1, at 0.9,
    the tile face, on level 2, at 0.5 and the surface of the pin, on level
    3, at 0.5 too: the candidate of level 3 is the distance chosen at
    level 2, and the lattice crossing of level 2 is what is handed
    back. *)
Lemma coincident_boundary_keeps_coarser_level_witness :
  PrimFloat.ltb 0 Scene.FP_REL_PRECISION = true
  /\ boundary_at 0.9 0.5 (Scene.tiles (0, 0, 0) 0.5) Scene.located
     = Returned ({| Geometry.dist := 0.5;
                    Geometry.surface_crossed := Scene.F90_NONE;
                    Geometry.lattice_translation := (1, 0, 0);
                    Geometry.next_level := 2 |}, Scene.located, [])
  /\ exists (st : nat -> Geometry.Levels) (cand : nat -> float),
       cand 2%nat = Geometry.dist (Geometry.out (st 2%nat))
       /\ Geometry.next_level (Geometry.out (st 2%nat)) = 2
       /\ Geometry.out (st 3%nat) = Geometry.out (st 2%nat).
Proof.
  assert (Heps : PrimFloat.ltb 0 Scene.FP_REL_PRECISION = true)
    by reflexivity.
  assert (Hrun : boundary_at 0.9 0.5 (Scene.tiles (0, 0, 0) 0.5)
                   Scene.located
                 = Returned ({| Geometry.dist := 0.5;
                                Geometry.surface_crossed := Scene.F90_NONE;
                                Geometry.lattice_translation := (1, 0, 0);
                                Geometry.next_level := 2 |},
                             Scene.located, []))
    by (vm_compute; reflexivity).
  split; [exact Heps |]. split; [exact Hrun |].
  destruct (coincident_boundary_keeps_coarser_level
              (Scene.surfaces_at 0.9 0.5) Scene.F90_NONE
              Scene.FP_REL_PRECISION (Scene.scene (Scene.tiles (0, 0, 0) 0.5))
              Scene.located Scene.located 0 0 (0, 0, 0) [] [] _ Heps Hrun)
    as (st & cand & Hout0 & Hd0 & Hb & Hlevel & Hhence).
  change (Z.to_nat (Geometry.n_coord Scene.located)) with 3%nat in *.
  (* level 1 *)
  destruct (Hlevel 0%nat ltac:(lia))
    as (f0 & c0 & Hf0 & Hc0 & Hnone0 & _ & Hcand0 & Htake0 & _).
  injection Hf0 as <-. injection Hc0 as <-.
  rewrite (Hnone0 eq_refl), Hd0 in Hcand0.
  assert (Hc0 : cand 0%nat = 0.9%float) by (rewrite Hcand0; reflexivity).
  rewrite Hout0, Hc0 in Htake0.
  destruct (Htake0 eq_refl) as [Hdist1 _].
  (* level 2 *)
  destruct (Hlevel 1%nat ltac:(lia))
    as (f1 & c1 & Hf1 & Hc1 & _ & Hsome1 & Hcand1 & Htake1 & _).
  injection Hf1 as <-. injection Hc1 as <-.
  destruct (Hsome1 eq_refl) as (lat & r & Hlat & _ & Hd2).
  injection Hlat as <-.
  assert (Hd2' : Geometry.d_lat (st 2%nat) = 0.5%float)
    by (rewrite Hd2; reflexivity).
  rewrite Hd2' in Hcand1.
  assert (Hc1 : cand 1%nat = 0.5%float) by (rewrite Hcand1; reflexivity).
  rewrite Hdist1, Hc1 in Htake1.
  destruct (Htake1 ltac:(vm_compute; reflexivity)) as [Hdist2 Hnext2].
  (* level 3 *)
  destruct (Hlevel 2%nat ltac:(lia))
    as (f2 & c2 & Hf2 & Hc2 & Hnone2 & _ & Hcand2 & _).
  injection Hf2 as <-. injection Hc2 as <-.
  rewrite (Hnone2 eq_refl), Hd2' in Hcand2.
  assert (Hc2 : cand 2%nat = 0.5%float) by (rewrite Hcand2; reflexivity).
  exists st, cand. split; [by rewrite Hc2, Hdist2 |].
  split; [exact Hnext2 |].
  rewrite Hb. apply (Hhence 1%nat); [lia | by rewrite Hdist2 |].
  intros k Hk. assert (k = 2%nat) as -> by lia. by rewrite Hc2, Hdist2.
Defined.



